(** * A shallow embedding of the pinning semispace collector of [Main.cpp]

    The heap of [Main.cpp] is a byte array split into two semispaces.  The
    embedding keeps memory as a finite map from the byte address of an
    8-byte word to the word stored there; pointers are byte addresses and
    the null pointer is [0].  Handles that live on the stack are words of
    the same memory, at addresses outside the heap array.

    Every operation is a function from the heap state to an outcome: a
    normal return, a C++ exception that leaves a state behind, or the end
    of the process (undefined behaviour, a failed assertion, an exception
    that escapes a [noexcept] function). *)

From Stdlib Require Import ZArith List Bool Lia.
From stdpp Require Import base gmap.
Import ListNotations.
Open Scope Z_scope.

(** ** Data *)

(** [GCHeader]: the two-word prefix of every managed object. *)
Record GCHeader := mkHeader { Info : Z; Forwardee : Z }.

(** [GCInfo]: the per-type descriptor.  [Size] is [sizeof(GCObject<T>)];
    [PtrFields] lists, for every [GCPtr] member the visitor reaches, its
    byte offset inside [GCObject<T>] and the descriptor of its target type;
    [HasFinalize] tells whether the [Finalize] pointer is non-null. *)
Record GCInfo := mkInfo {
  Size : Z;
  PtrFields : list (Z * Z);
  HasFinalize : bool }.

(** [GCPtrInfo]: one slot of the root array. *)
Record GCPtrInfo := mkRoot { Ptr : Z; RootInfo : Z }.

(** The members of [Heap], followed by two observations of the run: the
    trace of finalizer calls (the header address each call received, oldest
    first) and the number of collections completed so far. *)
Record Heap := mkHeap {
  Mem : gmap Z Z;
  From : Z;
  To : Z;
  AllocPtr : Z;
  OnStackGCPtrs : list GCPtrInfo;
  Finalized : list Z;
  Collections : nat }.

Inductive SpaceKind := SpaceFrom | SpaceTo.
Inductive CollectPolicy := CollectIfNeeded | NeverCollect.

Inductive Exn := BadAlloc | CtorFailure.
Inductive Fault :=
  NullDeref | Misaligned | BadDescriptor | AssertFailed | Terminated | OutOfFuel.

Inductive outcome (A : Type) :=
| Ok (a : A) (h : Heap)
| Throw (e : Exn) (h : Heap)
| Abort (f : Fault).
Arguments Ok {A} a h.
Arguments Throw {A} e h.
Arguments Abort {A} f.

Definition M (A : Type) := Heap -> outcome A.

Definition ret {A} (a : A) : M A := fun h => Ok a h.

Definition bind {A B} (c : M A) (k : A -> M B) : M B :=
  fun h => match c h with
           | Ok a h' => k a h'
           | Throw e h' => Throw e h'
           | Abort f => Abort f
           end.

Notation "x <- c ;; k" := (bind c (fun x => k))
  (at level 100, c at next level, right associativity).
Notation "c ;;; k" := (bind c (fun _ => k))
  (at level 100, right associativity).

Definition throw {A} (e : Exn) : M A := fun h => Throw e h.
Definition abort {A} (f : Fault) : M A := fun _ => Abort f.
Definition gets {A} (f : Heap -> A) : M A := fun h => Ok (f h) h.
Definition modify (f : Heap -> Heap) : M unit := fun h => Ok tt (f h).
Definition assert (b : bool) : M unit := if b then ret tt else abort AssertFailed.
Definition when (b : bool) (c : M unit) : M unit := if b then c else ret tt.

(** ** Constants and machine arithmetic *)

Definition Heap_Size : Z := 1024.
Definition sizeof_GCHeader : Z := 16.

(** Conversion to [std::size_t] (64 bits), as the comparisons between a
    pointer difference and an unsigned size perform it. *)
Definition size_t (z : Z) : Z := z mod 18446744073709551616.

(** ** Memory *)

(** A word of memory is a 64-bit value; a word never written is zero, as
    in the zero-initialised array of the static [Heap] instance. *)
Definition read (m : gmap Z Z) (p : Z) : Z := size_t (default 0 (m !! p)).

Definition set_Mem (m : gmap Z Z) (h : Heap) : Heap :=
  mkHeap m (From h) (To h) (AllocPtr h) (OnStackGCPtrs h) (Finalized h) (Collections h).
Definition set_AllocPtr (p : Z) (h : Heap) : Heap :=
  mkHeap (Mem h) (From h) (To h) p (OnStackGCPtrs h) (Finalized h) (Collections h).
Definition set_roots (r : list GCPtrInfo) (h : Heap) : Heap :=
  mkHeap (Mem h) (From h) (To h) (AllocPtr h) r (Finalized h) (Collections h).
Definition swap_spaces (h : Heap) : Heap :=
  mkHeap (Mem h) (To h) (From h) (AllocPtr h) (OnStackGCPtrs h) (Finalized h)
         (S (Collections h)).
Definition log_finalize (p : Z) (h : Heap) : Heap :=
  mkHeap (Mem h) (From h) (To h) (AllocPtr h) (OnStackGCPtrs h) (Finalized h ++ [p])
         (Collections h).

Definition load (p : Z) : M Z :=
  if p =? 0 then abort NullDeref else gets (fun h => read (Mem h) p).
Definition store (p v : Z) : M unit :=
  if p =? 0 then abort NullDeref else modify (fun h => set_Mem (<[p := v]> (Mem h)) h).

Definition header_at (m : gmap Z Z) (p : Z) : GCHeader :=
  mkHeader (read m p) (read m (p + 8)).
Definition write_header (p : Z) (hd : GCHeader) (m : gmap Z Z) : gmap Z Z :=
  <[p + 8 := Forwardee hd]> (<[p := Info hd]> m).

(** [GCObject<T>] is declared [alignas(std::max_align_t)], the array
    [Space] too, and every header pointer of the program is one of these or
    the cursor stepping by [sizeof(GCObject<T>)]: a [GCHeader] is read or
    constructed at a multiple of 16 only; through any other pointer the
    behaviour is undefined, as through a null one. *)
Definition alignof_max_align_t : Z := 16.

Definition header_ptr (p : Z) : M unit :=
  if p =? 0 then abort NullDeref
  else if p mod alignof_max_align_t =? 0 then ret tt
  else abort Misaligned.

Definition load_header (p : Z) : M GCHeader :=
  header_ptr p ;;; gets (fun h => header_at (Mem h) p).
Definition store_header (p : Z) (hd : GCHeader) : M unit :=
  header_ptr p ;;; modify (fun h => set_Mem (write_header p hd (Mem h)) h).

(** A handle stores the address of the [T] subobject, which follows the
    [GCHeader] base of [GCObject<T>]; the two casts between [T*] and
    [GCObject<T>*] keep a null pointer null. *)
Definition to_object (value : Z) : Z := if value =? 0 then 0 else value - sizeof_GCHeader.
Definition to_value (obj : Z) : Z := if obj =? 0 then 0 else obj + sizeof_GCHeader.

(** ** The collector *)

Section Collector.

(** The address of the array [Heap::Space], and [GCInfo::Get]: the
    descriptor found behind a non-null [Info] pointer ([None] for a word
    that is the address of no descriptor). *)
Variable Space : Z.
Variable GCInfo_Get : Z -> option GCInfo.

Definition descriptor (info : Z) : M GCInfo :=
  if info =? 0 then abort NullDeref
  else match GCInfo_Get info with
       | Some gi => ret gi
       | None => abort BadDescriptor
       end.

Definition space_base (sp : SpaceKind) : M Z :=
  gets (fun h => match sp with SpaceFrom => From h | SpaceTo => To h end).

Definition IsPointerInHeap (ptr : Z) : bool :=
  (Space <=? ptr) && (ptr <? Space + Heap_Size).

Definition InFrom (h : Heap) (ptr : Z) : bool :=
  (From h <=? ptr) && (ptr <? From h + Heap_Size / 2).

Definition Used (h : Heap) : Z := size_t (AllocPtr h - From h).

(** [Heap::AdjustAllocPtr<SpaceValue, CollectPolicyValue>]; [collect] is
    the call of [Collect] that the [CollectIfNeeded] instance makes.  One
    unit of fuel pays for one pass from the label [AllocateBegin]. *)
Fixpoint AdjustAllocPtr (fuel : nat) (sp : SpaceKind) (policy : CollectPolicy)
    (collect : M unit) (allocatingSize : Z) : M GCHeader :=
  match fuel with
  | O => abort OutOfFuel
  | S fuel' =>
    spaceBase <- space_base sp ;;
    ap <- gets AllocPtr ;;
    (if size_t (ap - spaceBase) >? size_t (Heap_Size / 2 - allocatingSize) then
       match policy with
       | CollectIfNeeded =>
           collect ;;;
           ap' <- gets AllocPtr ;;
           if size_t (ap' - spaceBase) >? size_t (Heap_Size / 2 - allocatingSize)
           then throw BadAlloc else ret tt
       | NeverCollect => throw BadAlloc
       end
     else ret tt) ;;;
    ap <- gets AllocPtr ;;
    oldHeaderContent <- load_header ap ;;
    let nextPinnedObject := Forwardee oldHeaderContent in
    if (Info oldHeaderContent =? 0) && negb (nextPinnedObject =? 0) then
      if size_t (nextPinnedObject - ap) <? size_t (allocatingSize + sizeof_GCHeader) then
        pinned <- load_header nextPinnedObject ;;
        gi <- descriptor (Info pinned) ;;
        modify (set_AllocPtr (nextPinnedObject + Size gi)) ;;;
        AdjustAllocPtr fuel' sp policy collect allocatingSize
      else ret oldHeaderContent
    else ret oldHeaderContent
  end.

(** The byte offsets of the payload words of an object of [size] bytes. *)
Definition payload_offsets (size : Z) : list Z :=
  map (fun i => sizeof_GCHeader + 8 * Z.of_nat i)
      (seq 0 (Z.to_nat ((size - sizeof_GCHeader) / 8))).

(** [GCTraits<T>::Relocate]: the payload of [from] is copied (or moved
    member by member) to [to]; [copy_words] writes to [m] the words read
    in [m0]. *)
Definition copy_words (m0 : gmap Z Z) (from to : Z) (offs : list Z) (m : gmap Z Z) :
    gmap Z Z :=
  fold_left (fun m off => <[to + off := read m0 (from + off)]> m) offs m.

Definition Relocate (size from to : Z) : M unit :=
  modify (fun h =>
    set_Mem (copy_words (Mem h) from to (payload_offsets size) (Mem h)) h).

(** The scope guard shared by [Allocate] and [Evacuate], on the path
    where no exception is in flight. *)
Definition restore_preamble (base : Z) (oldHeaderContent : GCHeader) : M unit :=
  ap <- gets AllocPtr ;;
  when (size_t (ap - base) <? size_t (Heap_Size / 2 - sizeof_GCHeader))
       (store_header ap oldHeaderContent).

(** [Heap::Evacuate<T>]; [T] is given by its descriptor [info]. *)
Definition Evacuate (fuel : nat) (info : Z) (obj : Z) : M Z :=
  header <- load_header obj ;;
  if Forwardee header =? obj then ret obj
  else
    gi <- descriptor info ;;
    let AllocatingSize := Size gi in
    ap <- gets AllocPtr ;;
    to <- gets To ;;
    (if size_t (ap - to) >? size_t (Heap_Size / 2 - AllocatingSize)
     then throw BadAlloc else ret tt) ;;;
    oldHeaderContent <- AdjustAllocPtr fuel SpaceTo NeverCollect (ret tt) AllocatingSize ;;
    resultPtr <- gets AllocPtr ;;
    Relocate AllocatingSize obj resultPtr ;;;
    store_header resultPtr (mkHeader info 0) ;;;
    store (obj + 8) resultPtr ;;;
    modify (set_AllocPtr (resultPtr + AllocatingSize)) ;;;
    restore_preamble to oldHeaderContent ;;;
    ret resultPtr.

(** The [Evacuate] member of [GCInfo::Get<T>()]: [ptr] is a [GCPtr<T>*]. *)
Definition Info_Evacuate (fuel : nat) (info : Z) (ptr : Z) : M unit :=
  value <- load ptr ;;
  newObj <- Evacuate fuel info (to_object value) ;;
  store ptr (to_value newObj).

(** [Heap::ProcessReference<T>]. *)
Definition ProcessReference (fuel : nat) (info : Z) (ptr : Z) : M unit :=
  value <- load ptr ;;
  if value =? 0 then ret tt
  else
    let gcObj := to_object value in
    header <- load_header gcObj ;;
    assert (negb (Info header =? 0)) ;;;
    inFrom <- gets (fun h => InFrom h gcObj) ;;
    if inFrom then
      newObj <- (if negb (Forwardee header =? 0) then ret (Forwardee header)
                 else Evacuate fuel info gcObj) ;;
      store ptr (to_value newObj)
    else ret tt.

(** The [VisitPointer] member of [GCInfo::Get<T>()]. *)
Fixpoint visit_fields (fuel : nat) (obj : Z) (fields : list (Z * Z)) : M unit :=
  match fields with
  | [] => ret tt
  | (off, info) :: rest =>
      ProcessReference fuel info (obj + off) ;;; visit_fields fuel obj rest
  end.

Definition Info_VisitPointer (fuel : nat) (gi : GCInfo) (ptr : Z) : M unit :=
  visit_fields fuel ptr (PtrFields gi).

(** The loop of [Collect] over the root array. *)
Fixpoint evacuate_roots (fuel : nat) (roots : list GCPtrInfo) : M unit :=
  match roots with
  | [] => ret tt
  | r :: rest =>
      assert (negb (IsPointerInHeap (Ptr r))) ;;;
      Info_Evacuate fuel (RootInfo r) (Ptr r) ;;;
      evacuate_roots fuel rest
  end.

(** The Cheney scan of [Collect]; one unit of fuel per iteration. *)
Fixpoint scan_loop (fuel : nat) (scanPtr : Z) : M unit :=
  match fuel with
  | O => abort OutOfFuel
  | S fuel' =>
    ap <- gets AllocPtr ;;
    if scanPtr <? ap then
      header <- load_header scanPtr ;;
      if Info header =? 0 then scan_loop fuel' (Forwardee header)
      else
        gi <- descriptor (Info header) ;;
        Info_VisitPointer fuel gi scanPtr ;;;
        header' <- load_header scanPtr ;;
        gi' <- descriptor (Info header') ;;
        scan_loop fuel' (scanPtr + Size gi')
    else ret tt
  end.

Definition Info_Finalize (ptr : Z) : M unit := modify (log_finalize ptr).

(** The finalize phase of [Collect]: the walk over the old space, which
    returns the last value of [pinnedObjectRecordHeader]. *)
Fixpoint finalize_loop (fuel : nat) (scanPtr pinnedObjectRecordHeader : Z) : M Z :=
  match fuel with
  | O => abort OutOfFuel
  | S fuel' =>
    from <- gets From ;;
    if size_t (scanPtr - from) <? size_t (Heap_Size / 2 - sizeof_GCHeader) then
      header <- load_header scanPtr ;;
      if Info header =? 0 then
        if negb (Forwardee header =? 0)
        then finalize_loop fuel' (Forwardee header) pinnedObjectRecordHeader
        else ret pinnedObjectRecordHeader
      else
        gi <- descriptor (Info header) ;;
        let size := Size gi in
        if (Forwardee header =? 0) && HasFinalize gi then
          Info_Finalize scanPtr ;;;
          finalize_loop fuel' (scanPtr + size) pinnedObjectRecordHeader
        else if Forwardee header =? scanPtr then
          when (negb (pinnedObjectRecordHeader =? scanPtr))
               (store_header pinnedObjectRecordHeader (mkHeader 0 scanPtr)) ;;;
          finalize_loop fuel' (scanPtr + size) (scanPtr + size)
        else finalize_loop fuel' (scanPtr + size) pinnedObjectRecordHeader
    else ret pinnedObjectRecordHeader
  end.

(** [Collect] is [noexcept]: an exception that reaches its frame ends the
    process. *)
Definition noexcept {A} (c : M A) : M A :=
  fun h => match c h with
           | Throw _ _ => Abort Terminated
           | r => r
           end.

Definition Collect (fuel : nat) : M unit :=
  noexcept (
    to <- gets To ;;
    modify (set_AllocPtr to) ;;;
    roots <- gets OnStackGCPtrs ;;
    evacuate_roots fuel roots ;;;
    scan_loop fuel to ;;;
    from <- gets From ;;
    pinnedObjectRecordHeader <- finalize_loop fuel from from ;;
    when (pinnedObjectRecordHeader <? from + Heap_Size / 2 - sizeof_GCHeader)
         (store_header pinnedObjectRecordHeader (mkHeader 0 0)) ;;;
    modify swap_spaces).

(** The inner loop of [FinalizeAll] over one semispace. *)
Fixpoint finalize_space (fuel : nat) (spaceBase scanPtr : Z) : M unit :=
  match fuel with
  | O => abort OutOfFuel
  | S fuel' =>
    if size_t (scanPtr - spaceBase) <? size_t (Heap_Size / 2 - sizeof_GCHeader) then
      header <- load_header scanPtr ;;
      if Info header =? 0 then
        if negb (Forwardee header =? 0)
        then finalize_space fuel' spaceBase (Forwardee header)
        else ret tt
      else
        gi <- descriptor (Info header) ;;
        when ((Forwardee header =? 0) && HasFinalize gi) (Info_Finalize scanPtr) ;;;
        finalize_space fuel' spaceBase (scanPtr + Size gi)
    else ret tt
  end.

Definition FinalizeAll (fuel : nat) : M unit :=
  noexcept (
    n <- gets (fun h => length (OnStackGCPtrs h)) ;;
    assert (Nat.eqb n 0) ;;;
    finalize_space fuel Space Space ;;;
    finalize_space fuel (Space + Heap_Size / 2) (Space + Heap_Size / 2)).

(** The constructors and the destructor of [GCPtr]: a handle outside the
    heap array takes the next slot of the root array, and gives up the
    last slot when it dies. *)
Definition GCPtr_ctor (this info value : Z) : M unit :=
  store this value ;;;
  when (negb (IsPointerInHeap this))
       (modify (fun h => set_roots (OnStackGCPtrs h ++ [mkRoot this info]) h)).

Definition GCPtr_dtor (this : Z) : M unit :=
  when (negb (IsPointerInHeap this))
       (modify (fun h => set_roots (removelast (OnStackGCPtrs h)) h)).

(** [Heap::Allocate<T>].  [T] is given by its descriptor [info]; the
    payload constructor either throws ([ctor = None]) or leaves the payload
    words [ctor = Some words]; [result] is the address of the handle the
    call returns. *)
Definition Allocate (fuel : nat) (info : Z) (ctor : option (list Z)) (result : Z) : M Z :=
  gi <- descriptor info ;;
  let AllocatingSize := Size gi in
  oldAllocPtr <- gets AllocPtr ;;
  oldHeaderContent <-
    AdjustAllocPtr fuel SpaceFrom CollectIfNeeded (Collect fuel) AllocatingSize ;;
  resultPtr <- gets AllocPtr ;;
  match ctor with
  | None =>
      modify (set_AllocPtr oldAllocPtr) ;;;
      from <- gets From ;;
      restore_preamble from oldHeaderContent ;;;
      throw CtorFailure
  | Some words =>
      modify (fun h =>
        set_Mem (fold_left (fun m ow => <[resultPtr + fst ow := snd ow]> m)
                           (combine (payload_offsets AllocatingSize) words) (Mem h)) h) ;;;
      store_header resultPtr (mkHeader info 0) ;;;
      modify (set_AllocPtr (resultPtr + AllocatingSize)) ;;;
      GCPtr_ctor result info (to_value resultPtr) ;;;
      from <- gets From ;;
      restore_preamble from oldHeaderContent ;;;
      ret (to_value resultPtr)
  end.

(** [Heap::Pin] and [Heap::Unpin]; [ptr] is the [T*] a handle holds. *)
Definition Pin (ptr : Z) : M unit :=
  let header := to_object ptr in
  hd <- load_header header ;;
  assert (Forwardee hd =? 0) ;;;
  store (header + 8) header.

Definition Unpin (ptr : Z) : M unit :=
  let header := to_object ptr in
  hd <- load_header header ;;
  assert (Forwardee hd =? header) ;;;
  store (header + 8) 0.

(** The heap as [Heap::Heap] leaves it: the array is zero-initialised, the
    two sentinel headers are zero, and no handle is registered. *)
Definition Heap_ctor : Heap :=
  mkHeap ∅ Space (Space + Heap_Size / 2) Space [] [] 0.

End Collector.

(** ** Handles and helpers *)

(** [AlignTo], in [std::size_t] arithmetic; the division has no value for
    a zero [alignment]. *)
Definition AlignTo (size alignment : Z) : option Z :=
  if alignment =? 0 then None
  else Some (size_t (size_t (size + alignment - 1) / alignment * alignment)).

(** [GCPtr<T>::UnscopedPin] and [GCPtr<T>::Pin] pin the object the handle at
    [this] holds and return its address, the second wrapped in a
    [PinnedGCPtr]; [GCPtr<T>::operator->] is [Pin].  [UnscopedUnpin] and the
    destructor of [PinnedGCPtr] unpin. *)
Definition GCPtr_UnscopedPin (this : Z) : M Z :=
  value <- load this ;; Pin value ;;; ret value.
Definition GCPtr_Pin (this : Z) : M Z :=
  value <- load this ;; Pin value ;;; ret value.
Definition GCPtr_arrow (this : Z) : M Z := GCPtr_Pin this.
Definition GCPtr_UnscopedUnpin (this : Z) : M unit :=
  value <- load this ;; Unpin value.
Definition PinnedGCPtr_dtor (value : Z) : M unit := Unpin value.

(** The copy constructor of [GCPtr]: the new handle at [this] takes the
    value of [other] and registers like any other. *)
Definition GCPtr_copy_ctor (Space : Z) (this info other : Z) : M unit :=
  value <- load other ;; GCPtr_ctor Space this info value.

(** ** Derived notions used by the statements *)

(** A pinned object: a header with a descriptor whose [Forwardee] is the
    header's own address. *)
Definition IsPinned (h : Heap) (obj : Z) : bool :=
  negb (Info (header_at (Mem h) obj) =? 0) && (Forwardee (header_at (Mem h) obj) =? obj).

(** The address range of [TO], as [InFrom] gives the one of [FROM]. *)
Definition InTo (h : Heap) (ptr : Z) : bool :=
  (To h <=? ptr) && (ptr <? To h + Heap_Size / 2).

(** The two semispaces are the two halves of the array at [Space]. *)
Definition spaces_ok (Space : Z) (h : Heap) : Prop :=
  (From h = Space /\ To h = Space + Heap_Size / 2) \/
  (From h = Space + Heap_Size / 2 /\ To h = Space).

(** The allocation cursor lies in [FROM], its end included. *)
Definition cursor_ok (h : Heap) : Prop :=
  From h <= AllocPtr h <= From h + Heap_Size / 2.

(** The state an outcome leaves behind, when the program goes on. *)
Definition state_of {A} (o : outcome A) : option Heap :=
  match o with
  | Ok _ h => Some h
  | Throw _ h => Some h
  | Abort _ => None
  end.

(** The state [Evacuate] leaves when it copies the object at [obj] to
    [newObj], where [AdjustAllocPtr] found the header [oldHeaderContent]. *)
Definition evacuated (info size obj newObj : Z) (oldHeaderContent : GCHeader)
    (h : Heap) : Heap :=
  let m1 := copy_words (Mem h) obj newObj (payload_offsets size) (Mem h) in
  let m2 := write_header newObj (mkHeader info 0) m1 in
  let m3 := <[obj + 8 := newObj]> m2 in
  let ap := newObj + size in
  let m4 := if size_t (ap - To h) <? size_t (Heap_Size / 2 - sizeof_GCHeader)
            then write_header ap oldHeaderContent m3 else m3 in
  set_AllocPtr ap (set_Mem m4 h).

(** The state [Allocate] leaves when it makes an object of [size] bytes at
    the cursor, with the payload [words], for the handle at [result]. *)
Definition allocated (info size : Z) (words : list Z) (result : Z) (h : Heap) : Heap :=
  let rp := AllocPtr h in
  let m1 := fold_left (fun m ow => <[rp + fst ow := snd ow]> m)
                      (combine (payload_offsets size) words) (Mem h) in
  let m2 := <[result := rp + sizeof_GCHeader]> (write_header rp (mkHeader info 0) m1) in
  let ap := rp + size in
  let m3 := if size_t (ap - From h) <? size_t (Heap_Size / 2 - sizeof_GCHeader)
            then write_header ap (header_at (Mem h) rp) m2 else m2 in
  mkHeap m3 (From h) (To h) ap (OnStackGCPtrs h ++ [mkRoot result info])
         (Finalized h) (Collections h).

(** Objects laid out back to back from [p], with the descriptors [l]: each
    starts at a multiple of 16 with a header whose [Info] is the descriptor;
    [total_size l] is the number of bytes they take. *)
Fixpoint tiled (GCInfo_Get : Z -> option GCInfo) (m : gmap Z Z) (p : Z)
    (l : list GCInfo) : Prop :=
  match l with
  | [] => True
  | gi :: rest =>
      p mod alignof_max_align_t = 0 /\ read m p <> 0 /\
      GCInfo_Get (read m p) = Some gi /\
      tiled GCInfo_Get m (p + Size gi) rest
  end.

Definition total_size (l : list GCInfo) : Z :=
  fold_right (fun gi n => Size gi + n) 0 l.

(** The addresses at which the objects of such a layout start. *)
Fixpoint tile_starts (p : Z) (l : list GCInfo) : list Z :=
  match l with
  | [] => []
  | gi :: rest => p :: tile_starts (p + Size gi) rest
  end.

(** Two states that no operation can tell apart: every word reads the
    same and the other members of [Heap] are equal. *)
Definition same_heap (h h' : Heap) : Prop :=
  (forall q, read (Mem h') q = read (Mem h) q) /\
  From h' = From h /\ To h' = To h /\ AllocPtr h' = AllocPtr h /\
  OnStackGCPtrs h' = OnStackGCPtrs h /\ Finalized h' = Finalized h /\
  Collections h' = Collections h.

(** Every registered root is a handle outside the heap array. *)
Definition roots_outside (Space : Z) (h : Heap) : Prop :=
  Forall (fun r => IsPointerInHeap Space (Ptr r) = false) (OnStackGCPtrs h).

(** The capacity of the array [Heap::OnStackGCPtrs]. *)
Definition OnStackGCPtrs_capacity : nat := 1024.

(** The state [h] with the finalizer calls [l] added to its trace. *)
Definition logged (l : list Z) (h : Heap) : Heap :=
  mkHeap (Mem h) (From h) (To h) (AllocPtr h) (OnStackGCPtrs h) (Finalized h ++ l)
         (Collections h).

(** Of the objects laid out from [p] with the descriptors [l], those whose
    type has a finalizer and whose [Forwardee] is null in [m]. *)
Fixpoint finalizable (m : gmap Z Z) (p : Z) (l : list GCInfo) : list Z :=
  match l with
  | [] => []
  | gi :: rest =>
      (if (Forwardee (header_at m p) =? 0) && HasFinalize gi then [p] else [])
      ++ finalizable m (p + Size gi) rest
  end.

(** The state while [Collect] evacuates and scans: the spaces are not yet
    exchanged and the cursor runs through [TO], its end included. *)
Definition collecting (F T : Z) (n : nat) (h : Heap) : Prop :=
  From h = F /\ To h = T /\ Collections h = n /\
  T <= AllocPtr h <= T + Heap_Size / 2.

(** A pinned object of the space at [F], in the memory [m]: an aligned
    header with a descriptor, whose [Forwardee] is its own address. *)
Definition pinned_header (F : Z) (m : gmap Z Z) (a : Z) : Prop :=
  a mod alignof_max_align_t = 0 /\
  F <= a /\ a + sizeof_GCHeader <= F + Heap_Size / 2 /\
  Info (header_at m a) <> 0 /\ Forwardee (header_at m a) = a.

(** The state while [Collect] evacuates and scans into a [TO] that
    started with the end sentinel at its base: the copies made so far,
    with the descriptors [l], fill [TO] from its base to the cursor; the
    end sentinel stands at the cursor as long as a header fits behind it;
    the headers that were pinned in [FROM] when the collection started,
    with the memory [m0], are as they were. *)
Definition scanning (GCInfo_Get : Z -> option GCInfo) (F T : Z) (n : nat)
    (m0 : gmap Z Z) (l : list GCInfo) (h : Heap) : Prop :=
  collecting F T n h /\
  tiled GCInfo_Get (Mem h) T l /\
  AllocPtr h = T + total_size l /\
  (AllocPtr h - T < Heap_Size / 2 - sizeof_GCHeader ->
   header_at (Mem h) (AllocPtr h) = mkHeader 0 0) /\
  (forall a, pinned_header F m0 a -> header_at (Mem h) a = header_at m0 a).

(** Partial correctness of a computation: from a state in [P], a normal
    return satisfies [Q] and a thrown exception leaves a state in [E]. *)
Definition triple {A} (P : Heap -> Prop) (c : M A)
    (Q : A -> Heap -> Prop) (E : Exn -> Heap -> Prop) : Prop :=
  forall h, P h ->
    match c h with
    | Ok a h' => Q a h'
    | Throw e h' => E e h'
    | Abort _ => True
    end.

(** ** A client: the program of [main] and its variations

    The array sits at address 4096.  The one managed type has the shape of
    [A] in [main]: [sizeof(GCObject<A>)] is 32, the [GCPtr<A>] member is at
    offset 16 and the destructor is not trivial; the payload word at offset
    24 holds a number that tells the objects apart.  Stack handles live at
    100000, 100008 and 100016. *)
Module Demo.

Definition Space : Z := 4096.
Definition A : Z := 1.
Definition GCInfo_Get (info : Z) : option GCInfo :=
  if info =? A then Some (mkInfo 32 [(16, A)] true) else None.

Definition fuel : nat := 64.

Definition new_A (id : Z) (handle : Z) : M Z :=
  Allocate Space GCInfo_Get fuel A (Some [0; id]) handle.
Definition throwing_A (handle : Z) : M Z :=
  Allocate Space GCInfo_Get fuel A None handle.
Definition collect : M unit := Collect Space GCInfo_Get fuel.
Definition drop (handle : Z) : M unit := GCPtr_dtor Space handle.
Definition teardown : M unit := FinalizeAll Space GCInfo_Get fuel.
Definition start : Heap := Heap_ctor Space.

(** The payload number of the object whose header is at [obj]. *)
Definition id_of (h : Heap) (obj : Z) : Z := read (Mem h) (obj + 24).

(** One object, pinned through its handle. *)
Definition one_pinned : M Z :=
  p <- new_A 7 100000 ;; Pin p ;;; ret p.

(** One object and two stack handles that hold it, then the first steps of
    [Collect]: the cursor moves to [TO], the first root is evacuated. *)
Definition two_handles : M Z :=
  a <- new_A 7 100000 ;; GCPtr_ctor Space 100008 A a ;;; ret a.
Definition first_root_done : M Z :=
  a <- two_handles ;;
  to <- gets To ;;
  modify (set_AllocPtr to) ;;;
  Info_Evacuate GCInfo_Get fuel A 100000 ;;;
  ret a.

(** A null handle on the stack. *)
Definition null_handle : M unit := GCPtr_ctor Space 100000 A 0.

(** Three objects, the last two pinned and adjacent, and one collection. *)
Definition adjacent_pins : M (Z * Z) :=
  q <- new_A 7 100000 ;;
  p1 <- new_A 8 100008 ;;
  p2 <- new_A 9 100016 ;;
  Pin p1 ;;; Pin p2 ;;; collect ;;; ret (p1, p2).

(** The same client goes on: two more collections, the handles die, the
    heap is destroyed. *)
Definition adjacent_pins_to_the_end : M unit :=
  adjacent_pins ;;; collect ;;; collect ;;;
  drop 100016 ;;; drop 100008 ;;; drop 100000 ;;; teardown.

(** An object pinned and never unpinned, its handle dead, at teardown. *)
Definition pinned_at_teardown : M unit :=
  one_pinned ;;; drop 100000 ;;; teardown.

(** A live object, a dead one and a pinned one; two collections leave the
    cursor on the skip record in front of the pinned object. *)
Definition cursor_at_skip_record : M Z :=
  o <- new_A 7 100000 ;;
  new_A 8 100008 ;;; drop 100008 ;;;
  p <- new_A 9 100008 ;;
  Pin p ;;; collect ;;; collect ;;; ret p.

(** A live object and a pinned one. *)
Definition live_and_pinned : M Z :=
  new_A 7 100000 ;;; p <- new_A 9 100008 ;; Pin p ;;; ret p.

(** [n] objects allocated as temporaries. *)
Fixpoint temporaries (n : nat) : M unit :=
  match n with
  | O => ret tt
  | S n' => new_A 1 100000 ;;; drop 100000 ;;; temporaries n'
  end.

(** A live object, two dead ones and a pinned one; two collections leave
    the cursor on a skip record with room for an object in front of the
    pinned object. *)
Definition cursor_far_from_pinned : M Z :=
  new_A 7 100000 ;;;
  new_A 8 100008 ;;; drop 100008 ;;;
  new_A 8 100008 ;;; drop 100008 ;;;
  p <- new_A 9 100008 ;;
  Pin p ;;; collect ;;; collect ;;; ret p.

(** A pinned object between two others, all handles dead. *)
Definition pinned_between_dead : M Z :=
  new_A 7 100000 ;;;
  p <- new_A 8 100008 ;;
  Pin p ;;;
  new_A 9 100016 ;;;
  drop 100016 ;;; drop 100008 ;;; drop 100000 ;;; ret p.

(** The program of [main].  Its locals [ptr], [cycle] (then [pin]) and
    [foo] stand at 100000, 100008 and 100016; a temporary handle takes the
    next free slot.  [A()] leaves the member [ptr] null; the member is the
    first word of the payload.  In [x->ptr = e] the right operand is
    evaluated first, then [operator->] pins [x] for the time of the
    assignment; the temporaries die in reverse order.  The run returns
    the two values of [Used()] that [main] prints. *)
Definition main_A (handle : Z) : M Z :=
  Allocate Space GCInfo_Get fuel A (Some [0]) handle.

Definition assign_member (object value_of : Z) : M unit :=
  v <- load value_of ;; store object v.

Definition main : M (Z * Z) :=
  main_A 100000 ;;;
  (main_A 100008 ;;;
   p <- GCPtr_arrow 100000 ;;
   assign_member p 100008 ;;;
   PinnedGCPtr_dtor p ;;; drop 100008) ;;;
  (main_A 100008 ;;; drop 100008) ;;;
  (main_A 100008 ;;;
   (main_A 100016 ;;;
    c <- GCPtr_arrow 100008 ;;
    assign_member c 100016 ;;;
    PinnedGCPtr_dtor c ;;; drop 100016) ;;;
   (c <- GCPtr_arrow 100008 ;;
    m <- GCPtr_arrow c ;;
    assign_member m 100008 ;;;
    PinnedGCPtr_dtor m ;;; PinnedGCPtr_dtor c) ;;;
   drop 100008) ;;;
  used_before <- gets Used ;;
  collect ;;;
  used_after <- gets Used ;;
  main_A 100008 ;;;
  pinnedRawPtr <- GCPtr_UnscopedPin 100008 ;;
  collect ;;;
  value <- load 100008 ;;
  assert (pinnedRawPtr =? value) ;;;
  inFrom <- gets (fun h => InFrom h pinnedRawPtr) ;;
  assert (negb inFrom) ;;;
  header <- load_header (to_object pinnedRawPtr) ;;
  assert (Forwardee header =? to_object pinnedRawPtr) ;;;
  main_A 100016 ;;;
  collect ;;;
  GCPtr_UnscopedUnpin 100008 ;;;
  collect ;;;
  value' <- load 100008 ;;
  assert (negb (pinnedRawPtr =? value')) ;;;
  drop 100016 ;;; drop 100008 ;;; drop 100000 ;;;
  teardown ;;;
  ret (used_before, used_after).

End Demo.

(** * Reasoning rules *)

Section Rules.

Context {A B : Type}.

Lemma triple_ret (P : Heap -> Prop) (a : A) (Q : A -> Heap -> Prop) E :
  (forall h, P h -> Q a h) -> triple P (ret a) Q E.
Proof. intros H h Hh. cbn. auto. Qed.

Lemma triple_bind (P : Heap -> Prop) (c : M A) (k : A -> M B)
    (Q : A -> Heap -> Prop) (R : B -> Heap -> Prop) E :
  triple P c Q E -> (forall a, triple (Q a) (k a) R E) -> triple P (bind c k) R E.
Proof.
  intros Hc Hk h Hh. unfold bind. specialize (Hc h Hh).
  destruct (c h) as [a h'|e h'|f]; auto. apply (Hk a h' Hc).
Qed.

Lemma triple_weaken (P P' : Heap -> Prop) (c : M A) (Q Q' : A -> Heap -> Prop)
    (E E' : Exn -> Heap -> Prop) :
  triple P' c Q' E' ->
  (forall h, P h -> P' h) -> (forall a h, Q' a h -> Q a h) ->
  (forall e h, E' e h -> E e h) -> triple P c Q E.
Proof.
  intros Hc HP HQ HE h Hh. specialize (Hc h (HP h Hh)).
  destruct (c h); auto.
Qed.

Lemma triple_gets (P : Heap -> Prop) (f : Heap -> A) (Q : A -> Heap -> Prop) E :
  (forall h, P h -> Q (f h) h) -> triple P (gets f) Q E.
Proof. intros H h Hh. cbn. auto. Qed.

Lemma triple_throw (P : Heap -> Prop) (e : Exn) (Q : A -> Heap -> Prop)
    (E : Exn -> Heap -> Prop) :
  (forall h, P h -> E e h) -> triple P (throw e) Q E.
Proof. intros H h Hh. cbn. auto. Qed.

Lemma triple_abort (P : Heap -> Prop) (f : Fault) (Q : A -> Heap -> Prop) E :
  triple P (abort f) Q E.
Proof. intros h Hh. exact I. Qed.

Lemma triple_pure (P : Heap -> Prop) (X : Prop) (c : M A) Q E :
  (X -> triple P c Q E) -> triple (fun h => X /\ P h) c Q E.
Proof. intros H h [Hx Hh]. apply (H Hx h Hh). Qed.

End Rules.

Lemma triple_modify (P : Heap -> Prop) (f : Heap -> Heap) (Q : unit -> Heap -> Prop) E :
  (forall h, P h -> Q tt (f h)) -> triple P (modify f) Q E.
Proof. intros H h Hh. cbn. auto. Qed.

Lemma triple_assert (P : Heap -> Prop) (b : bool) (Q : unit -> Heap -> Prop) E :
  (b = true -> forall h, P h -> Q tt h) -> triple P (assert b) Q E.
Proof. intros H h Hh. destruct b; cbn; auto. Qed.

Lemma triple_when (P : Heap -> Prop) (b : bool) (c : M unit) (Q : unit -> Heap -> Prop) E :
  (b = true -> triple P c Q E) -> (b = false -> forall h, P h -> Q tt h) ->
  triple P (when b c) Q E.
Proof.
  intros Hc Hn. destruct b; cbn.
  - auto.
  - intros h Hh. cbn. auto.
Qed.

Lemma triple_load (P : Heap -> Prop) (p : Z) (Q : Z -> Heap -> Prop) E :
  (p <> 0 -> forall h, P h -> Q (read (Mem h) p) h) -> triple P (load p) Q E.
Proof.
  intros H h Hh. unfold load. destruct (Z.eqb_spec p 0); cbn; auto.
Qed.

Lemma triple_store (P : Heap -> Prop) (p v : Z) (Q : unit -> Heap -> Prop) E :
  (p <> 0 -> forall h, P h -> Q tt (set_Mem (<[p := v]> (Mem h)) h)) ->
  triple P (store p v) Q E.
Proof.
  intros H h Hh. unfold store. destruct (Z.eqb_spec p 0); cbn; auto.
Qed.

Lemma triple_load_header (P : Heap -> Prop) (p : Z) (Q : GCHeader -> Heap -> Prop) E :
  (p <> 0 -> p mod alignof_max_align_t = 0 ->
   forall h, P h -> Q (header_at (Mem h) p) h) ->
  triple P (load_header p) Q E.
Proof.
  intros H h Hh. unfold load_header, header_ptr, bind.
  destruct (Z.eqb_spec p 0); cbn; auto.
  destruct (Z.eqb_spec (p mod alignof_max_align_t) 0); cbn; auto.
Qed.

Lemma triple_store_header (P : Heap -> Prop) (p : Z) (hd : GCHeader)
    (Q : unit -> Heap -> Prop) E :
  (p <> 0 -> p mod alignof_max_align_t = 0 ->
   forall h, P h -> Q tt (set_Mem (write_header p hd (Mem h)) h)) ->
  triple P (store_header p hd) Q E.
Proof.
  intros H h Hh. unfold store_header, header_ptr, bind.
  destruct (Z.eqb_spec p 0); cbn; auto.
  destruct (Z.eqb_spec (p mod alignof_max_align_t) 0); cbn; auto.
Qed.

Lemma triple_descriptor (GCInfo_Get : Z -> option GCInfo) (P : Heap -> Prop) (info : Z)
    (Q : GCInfo -> Heap -> Prop) E :
  (forall gi, info <> 0 -> GCInfo_Get info = Some gi -> forall h, P h -> Q gi h) ->
  triple P (descriptor GCInfo_Get info) Q E.
Proof.
  intros H h Hh. unfold descriptor. destruct (Z.eqb_spec info 0); cbn; auto.
  destruct (GCInfo_Get info) eqn:Hg; cbn; eauto.
Qed.

Lemma triple_noexcept {A} (P : Heap -> Prop) (c : M A) (Q : A -> Heap -> Prop) E :
  triple P c Q (fun _ _ => True) -> triple P (noexcept c) Q E.
Proof.
  intros Hc h Hh. unfold noexcept. specialize (Hc h Hh). destruct (c h); auto.
Qed.

(** * Machine arithmetic *)

Local Ltac norm :=
  change (Heap_Size / 2) with 512 in *;
  change sizeof_GCHeader with 16 in *;
  change Heap_Size with 1024 in *.

Lemma size_t_small (z : Z) : 0 <= z < 18446744073709551616 -> size_t z = z.
Proof. intros H. unfold size_t. apply Z.mod_small. exact H. Qed.

Lemma size_t_negative (z : Z) :
  - 18446744073709551616 <= z < 0 -> size_t z = z + 18446744073709551616.
Proof.
  intros H. unfold size_t.
  symmetry. apply (Z.mod_unique z _ (-1)); lia.
Qed.

Lemma size_t_range (z : Z) : 0 <= size_t z < 18446744073709551616.
Proof. unfold size_t. apply Z.mod_pos_bound. lia. Qed.

Lemma read_range (m : gmap Z Z) (p : Z) : 0 <= read m p < 18446744073709551616.
Proof. apply size_t_range. Qed.

(** The room test of [AdjustAllocPtr] and [Evacuate], when it passes:
    the cursor is inside the space and the object fits. *)
Lemma room_test_passed (ap base size : Z) :
  Heap_Size <= base -> base + Heap_Size / 2 <= 18446744073709551616 ->
  0 <= ap < 18446744073709551616 + Heap_Size / 2 ->
  0 < size <= Heap_Size / 2 ->
  (size_t (ap - base) >? size_t (Heap_Size / 2 - size)) = false ->
  base <= ap /\ ap + size <= base + Heap_Size / 2.
Proof.
  norm. intros Hb1 Hb2 Hap Hsz Ht.
  rewrite (size_t_small (512 - size)) in Ht by lia.
  destruct (Z_lt_le_dec (ap - base) 0) as [Hneg|Hpos].
  - rewrite size_t_negative in Ht by lia. lia.
  - rewrite size_t_small in Ht by lia. lia.
Qed.

(** The same test, when it fails although the cursor is inside the
    space: the object does not fit. *)
Lemma room_test_failed (ap base size : Z) :
  base <= ap <= base + Heap_Size / 2 -> 0 < size <= Heap_Size / 2 ->
  (size_t (ap - base) >? size_t (Heap_Size / 2 - size)) = true ->
  base + Heap_Size / 2 < ap + size.
Proof.
  norm. intros Hap Hsz Ht.
  rewrite !size_t_small in Ht by lia. lia.
Qed.

(** The distance test in front of a skip record, when it passes: the
    pinned object lies at or behind the cursor. *)
Lemma gap_test_passed (np ap size : Z) :
  0 <= np < 18446744073709551616 -> 0 <= ap <= 18446744073709551616 - Heap_Size ->
  0 < size <= Heap_Size / 2 ->
  (size_t (np - ap) <? size_t (size + sizeof_GCHeader)) = true ->
  ap <= np < ap + size + sizeof_GCHeader.
Proof.
  norm. intros Hnp Hap Hsz Ht.
  rewrite (size_t_small (size + 16)) in Ht by lia.
  destruct (Z_lt_le_dec (np - ap) 0) as [Hneg|Hpos].
  - rewrite size_t_negative in Ht by lia. lia.
  - rewrite size_t_small in Ht by lia. lia.
Qed.

(** * The cursor and the two spaces *)

Local Ltac prims :=
  unfold Relocate, restore_preamble, Info_Finalize, space_base, noexcept in *;
  unfold assert, when in *;
  unfold load_header, store_header, load, store, descriptor in *;
  unfold header_ptr in *.

Local Ltac mcbv := cbv beta iota zeta delta [bind ret gets modify throw abort].

(* [run]: symbolic execution up to the next call.
   [call L]: the computation at the head is a call whose triple is [L]. *)
Local Ltac call L :=
  match goal with
  | |- context [match ?x with Ok _ _ => _ | Throw _ _ => _ | Abort _ => _ end] =>
      lazymatch x with
      | ?c ?h =>
          let H := fresh "Hcall" in
          pose proof (L h) as H;
          cbv beta iota zeta delta [bind ret gets modify throw abort] in H;
          lazymatch type of H with
          | _ -> match ?y with Ok _ _ => _ | Throw _ _ => _ | Abort _ => _ end =>
              change y with x in H
          end;
          destruct x as [? ?|? ?|?]; [ | try exact I | try exact I ]
      end
  end.

Local Ltac run :=
  repeat first
    [ exact I
    | progress mcbv
    | match goal with
      | |- context [if ?b then _ else _] => destruct b eqn:?
      | |- context [match ?o with Some _ => _ | None => _ end] =>
          destruct o eqn:?
      end ].

(* [keep]: the state predicate survives an update of other members. *)
Local Ltac keep := unfold collecting in *; cbn; intuition (auto; try lia).

Section Cursor.
Variable Space : Z.
Variable GCInfo_Get : Z -> option GCInfo.
Hypothesis Size_bounds : forall info gi,
  GCInfo_Get info = Some gi -> sizeof_GCHeader <= Size gi <= Heap_Size / 2.

Section During.
Variables (F T : Z) (n : nat).
Hypothesis T_lo : Heap_Size <= T.
Hypothesis T_hi : T + Heap_Size / 2 <= 18446744073709551616.

Lemma AdjustAllocPtr_To_spec (fuel : nat) (size : Z) :
  0 < size <= Heap_Size / 2 ->
  triple (fun h => From h = F /\ To h = T /\ Collections h = n /\
                   0 <= AllocPtr h < 18446744073709551616 + Heap_Size / 2)
         (AdjustAllocPtr GCInfo_Get fuel SpaceTo NeverCollect (ret tt) size)
         (fun _ h => From h = F /\ To h = T /\ Collections h = n /\
                     T <= AllocPtr h /\ AllocPtr h + size <= T + Heap_Size / 2)
         (fun _ _ => True).
Proof.
  intros Hsz. induction fuel as [|fuel IH]; intros h (HF & HT & Hn & Hap).
  - exact I.
  - cbn [AdjustAllocPtr]. prims. mcbv.
    destruct (size_t (AllocPtr h - To h) >? _) eqn:Hroom; [exact I|].
    rewrite HT in Hroom. apply room_test_passed in Hroom; [|lia..].
    run; try (repeat split; auto; lia).
    apply IH. cbn. pose proof (Size_bounds _ _ Heqo) as Hb.
    pose proof (read_range (Mem h) (AllocPtr h + 8)) as Hr.
    cbn [Forwardee header_at]. norm. lia.
Qed.

Lemma Evacuate_collecting (fuel : nat) (info obj : Z) :
  triple (collecting F T n) (Evacuate GCInfo_Get fuel info obj)
         (fun _ => collecting F T n) (fun _ _ => True).
Proof.
  intros h (HF & HT & Hn & Hap). unfold Evacuate. prims. run.
  1: repeat split; auto; lia.
  all: pose proof (Size_bounds _ _ Heqo) as Hb; norm.
  all: call (AdjustAllocPtr_To_spec fuel (Size g) ltac:(norm; lia)).
  all: destruct Hcall as (HF1 & HT1 & Hn1 & Hap1); [repeat split; auto; norm; lia|].
  all: run.
  all: unfold collecting; cbn; repeat split; auto; norm; lia.
Qed.


Lemma Info_Evacuate_collecting (fuel : nat) (info ptr : Z) :
  triple (collecting F T n) (Info_Evacuate GCInfo_Get fuel info ptr)
         (fun _ => collecting F T n) (fun _ _ => True).
Proof.
  intros h Hh. unfold Info_Evacuate. prims. run.
  call (Evacuate_collecting fuel info (to_object (read (Mem h) ptr))).
  specialize (Hcall Hh). run. keep.
Qed.

Lemma ProcessReference_collecting (fuel : nat) (info ptr : Z) :
  triple (collecting F T n) (ProcessReference GCInfo_Get fuel info ptr)
         (fun _ => collecting F T n) (fun _ _ => True).
Proof.
  intros h Hh. unfold ProcessReference. prims. run; try solve [keep].
  call (Evacuate_collecting fuel info (to_object (read (Mem h) ptr))).
  specialize (Hcall Hh). run. keep.
Qed.

Lemma visit_fields_collecting (fuel : nat) (obj : Z) (fields : list (Z * Z)) :
  triple (collecting F T n) (visit_fields GCInfo_Get fuel obj fields)
         (fun _ => collecting F T n) (fun _ _ => True).
Proof.
  induction fields as [|[off info] rest IH]; intros h Hh; cbn [visit_fields].
  - exact Hh.
  - mcbv. call (ProcessReference_collecting fuel info (obj + off)).
    apply IH. auto.
Qed.

Lemma evacuate_roots_collecting (fuel : nat) (roots : list GCPtrInfo) :
  triple (collecting F T n) (evacuate_roots Space GCInfo_Get fuel roots)
         (fun _ => collecting F T n) (fun _ _ => True).
Proof.
  induction roots as [|r rest IH]; intros h Hh; cbn [evacuate_roots].
  - exact Hh.
  - prims. run.
    call (Info_Evacuate_collecting fuel (RootInfo r) (Ptr r)).
    apply IH. auto.
Qed.

Lemma scan_loop_collecting (fuel : nat) (scanPtr : Z) :
  triple (collecting F T n) (scan_loop GCInfo_Get fuel scanPtr)
         (fun _ => collecting F T n) (fun _ _ => True).
Proof.
  revert scanPtr. induction fuel as [|fuel IH]; intros scanPtr h Hh; cbn [scan_loop].
  - exact I.
  - unfold Info_VisitPointer. prims. run; try solve [keep].
    + apply IH. auto.
    + call (visit_fields_collecting (S fuel) scanPtr (PtrFields g)).
      specialize (Hcall Hh). run. apply IH. auto.
Qed.

Lemma finalize_loop_collecting (fuel : nat) (scanPtr prh : Z) :
  triple (collecting F T n) (finalize_loop GCInfo_Get fuel scanPtr prh)
         (fun _ => collecting F T n) (fun _ _ => True).
Proof.
  revert scanPtr prh. induction fuel as [|fuel IH]; intros scanPtr prh h Hh;
    cbn [finalize_loop].
  - exact I.
  - prims. run; try solve [keep]; apply IH; keep.
Qed.


Lemma Collect_exchanges (fuel : nat) :
  triple (fun h => From h = F /\ To h = T /\ Collections h = n)
         (Collect Space GCInfo_Get fuel)
         (fun _ h => From h = T /\ To h = F /\ Collections h = S n /\
                     T <= AllocPtr h <= T + Heap_Size / 2)
         (fun _ _ => False).
Proof.
  intros h (HF & HT & Hn). unfold Collect.
  assert (Hc : collecting F T n (set_AllocPtr (To h) h)) by (keep; norm; lia).
  prims. mcbv.
  call (evacuate_roots_collecting fuel (OnStackGCPtrs h)). specialize (Hcall Hc).
  call (scan_loop_collecting fuel (To h)). specialize (Hcall0 Hcall).
  call (finalize_loop_collecting fuel (From h1) (From h1)). specialize (Hcall1 Hcall0).
  run; keep.
Qed.

End During.

Hypothesis Space_lo : Heap_Size <= Space.
Hypothesis Space_hi : Space + 2 * Heap_Size <= 18446744073709551616.

Lemma Collect_cursor (fuel : nat) (m : nat) :
  triple (fun h => spaces_ok Space h /\ Collections h = m)
         (Collect Space GCInfo_Get fuel)
         (fun _ h => spaces_ok Space h /\ cursor_ok h /\ Collections h = S m)
         (fun _ _ => False).
Proof.
  intros h (Hs & Hm).
  assert (HT : Heap_Size <= To h /\ To h + Heap_Size / 2 <= 18446744073709551616)
    by (destruct Hs as [[? ?]|[? ?]]; norm; lia).
  pose proof (Collect_exchanges (From h) (To h) m (proj1 HT) (proj2 HT) fuel h
                (conj eq_refl (conj eq_refl Hm))) as H.
  destruct (Collect _ _ _ h) as [a h'| |]; auto.
  destruct H as (H1 & H2 & H3 & H4). unfold spaces_ok, cursor_ok in *.
  rewrite H1, H2. intuition lia.
Qed.

Lemma AdjustAllocPtr_From_spec (fuel0 fuel : nat) (size F0 : Z) (n0 : nat) :
  0 < size <= Heap_Size / 2 ->
  triple (fun h => spaces_ok Space h /\ (n0 <= Collections h)%nat /\
                   (Collections h = n0 ->
                    From h = F0 /\ 0 <= AllocPtr h < 18446744073709551616 + Heap_Size / 2))
         (AdjustAllocPtr GCInfo_Get fuel SpaceFrom CollectIfNeeded
                         (Collect Space GCInfo_Get fuel0) size)
         (fun _ h => spaces_ok Space h /\ (n0 <= Collections h)%nat /\
                     (Collections h = n0 ->
                      From h = F0 /\ F0 <= AllocPtr h /\
                      AllocPtr h + size <= F0 + Heap_Size / 2))
         (fun _ h => spaces_ok Space h /\ cursor_ok h).
Proof.
  intros Hsz. induction fuel as [|fuel IH]; intros h (Hs & Hn & Hh).
  - exact I.
  - cbn [AdjustAllocPtr]. prims. mcbv.
    destruct (size_t (AllocPtr h - From h) >? _) eqn:Hroom.
    + call (Collect_cursor fuel0 (Collections h)).
      2: { exfalso. apply Hcall. auto. }
      destruct (Hcall (conj Hs eq_refl)) as (Hs1 & Hc1 & Hn1).
      assert (Hgt : Collections h0 <> n0) by lia.
      run; try solve [intuition lia].
      apply IH. unfold spaces_ok in *. cbn. intuition lia.
    + assert (Hfrom : Collections h = n0 ->
                From h <= AllocPtr h /\ AllocPtr h + size <= From h + Heap_Size / 2).
      { intros E. destruct (Hh E) as [E1 E2].
        apply room_test_passed in Hroom; auto;
          destruct Hs as [[? ?]|[? ?]]; norm; lia. }
      run; try solve [intuition lia].
      apply IH. cbn. split; [exact Hs|]. split; [exact Hn|]. intros E.
      destruct (Hh E) as [E1 E2]. split; [exact E1|].
      pose proof (Size_bounds _ _ Heqo) as Hb.
      pose proof (read_range (Mem h) (AllocPtr h + 8)) as Hr.
      cbn [Forwardee header_at]. norm. lia.
Qed.


Lemma Allocate_cursor (fuel : nat) (info : Z) (ctor : option (list Z)) (result : Z)
    (F0 : Z) (n0 : nat) :
  triple (fun h => spaces_ok Space h /\ cursor_ok h /\ From h = F0 /\ Collections h = n0)
         (Allocate Space GCInfo_Get fuel info ctor result)
         (fun _ h => spaces_ok Space h /\ (Collections h = n0 -> cursor_ok h))
         (fun e h => spaces_ok Space h /\
                     (e = BadAlloc \/ Collections h = n0 -> cursor_ok h)).
Proof.
  intros h (Hs & Hc & HF & Hn). unfold Allocate, GCPtr_ctor. prims. run.
  all: pose proof (Size_bounds _ _ Heqo) as Hb.
  all: assert (Hsz : 0 < Size g <= Heap_Size / 2) by (norm; lia).
  all: call (AdjustAllocPtr_From_spec fuel fuel (Size g) F0 n0 Hsz).
  all: unfold cursor_ok, spaces_ok in *.
  all: destruct Hcall as (Hs1 & Hn1 & Hq); [norm; intuition lia|..].
  all: try solve [split; [exact Hs1|tauto]].
  all: run; cbn; (split; [exact Hs1|]);
    intros E; try (destruct E as [E|E]; [discriminate E|]);
    destruct (Hq E) as (E1 & E2 & E3); norm; lia.
Qed.

Lemma Pin_frame (ptr : Z) (h h' : Heap) :
  Pin ptr h = Ok tt h' ->
  From h' = From h /\ To h' = To h /\ AllocPtr h' = AllocPtr h.
Proof.
  unfold Pin. prims. mcbv.
  repeat match goal with
         | |- context [if ?b then _ else _] => destruct b
         end; intros H; inversion H; subst; cbn; auto.
Qed.

Lemma Unpin_frame (ptr : Z) (h h' : Heap) :
  Unpin ptr h = Ok tt h' ->
  From h' = From h /\ To h' = To h /\ AllocPtr h' = AllocPtr h.
Proof.
  unfold Unpin. prims. mcbv.
  repeat match goal with
         | |- context [if ?b then _ else _] => destruct b
         end; intros H; inversion H; subst; cbn; auto.
Qed.



(** [Collect] exchanges the two spaces: what it leaves designated [FROM]
    is the former [TO], with the cursor in it; every address of the former
    [FROM] is outside the new [FROM] and inside the new [TO]. *)
Lemma Collect_spaces (fuel : nat) (h h' : Heap) :
  spaces_ok Space h ->
  Collect Space GCInfo_Get fuel h = Ok tt h' ->
  From h' = To h /\ To h' = From h /\
  To h <= AllocPtr h' <= To h + Heap_Size / 2 /\
  forall o, InFrom h o = true -> InFrom h' o = false /\ InTo h' o = true.
Proof.
  intros Hs HC.
  assert (HT : Heap_Size <= To h /\ To h + Heap_Size / 2 <= 18446744073709551616)
    by (destruct Hs as [[? ?]|[? ?]]; norm; lia).
  pose proof (Collect_exchanges (From h) (To h) (Collections h)
                (proj1 HT) (proj2 HT) fuel h (conj eq_refl (conj eq_refl eq_refl))) as H.
  rewrite HC in H. destruct H as (H1 & H2 & H3 & H4).
  split; [exact H1|]. split; [exact H2|]. split; [exact H4|].
  intros o Ho. split.
  - unfold InFrom in *. rewrite H1. destruct Hs as [[? ?]|[? ?]]; norm; lia.
  - unfold InFrom, InTo in *. rewrite H2. exact Ho.
Qed.

End Cursor.

(** * Memory *)

Lemma size_t_idem (z : Z) : size_t (size_t z) = size_t z.
Proof. apply size_t_small, size_t_range. Qed.

Lemma read_insert_eq (m : gmap Z Z) (p v : Z) : read (<[p := v]> m) p = size_t v.
Proof. unfold read. rewrite lookup_insert_eq. reflexivity. Qed.

Lemma read_insert_ne (m : gmap Z Z) (p q v : Z) :
  p <> q -> read (<[p := v]> m) q = read m q.
Proof. intros H. unfold read. rewrite lookup_insert_ne by exact H. reflexivity. Qed.

Lemma read_insert_read (m m0 : gmap Z Z) (p q : Z) :
  read (<[p := read m0 q]> m) p = read m0 q.
Proof. rewrite read_insert_eq. apply size_t_idem. Qed.

Lemma read_write_header_ne (m : gmap Z Z) (p q : Z) (hd : GCHeader) :
  q <> p -> q <> p + 8 -> read (write_header p hd m) q = read m q.
Proof.
  intros H1 H2. unfold write_header.
  rewrite !read_insert_ne by congruence. reflexivity.
Qed.

Lemma header_at_write_header (m : gmap Z Z) (p : Z) (hd : GCHeader) :
  header_at (write_header p hd m) p = mkHeader (size_t (Info hd)) (size_t (Forwardee hd)).
Proof.
  unfold header_at, write_header.
  rewrite read_insert_ne by lia. rewrite !read_insert_eq. reflexivity.
Qed.

Lemma copy_words_other (m0 : gmap Z Z) (from to : Z) (offs : list Z) (m : gmap Z Z) (q : Z) :
  (forall off, In off offs -> q <> to + off) ->
  read (copy_words m0 from to offs m) q = read m q.
Proof.
  revert m. induction offs as [|o offs IH]; intros m H; cbn.
  - reflexivity.
  - unfold copy_words in IH. rewrite IH.
    + apply read_insert_ne. intros E. apply (H o); [left; reflexivity|]. lia.
    + intros off Hin. apply H. right. exact Hin.
Qed.

Lemma copy_words_copied (m0 : gmap Z Z) (from to : Z) (offs : list Z) (m : gmap Z Z) (off : Z) :
  In off offs ->
  read (copy_words m0 from to offs m) (to + off) = read m0 (from + off).
Proof.
  revert m. induction offs as [|o offs IH]; intros m H; cbn.
  - destruct H.
  - destruct (in_dec Z.eq_dec off offs) as [Hin|Hout].
    + apply IH. exact Hin.
    + destruct H as [->|H]; [|contradiction].
      fold (copy_words m0 from to offs (<[to + off := read m0 (from + off)]> m)).
      rewrite copy_words_other.
      * apply read_insert_read.
      * intros off' Hin E. apply Hout. replace off with off' by lia. exact Hin.
Qed.

Lemma payload_offsets_range (size off : Z) :
  In off (payload_offsets size) -> sizeof_GCHeader <= off /\ off + 8 <= size.
Proof.
  unfold payload_offsets. rewrite in_map_iff. intros (i & Hi & Hin).
  apply in_seq in Hin. norm. subst off.
  assert (Z.of_nat i < (size - 16) / 8) by lia.
  assert (8 * ((size - 16) / 8) <= size - 16)
    by (apply Z.mul_div_le; lia).
  lia.
Qed.

Lemma gap_test_behind (np ap size : Z) :
  0 <= np < 18446744073709551616 -> 0 <= ap ->
  ap + size + sizeof_GCHeader <= 18446744073709551616 ->
  0 < size <= Heap_Size / 2 ->
  (size_t (np - ap) <? size_t (size + sizeof_GCHeader)) = true ->
  ap <= np < ap + size + sizeof_GCHeader.
Proof.
  norm. intros Hnp Hap Hhi Hsz Ht.
  rewrite (size_t_small (size + 16)) in Ht by lia.
  destruct (Z_lt_le_dec (np - ap) 0) as [Hneg|Hpos].
  - rewrite size_t_negative in Ht by lia. lia.
  - rewrite size_t_small in Ht by lia. lia.
Qed.

(* [rd]: a read through a stack of writes. *)
Local Ltac rd := repeat first [ rewrite read_insert_eq | rewrite read_insert_ne by lia ].

Local Ltac stepif H := rewrite H; cbn [negb]; cbv beta iota.

(* [tests]: case analysis on every test of the goal; the branches that
   do not return are dropped.  [bools]: tests as propositions. *)
Local Ltac tests :=
  repeat (match goal with
          | |- context [if ?b then _ else _] => destruct b eqn:?
          | |- context [match ?o with Some _ => _ | None => _ end] =>
              destruct o eqn:?
          end; try discriminate).
Local Ltac bools :=
  repeat match goal with
         | H : (_ =? _) = true |- _ => apply Z.eqb_eq in H
         | H : (_ =? _) = false |- _ => apply Z.eqb_neq in H
         | H : (_ && _) = true |- _ => apply andb_true_iff in H; destruct H
         | H : negb _ = true |- _ => apply negb_true_iff in H
         | H : negb _ = false |- _ => apply negb_false_iff in H
         end.
Local Ltac spaces := unfold spaces_ok in *; norm.

Lemma header_ptr_ok (p : Z) (h : Heap) :
  p <> 0 -> p mod alignof_max_align_t = 0 -> header_ptr p h = Ok tt h.
Proof.
  intros H0 Ha. unfold header_ptr. apply Z.eqb_neq in H0. apply Z.eqb_eq in Ha.
  rewrite H0, Ha. reflexivity.
Qed.

(** ** Memory after an evacuation *)

Section Evacuated.
Variables (info size obj newObj : Z) (hc : GCHeader) (h : Heap).
Hypothesis size_lo : sizeof_GCHeader <= size.

Lemma evacuated_members :
  From (evacuated info size obj newObj hc h) = From h /\
  To (evacuated info size obj newObj hc h) = To h /\
  AllocPtr (evacuated info size obj newObj hc h) = newObj + size /\
  OnStackGCPtrs (evacuated info size obj newObj hc h) = OnStackGCPtrs h /\
  Finalized (evacuated info size obj newObj hc h) = Finalized h /\
  Collections (evacuated info size obj newObj hc h) = Collections h.
Proof. unfold evacuated. cbv zeta. cbn. repeat split; reflexivity. Qed.

Lemma evacuated_elsewhere (q : Z) :
  q <> obj + 8 ->
  q < newObj \/
  newObj + size <= q /\
  ((size_t (newObj + size - To h) <? size_t (Heap_Size / 2 - sizeof_GCHeader)) = true ->
   newObj + size + sizeof_GCHeader <= q) ->
  read (Mem (evacuated info size obj newObj hc h)) q = read (Mem h) q.
Proof.
  intros Hq Hout. norm. unfold evacuated. cbv zeta. cbn [Mem set_Mem set_AllocPtr].
  assert (Hc : read (copy_words (Mem h) obj newObj (payload_offsets size) (Mem h)) q
               = read (Mem h) q).
  { apply copy_words_other. intros off Hin.
    apply payload_offsets_range in Hin. norm. lia. }
  destruct (size_t _ <? _); unfold write_header; rd; try exact Hc.
  all: destruct Hout as [?|[? Hg]]; try specialize (Hg eq_refl); lia.
Qed.

Lemma evacuated_info :
  obj + 8 <> newObj ->
  read (Mem (evacuated info size obj newObj hc h)) newObj = size_t info.
Proof.
  intros Hq. norm. unfold evacuated. cbv zeta. cbn [Mem set_Mem set_AllocPtr].
  destruct (size_t _ <? _); unfold write_header; cbn [Info Forwardee]; rd;
    reflexivity.
Qed.

Lemma evacuated_forwardee :
  obj <> newObj ->
  ((size_t (newObj + size - To h) <? size_t (Heap_Size / 2 - sizeof_GCHeader)) = true ->
   obj <> newObj + size /\ obj + 8 <> newObj + size) ->
  read (Mem (evacuated info size obj newObj hc h)) (obj + 8) = size_t newObj /\
  read (Mem (evacuated info size obj newObj hc h)) (newObj + 8) = 0.
Proof.
  intros H1 H2. norm. unfold evacuated. cbv zeta. cbn [Mem set_Mem set_AllocPtr].
  destruct (size_t _ <? _); [destruct (H2 eq_refl)|]; unfold write_header;
    cbn [Info Forwardee]; rd; split; reflexivity.
Qed.

Lemma evacuated_payload (off : Z) :
  In off (payload_offsets size) -> obj + 8 <> newObj + off ->
  read (Mem (evacuated info size obj newObj hc h)) (newObj + off)
  = read (Mem h) (obj + off).
Proof.
  intros Hin Hq. pose proof (payload_offsets_range _ _ Hin) as Ho. norm.
  unfold evacuated. cbv zeta. cbn [Mem set_Mem set_AllocPtr].
  destruct (size_t _ <? _); unfold write_header; rd;
    apply copy_words_copied; exact Hin.
Qed.

Lemma evacuated_preamble :
  (size_t (newObj + size - To h) <? size_t (Heap_Size / 2 - sizeof_GCHeader)) = true ->
  header_at (Mem (evacuated info size obj newObj hc h)) (newObj + size)
  = mkHeader (size_t (Info hc)) (size_t (Forwardee hc)).
Proof.
  intros Hg. unfold evacuated. cbv zeta. cbn [Mem set_Mem set_AllocPtr].
  rewrite Hg. apply header_at_write_header.
Qed.

End Evacuated.

Section Evacuation.
Variable Space : Z.
Variable GCInfo_Get : Z -> option GCInfo.
Hypothesis Size_bounds : forall info gi,
  GCInfo_Get info = Some gi -> sizeof_GCHeader <= Size gi <= Heap_Size / 2.
Hypothesis Space_lo : Heap_Size <= Space.
Hypothesis Space_hi : Space + 2 * Heap_Size <= 18446744073709551616.

(** A successful [AdjustAllocPtr] in [TO] only moves the cursor, forwards,
    to an aligned place where the object fits, and returns the header found
    there. *)
Lemma AdjustAllocPtr_To_result (fuel : nat) (size : Z) (h : Heap) (hd : GCHeader) (h' : Heap) :
  spaces_ok Space h -> 0 < size <= Heap_Size / 2 ->
  To h <= AllocPtr h < 18446744073709551616 + Heap_Size / 2 ->
  AdjustAllocPtr GCInfo_Get fuel SpaceTo NeverCollect (ret tt) size h = Ok hd h' ->
  h' = set_AllocPtr (AllocPtr h') h /\
  hd = header_at (Mem h) (AllocPtr h') /\
  AllocPtr h <= AllocPtr h' /\
  AllocPtr h' + size <= To h + Heap_Size / 2 /\
  AllocPtr h' mod alignof_max_align_t = 0 /\
  (AllocPtr h' = AllocPtr h \/
   Info (header_at (Mem h) (AllocPtr h)) = 0 /\
   Forwardee (header_at (Mem h) (AllocPtr h)) <> 0 /\
   AllocPtr h + size <= To h + Heap_Size / 2).
Proof.
  intros Hs Hsz Hap. revert h Hs Hap.
  induction fuel as [|fuel IH]; intros h Hs Hap; cbn [AdjustAllocPtr].
  - discriminate.
  - prims. mcbv. tests; bools.
    all: match goal with
         | H : (size_t _ >? _) = false |- _ =>
             apply room_test_passed in H; [|spaces; lia..]
         end.
    + match goal with
      | H : (size_t _ <? _) = true |- _ =>
          apply gap_test_behind in H; [|try apply read_range; spaces; lia..]
      end.
      cbn [Forwardee header_at] in *.
      match goal with H : GCInfo_Get _ = Some _ |- _ =>
        pose proof (Size_bounds _ _ H) as Hb end.
      intros Hrun. apply IH in Hrun; [|exact Hs|cbn; spaces; lia].
      cbn in Hrun. destruct Hrun as (H1 & H2 & H3 & H4 & H5 & _).
      split; [rewrite H1 at 1; destruct h; reflexivity|].
      split; [exact H2|]. split; [norm; lia|]. split; [exact H4|].
      split; [exact H5|]. right. split; [assumption|]. split; [assumption|]. lia.
    + intros Hrun. inversion Hrun; subst. cbn.
      split; [destruct h'; reflexivity|]. split; [reflexivity|].
      split; [lia|]. split; [lia|]. split; [assumption|]. left. reflexivity.
    + intros Hrun. inversion Hrun; subst. cbn.
      split; [destruct h'; reflexivity|]. split; [reflexivity|].
      split; [lia|]. split; [lia|]. split; [assumption|]. left. reflexivity.
Qed.


(** What [Evacuate] does when it returns. *)
Lemma Evacuate_result (fuel : nat) (info obj : Z) (h : Heap) (newObj : Z) (h1 : Heap) :
  spaces_ok Space h ->
  To h <= AllocPtr h <= To h + Heap_Size / 2 ->
  Evacuate GCInfo_Get fuel info obj h = Ok newObj h1 ->
  obj <> 0 /\ obj mod alignof_max_align_t = 0 /\
  ((Forwardee (header_at (Mem h) obj) = obj /\ newObj = obj /\ h1 = h) \/
   (Forwardee (header_at (Mem h) obj) <> obj /\
    exists gi,
      GCInfo_Get info = Some gi /\ info <> 0 /\
      AllocPtr h <= newObj /\ newObj + Size gi <= To h + Heap_Size / 2 /\
      newObj mod alignof_max_align_t = 0 /\
      (newObj = AllocPtr h \/
       Info (header_at (Mem h) (AllocPtr h)) = 0 /\
       Forwardee (header_at (Mem h) (AllocPtr h)) <> 0 /\
       AllocPtr h + Size gi <= To h + Heap_Size / 2) /\
      h1 = evacuated info (Size gi) obj newObj (header_at (Mem h) newObj) h)).
Proof.
  intros Hs Hap. unfold Evacuate. prims. mcbv.
  destruct (obj =? 0) eqn:Hobj; [discriminate|].
  destruct (obj mod alignof_max_align_t =? 0) eqn:Hal; [|discriminate].
  apply Z.eqb_neq in Hobj. apply Z.eqb_eq in Hal.
  destruct (Forwardee (header_at (Mem h) obj) =? obj) eqn:Hfw.
  { intros Hrun. inversion Hrun; subst. apply Z.eqb_eq in Hfw.
    split; [exact Hobj|]. split; [exact Hal|]. left. auto. }
  apply Z.eqb_neq in Hfw.
  destruct (info =? 0) eqn:Hinfo; [discriminate|]. apply Z.eqb_neq in Hinfo.
  destruct (GCInfo_Get info) as [gi|] eqn:Hgi; [|discriminate].
  pose proof (Size_bounds _ _ Hgi) as Hb.
  destruct (size_t _ >? _); [discriminate|].
  destruct (AdjustAllocPtr _ _ _ _ _ _ h) as [hc h0| |] eqn:HA; try discriminate.
  apply AdjustAllocPtr_To_result in HA; [|exact Hs|spaces; lia..].
  destruct HA as (E0 & Ehc & Hmono & Hfit & Halign & Hwhere).
  remember (AllocPtr h0) as rp eqn:Erp. clear Erp. subst h0.
  cbn [AllocPtr set_AllocPtr set_Mem Mem From To].
  tests; intros Hrun; inversion Hrun; subst newObj h1; clear Hrun.
  all: split; [exact Hobj|]; split; [exact Hal|]; right.
  all: split; [exact Hfw|]; exists gi.
  all: split; [reflexivity|]; split; [exact Hinfo|]; split; [exact Hmono|].
  all: split; [exact Hfit|]; split; [exact Halign|]; split; [exact Hwhere|].
  all: unfold evacuated; cbv zeta; rewrite <- Ehc.
  all: match goal with H : (size_t _ <? _) = _ |- _ => rewrite H end.
  all: reflexivity.
Qed.


Hypothesis Info_range : forall info gi,
  GCInfo_Get info = Some gi -> 0 < info < 18446744073709551616.

(** An evacuation of an object of [FROM] that returns has left a copy of
    the object in [TO]. *)
Lemma Evacuate_copies (fuel : nat) (info obj : Z) (gi : GCInfo) (h : Heap)
    (newObj : Z) (h1 : Heap) :
  spaces_ok Space h ->
  To h <= AllocPtr h <= To h + Heap_Size / 2 ->
  GCInfo_Get info = Some gi ->
  From h <= obj -> obj + sizeof_GCHeader <= From h + Heap_Size / 2 ->
  Forwardee (header_at (Mem h) obj) <> obj ->
  Evacuate GCInfo_Get fuel info obj h = Ok newObj h1 ->
  From h1 = From h /\ To h1 = To h /\
  AllocPtr h <= newObj /\ To h <= newObj /\
  AllocPtr h1 = newObj + Size gi /\ AllocPtr h1 <= To h + Heap_Size / 2 /\
  header_at (Mem h1) newObj = mkHeader info 0 /\
  read (Mem h1) obj = read (Mem h) obj /\
  read (Mem h1) (obj + 8) = newObj /\
  forall off, In off (payload_offsets (Size gi)) ->
    read (Mem h1) (newObj + off) = read (Mem h) (obj + off).
Proof.
  intros Hs Hap Hgi Hlo Hhi Hfw Hrun.
  destruct (Evacuate_result _ _ _ _ _ _ Hs Hap Hrun) as (Hobj & Hal & [[E _]|(_ & gi' & Hgi' & Hi & Hmono & Hfit & Hrp & _ & ->)]);
    [contradiction|].
  rewrite Hgi in Hgi'. inversion Hgi'; subst gi'. clear Hgi'.
  pose proof (Size_bounds _ _ Hgi) as Hb. pose proof (Info_range _ _ Hgi) as Hir.
  destruct (evacuated_members info (Size gi) obj newObj (header_at (Mem h) newObj) h)
    as (E1 & E2 & E3 & _).
  assert (Hd : obj + 8 < To h \/ To h + Heap_Size / 2 <= obj) by (spaces; lia).
  rewrite E1, E2, E3.
  split; [reflexivity|]. split; [reflexivity|]. split; [exact Hmono|].
  split; [lia|]. split; [reflexivity|]. split; [exact Hfit|].
  norm.
  destruct (evacuated_forwardee info (Size gi) obj newObj (header_at (Mem h) newObj) h)
    as [F1 F2]; try (norm; lia).
  { norm. intros Hg. rewrite !size_t_small in Hg by (spaces; lia). spaces. lia. }
  split.
  { unfold header_at at 1. rewrite F2. rewrite evacuated_info by (norm; lia).
    rewrite size_t_small by lia. reflexivity. }
  split.
  { apply evacuated_elsewhere; [norm; lia|norm; lia|].
    destruct Hd as [Hd|Hd]; [left; lia|right]. split; [norm; lia|].
    norm. intros Hg. rewrite !size_t_small in Hg by (spaces; lia). lia. }
  split.
  { rewrite F1. apply size_t_small. spaces. lia. }
  intros off Hin. pose proof (payload_offsets_range _ _ Hin) as Ho.
  apply evacuated_payload; [exact Hin|norm; lia].
Qed.

Lemma room_test_passes (ap base size : Z) :
  0 <= base -> base <= ap -> ap + size <= base + Heap_Size / 2 -> 0 < size ->
  (size_t (ap - base) >? size_t (Heap_Size / 2 - size)) = false.
Proof.
  norm. intros. rewrite !size_t_small by lia. lia.
Qed.

(** Fuel: every pass of [AdjustAllocPtr] that jumps moves the cursor at
    least one header forwards, and the room test bounds the cursor. *)
Lemma AdjustAllocPtr_To_fuel (fuel : nat) (size : Z) (h : Heap) :
  spaces_ok Space h -> sizeof_GCHeader <= size <= Heap_Size / 2 ->
  To h <= AllocPtr h < 18446744073709551616 + Heap_Size / 2 ->
  (1 <= fuel)%nat ->
  To h + Heap_Size / 2 - AllocPtr h < sizeof_GCHeader * Z.of_nat fuel ->
  AdjustAllocPtr GCInfo_Get fuel SpaceTo NeverCollect (ret tt) size h
    <> Abort OutOfFuel.
Proof.
  intros Hs Hsz Hap Hf Hmu. revert h Hs Hap Hf Hmu.
  induction fuel as [|fuel IH]; intros h Hs Hap Hf Hmu; [lia|].
  cbn [AdjustAllocPtr]. prims. mcbv. tests; bools.
  match goal with
  | H : (size_t _ >? _) = false |- _ =>
      apply room_test_passed in H; [|spaces; lia..]
  end.
  match goal with
  | H : (size_t _ <? _) = true |- _ =>
      apply gap_test_behind in H; [|try apply read_range; spaces; lia..]
  end.
  cbn [Forwardee header_at] in *.
  match goal with H : GCInfo_Get _ = Some _ |- _ =>
    pose proof (Size_bounds _ _ H) as Hb end.
  pose proof (read_range (Mem h) (AllocPtr h + 8)) as Hr.
  apply IH; [exact Hs|cbn; spaces; lia..].
Qed.

Lemma Evacuate_fuel (fuel : nat) (info obj : Z) (h : Heap) :
  spaces_ok Space h -> To h <= AllocPtr h <= To h + Heap_Size / 2 ->
  (33 <= fuel)%nat ->
  Evacuate GCInfo_Get fuel info obj h <> Abort OutOfFuel.
Proof.
  intros Hs Hap Hf. unfold Evacuate. prims. mcbv.
  destruct (obj =? 0); [discriminate|].
  destruct (obj mod _ =? 0); [|discriminate].
  destruct (_ =? obj); [discriminate|].
  destruct (info =? 0); [discriminate|].
  destruct (GCInfo_Get info) as [gi|] eqn:Hgi; [|discriminate].
  destruct (size_t _ >? _); [discriminate|].
  pose proof (Size_bounds _ _ Hgi) as Hb.
  pose proof (AdjustAllocPtr_To_fuel fuel (Size gi) h Hs Hb) as HA.
  destruct (AdjustAllocPtr _ _ _ _ _ _ h) as [hc h0| |f].
  - tests.
  - discriminate.
  - intros E. inversion E; subst f. apply HA; auto; spaces; lia.
Qed.

(** With room at the cursor and no skip record there, the evacuation
    returns the address of the cursor. *)
Lemma Evacuate_at_cursor (fuel : nat) (info obj : Z) (gi : GCInfo) (h : Heap) :
  spaces_ok Space h ->
  To h <= AllocPtr h -> AllocPtr h + Size gi <= To h + Heap_Size / 2 ->
  AllocPtr h mod alignof_max_align_t = 0 ->
  (AllocPtr h + Size gi) mod alignof_max_align_t = 0 ->
  GCInfo_Get info = Some gi ->
  obj <> 0 -> obj mod alignof_max_align_t = 0 -> obj + 8 <> 0 ->
  Forwardee (header_at (Mem h) obj) <> obj ->
  Info (header_at (Mem h) (AllocPtr h)) <> 0 \/
  Forwardee (header_at (Mem h) (AllocPtr h)) = 0 ->
  exists h1, Evacuate GCInfo_Get (S fuel) info obj h = Ok (AllocPtr h) h1.
Proof.
  intros Hs Hlo Hfit Hca Hca' Hgi Hobj Hoa Hobj8 Hfw Hskip.
  unfold Evacuate. cbn [AdjustAllocPtr]. prims. mcbv.
  pose proof (Size_bounds _ _ Hgi) as Hb. pose proof (Info_range _ _ Hgi) as Hi.
  apply Z.eqb_neq in Hobj, Hobj8, Hfw. apply Z.eqb_eq in Hoa, Hca, Hca'.
  assert (Hinfo : (info =? 0) = false) by (apply Z.eqb_neq; lia).
  assert (Hroom : (size_t (AllocPtr h - To h) >? size_t (Heap_Size / 2 - Size gi)) = false)
    by (apply room_test_passes; spaces; lia).
  assert (Hap0 : (AllocPtr h =? 0) = false) by (apply Z.eqb_neq; spaces; lia).
  assert (Hap1 : (AllocPtr h + Size gi =? 0) = false)
    by (apply Z.eqb_neq; spaces; lia).
  assert (Hns : (Info (header_at (Mem h) (AllocPtr h)) =? 0)
                && negb (Forwardee (header_at (Mem h) (AllocPtr h)) =? 0) = false).
  { apply andb_false_iff. destruct Hskip as [H|H].
    - left. apply Z.eqb_neq. exact H.
    - right. rewrite H. reflexivity. }
  rewrite Hobj, Hoa. cbv beta iota. rewrite Hfw, Hinfo, Hgi, Hroom. cbv beta iota.
  rewrite Hroom. cbv beta iota. rewrite Hap0, Hca. cbv beta iota.
  rewrite Hns. cbv beta iota. rewrite Hap0, Hca. cbv beta iota.
  rewrite Hobj8. cbv beta iota.
  cbn [AllocPtr set_AllocPtr set_Mem].
  destruct (size_t _ <? _).
  - rewrite Hap1, Hca'. eexists. reflexivity.
  - eexists. reflexivity.
Qed.


Lemma to_value_to_object (value : Z) :
  to_object value <> 0 -> to_value (to_object value) = value.
Proof.
  unfold to_value, to_object. norm. destruct (value =? 0) eqn:E; [intros H; lia|].
  intros H. apply Z.eqb_neq in H. rewrite H. lia.
Qed.

(** C4.  [ProcessReference] on the reference at [ptr], whose target
    object is [gcObj]:
    - a null reference: nothing changes;
    - a target in [FROM] already forwarded elsewhere: the reference is set
      to the forwardee;
    - a target in [FROM] with a null [Forwardee]: the target is evacuated
      and the reference set to what [Evacuate] returns, a copy in [TO] with
      a fresh header, to which the old header now forwards; enough fuel
      excludes running out of it, and with room and no skip record at the
      cursor the copy is made at the cursor;
    - a pinned target: every word of memory, the reference included, reads
      as before. *)
Theorem C4_ProcessReference_cases (fuel : nat) (info ptr : Z) (h : Heap) :
  ptr <> 0 ->
  let value := read (Mem h) ptr in
  let gcObj := to_object value in
  let header := header_at (Mem h) gcObj in
  (value = 0 -> ProcessReference GCInfo_Get fuel info ptr h = Ok tt h) /\
  (gcObj <> 0 -> gcObj mod alignof_max_align_t = 0 ->
   Info header <> 0 -> InFrom h gcObj = true ->
   Forwardee header <> 0 -> Forwardee header <> gcObj ->
   ProcessReference GCInfo_Get fuel info ptr h
   = Ok tt (set_Mem (<[ptr := to_value (Forwardee header)]> (Mem h)) h)) /\
  (gcObj <> 0 -> gcObj mod alignof_max_align_t = 0 ->
   Info header <> 0 -> InFrom h gcObj = true ->
   Forwardee header = 0 ->
   (forall newObj h1,
      Evacuate GCInfo_Get fuel info gcObj h = Ok newObj h1 ->
      ProcessReference GCInfo_Get fuel info ptr h
      = Ok tt (set_Mem (<[ptr := to_value newObj]> (Mem h1)) h1)) /\
   (forall gi,
      spaces_ok Space h -> To h <= AllocPtr h <= To h + Heap_Size / 2 ->
      GCInfo_Get info = Some gi ->
      gcObj + sizeof_GCHeader <= From h + Heap_Size / 2 ->
      To h <= ptr -> ptr + 8 <= AllocPtr h ->
      ((33 <= fuel)%nat ->
       ProcessReference GCInfo_Get fuel info ptr h <> Abort OutOfFuel) /\
      (AllocPtr h + Size gi <= To h + Heap_Size / 2 ->
       AllocPtr h mod alignof_max_align_t = 0 ->
       Size gi mod alignof_max_align_t = 0 ->
       Info (header_at (Mem h) (AllocPtr h)) <> 0 \/
       Forwardee (header_at (Mem h) (AllocPtr h)) = 0 ->
       exists h', ProcessReference GCInfo_Get (S fuel) info ptr h = Ok tt h' /\
                  read (Mem h') ptr = to_value (AllocPtr h)) /\
      (forall h', ProcessReference GCInfo_Get fuel info ptr h = Ok tt h' ->
         exists newObj,
           read (Mem h') ptr = to_value newObj /\
           AllocPtr h <= newObj /\
           AllocPtr h' = newObj + Size gi /\
           AllocPtr h' <= To h + Heap_Size / 2 /\
           header_at (Mem h') newObj = mkHeader info 0 /\
           read (Mem h') gcObj = Info header /\
           read (Mem h') (gcObj + 8) = newObj /\
           forall off, In off (payload_offsets (Size gi)) ->
             read (Mem h') (newObj + off) = read (Mem h) (gcObj + off)))) /\
  (gcObj <> 0 -> gcObj mod alignof_max_align_t = 0 ->
   Info header <> 0 -> Forwardee header = gcObj ->
   exists h',
     ProcessReference GCInfo_Get fuel info ptr h = Ok tt h' /\
     (forall q, read (Mem h') q = read (Mem h) q) /\
     From h' = From h /\ To h' = To h /\ AllocPtr h' = AllocPtr h).
Proof.
  intros Hptr value gcObj header. apply Z.eqb_neq in Hptr.
  assert (Hval : gcObj <> 0 -> (value =? 0) = false).
  { intros H. apply Z.eqb_neq. intros E. apply H. subst gcObj.
    rewrite E. reflexivity. }
  assert (Hrun : forall fuel',
            gcObj <> 0 -> gcObj mod alignof_max_align_t = 0 -> Info header <> 0 ->
            ProcessReference GCInfo_Get fuel' info ptr h
            = if InFrom h gcObj then
                match (if negb (Forwardee header =? 0)
                       then Ok (Forwardee header) h
                       else Evacuate GCInfo_Get fuel' info gcObj h) with
                | Ok newObj h1 =>
                    Ok tt (set_Mem (<[ptr := to_value newObj]> (Mem h1)) h1)
                | Throw e h1 => Throw e h1
                | Abort f => Abort f
                end
              else Ok tt h).
  { intros fuel' Hobj Hal Hinfo. unfold ProcessReference. prims. mcbv.
    rewrite Hptr. fold value. rewrite (Hval Hobj). fold gcObj.
    apply Z.eqb_neq in Hobj, Hinfo. apply Z.eqb_eq in Hal.
    rewrite Hobj, Hal. cbv beta iota. fold header. stepif Hinfo.
    destruct (InFrom h gcObj); [|reflexivity]. cbv beta iota.
    destruct (negb (Forwardee header =? 0)); cbv beta iota.
    - reflexivity.
    - destruct (Evacuate _ _ _ _ _); reflexivity. }
  split; [|split; [|split]].
  - intros E. unfold ProcessReference. prims. mcbv. rewrite Hptr.
    fold value. rewrite E. reflexivity.
  - intros Hobj Hal Hinfo Hin Hfw Hself.
    rewrite (Hrun fuel Hobj Hal Hinfo), Hin.
    apply Z.eqb_neq in Hfw. rewrite Hfw. reflexivity.
  - intros Hobj Hal Hinfo Hin Hfw.
    assert (Hrun' : forall fuel',
              ProcessReference GCInfo_Get fuel' info ptr h
              = match Evacuate GCInfo_Get fuel' info gcObj h with
                | Ok newObj h1 =>
                    Ok tt (set_Mem (<[ptr := to_value newObj]> (Mem h1)) h1)
                | Throw e h1 => Throw e h1
                | Abort f => Abort f
                end).
    { intros fuel'. rewrite (Hrun fuel' Hobj Hal Hinfo), Hin, Hfw. reflexivity. }
    split.
    { intros newObj h1 HE. rewrite Hrun', HE. reflexivity. }
    intros gi Hs Hap Hgi Hobjhi Hplo Hphi.
    assert (Hlo : From h <= gcObj) by (unfold InFrom in Hin; lia).
    assert (Hnp : Forwardee (header_at (Mem h) gcObj) <> gcObj)
      by (fold header; rewrite Hfw; auto).
    pose proof (Size_bounds _ _ Hgi) as Hb.
    split; [|split].
    + intros Hf. rewrite Hrun'.
      pose proof (Evacuate_fuel fuel info gcObj h Hs Hap Hf) as HF.
      destruct (Evacuate _ _ _ _ _); congruence.
    + intros Hfit Hca Hsa Hskip.
      destruct (Evacuate_at_cursor fuel info gcObj gi h Hs (proj1 Hap) Hfit Hca)
        as [h1 HE]; auto.
      { unfold alignof_max_align_t in *.
        rewrite Z.add_mod by discriminate. rewrite Hca, Hsa. reflexivity. }
      { spaces. lia. }
      eexists. split; [rewrite Hrun', HE; reflexivity|]. cbn [Mem set_Mem].
      rewrite read_insert_eq. apply size_t_small.
      unfold to_value. spaces. destruct (AllocPtr h =? 0); lia.
    + intros h' HP. rewrite Hrun' in HP.
      destruct (Evacuate _ _ _ _ _) as [newObj h1| |] eqn:HE; try discriminate.
      inversion HP; subst h'; clear HP.
      destruct (Evacuate_copies fuel info gcObj gi h newObj h1 Hs Hap Hgi Hlo Hobjhi Hnp HE)
        as (E1 & E2 & E3 & E3' & E4 & E5 & E6 & E7 & E8 & E9).
      exists newObj. cbn [Mem set_Mem AllocPtr].
      assert (Hd : gcObj + 8 < To h \/ To h + Heap_Size / 2 <= gcObj)
        by (spaces; lia).
      split.
      { rewrite read_insert_eq. apply size_t_small.
        unfold to_value. spaces. destruct (newObj =? 0); lia. }
      split; [exact E3|]. split; [exact E4|]. split; [exact E5|].
      split.
      { unfold header_at in *. rewrite !read_insert_ne by (norm; lia). exact E6. }
      split.
      { rewrite read_insert_ne by (norm; lia). exact E7. }
      split.
      { rewrite read_insert_ne by (norm; lia). exact E8. }
      intros off Hin'. pose proof (payload_offsets_range _ _ Hin') as Ho.
      rewrite read_insert_ne by (norm; lia). apply E9. exact Hin'.
  - intros Hobj Hal Hinfo Hpin.
    assert (Hfw : (Forwardee header =? 0) = false)
      by (apply Z.eqb_neq; rewrite Hpin; exact Hobj).
    rewrite (Hrun fuel Hobj Hal Hinfo).
    destruct (InFrom h gcObj).
    + rewrite Hfw. cbn [negb]. rewrite Hpin.
      replace (to_value gcObj) with value
        by (symmetry; apply to_value_to_object; exact Hobj).
      eexists. split; [reflexivity|].
      cbn [Mem set_Mem From To AllocPtr]. split; [|auto]. intros q.
      destruct (Z.eq_dec ptr q) as [->|Hne].
      * rewrite read_insert_eq. apply size_t_idem.
      * apply read_insert_ne. exact Hne.
    + eexists. split; [reflexivity|]. auto.
Qed.

End Evacuation.

Section NullRoot.
Variable Space : Z.
Variable GCInfo_Get : Z -> option GCInfo.

(** C10: [Collect] on a root array whose first handle is null reads the
    header of a null object and stops there. *)
Theorem C10_null_root_stops_collect (fuel : nat) (h : Heap)
    (r : GCPtrInfo) (rest : list GCPtrInfo) :
  OnStackGCPtrs h = r :: rest ->
  IsPointerInHeap Space (Ptr r) = false ->
  Ptr r <> 0 ->
  read (Mem h) (Ptr r) = 0 ->
  Collect Space GCInfo_Get fuel h = Abort NullDeref.
Proof.
  intros Hroots Hout Hptr Hnull. unfold Collect, noexcept. mcbv.
  cbn [OnStackGCPtrs set_AllocPtr]. rewrite Hroots. cbn [evacuate_roots].
  rewrite Hout. unfold Info_Evacuate, Evacuate. prims. mcbv.
  apply Z.eqb_neq in Hptr. rewrite Hptr. cbn [negb Mem set_AllocPtr].
  rewrite Hnull. reflexivity.
Qed.
End NullRoot.

(** * The layout of the new space *)

Section Tiles.
Variable GCInfo_Get : Z -> option GCInfo.
Hypothesis Size_pos : forall info gi,
  GCInfo_Get info = Some gi -> sizeof_GCHeader <= Size gi.

Lemma total_size_app (l1 l2 : list GCInfo) :
  total_size (l1 ++ l2) = total_size l1 + total_size l2.
Proof.
  induction l1 as [|gi l1 IH]; cbn; [reflexivity|].
  unfold total_size in *. cbn. rewrite IH. lia.
Qed.

Lemma tiled_sizes (m : gmap Z Z) (p : Z) (l : list GCInfo) :
  tiled GCInfo_Get m p l -> 0 <= total_size l /\
  (l <> [] -> sizeof_GCHeader <= total_size l).
Proof.
  revert p. induction l as [|gi l IH]; intros p H; cbn.
  - split; [lia|congruence].
  - destruct H as (_ & _ & Hgi & Ht). apply IH in Ht. apply Size_pos in Hgi.
    unfold total_size in *. cbn. norm. lia.
Qed.

Lemma tiled_app (m : gmap Z Z) (p : Z) (l1 l2 : list GCInfo) :
  tiled GCInfo_Get m p (l1 ++ l2) <->
  tiled GCInfo_Get m p l1 /\ tiled GCInfo_Get m (p + total_size l1) l2.
Proof.
  revert p. induction l1 as [|gi l1 IH]; intros p; cbn.
  - rewrite Z.add_0_r. tauto.
  - rewrite IH. fold (total_size l1).
    replace (p + Size gi + total_size l1) with (p + (Size gi + total_size l1)) by lia.
    tauto.
Qed.

Lemma tile_starts_app (p : Z) (l1 l2 : list GCInfo) :
  tile_starts p (l1 ++ l2) = tile_starts p l1 ++ tile_starts (p + total_size l1) l2.
Proof.
  revert p. induction l1 as [|gi l1 IH]; intros p; cbn.
  - rewrite Z.add_0_r. reflexivity.
  - rewrite IH. fold (total_size l1).
    replace (p + Size gi + total_size l1) with (p + (Size gi + total_size l1)) by lia.
    reflexivity.
Qed.

Lemma tile_starts_range (m : gmap Z Z) (p : Z) (l : list GCInfo) (q : Z) :
  tiled GCInfo_Get m p l -> In q (tile_starts p l) ->
  p <= q /\ q + sizeof_GCHeader <= p + total_size l /\
  q mod alignof_max_align_t = 0.
Proof.
  revert p. induction l as [|gi l IH]; intros p H Hin; cbn in *; [destruct Hin|].
  destruct H as (Ha & Hn & Hgi & Ht).
  pose proof (Size_pos _ _ Hgi) as Hs.
  pose proof (tiled_sizes _ _ _ Ht) as [Hl _]. fold (total_size l).
  destruct Hin as [<-|Hin].
  - norm. repeat split; auto; lia.
  - destruct (IH _ Ht Hin) as (H1 & H2 & H3). norm. repeat split; auto; lia.
Qed.

(** A memory that agrees on the first word of every tile keeps the
    tiling. *)
Lemma tiled_agree (m m' : gmap Z Z) (p : Z) (l : list GCInfo) :
  (forall q, In q (tile_starts p l) -> read m' q = read m q) ->
  tiled GCInfo_Get m p l -> tiled GCInfo_Get m' p l.
Proof.
  revert p. induction l as [|gi l IH]; intros p Hag H; cbn; [exact I|].
  destruct H as (Ha & Hn & Hgi & Ht).
  assert (E : read m' p = read m p) by (apply Hag; left; reflexivity).
  rewrite E. repeat split; auto.
  apply IH; [|exact Ht]. intros q Hq. apply Hag. right. exact Hq.
Qed.

(** A write strictly inside a tile, or at a word that is no multiple of
    16, or outside the layout, keeps the tiling. *)
Lemma tiled_insert (m : gmap Z Z) (p : Z) (l : list GCInfo) (w v : Z) :
  ~ In w (tile_starts p l) ->
  tiled GCInfo_Get m p l -> tiled GCInfo_Get (<[w := v]> m) p l.
Proof.
  intros Hw. apply tiled_agree. intros q Hq. apply read_insert_ne.
  intros E. subst q. contradiction.
Qed.

Lemma inside_tile_no_start (m : gmap Z Z) (p : Z) (l1 l2 : list GCInfo) (gi : GCInfo)
    (w : Z) :
  tiled GCInfo_Get m p (l1 ++ gi :: l2) ->
  p + total_size l1 < w < p + total_size l1 + Size gi ->
  ~ In w (tile_starts p (l1 ++ gi :: l2)).
Proof.
  intros Ht Hw Hin. rewrite tile_starts_app in Hin.
  apply tiled_app in Ht. destruct Ht as [Ht1 Ht2].
  apply in_app_or in Hin. destruct Hin as [Hin|Hin].
  - destruct (tile_starts_range _ _ _ _ Ht1 Hin) as (_ & H & _). norm. lia.
  - cbn in Hin. destruct Hin as [E|Hin]; [lia|].
    destruct Ht2 as (_ & _ & _ & Ht2).
    destruct (tile_starts_range _ _ _ _ Ht2 Hin) as (H & _). lia.
Qed.

End Tiles.

Lemma aligned_apart (x y : Z) :
  x mod alignof_max_align_t = 0 -> y mod alignof_max_align_t = 0 -> x <> y + 8.
Proof.
  unfold alignof_max_align_t. intros Hx Hy E. subst x.
  rewrite Z.add_mod in Hx by discriminate. rewrite Hy in Hx. discriminate Hx.
Qed.

Section Cheney.
Variable Space : Z.
Variable GCInfo_Get : Z -> option GCInfo.
Hypothesis Size_bounds : forall info gi,
  GCInfo_Get info = Some gi -> sizeof_GCHeader < Size gi <= Heap_Size / 2.
Hypothesis Fields_inside : forall info gi off target,
  GCInfo_Get info = Some gi -> In (off, target) (PtrFields gi) ->
  sizeof_GCHeader <= off /\ off + 8 <= Size gi.
Hypothesis Info_range : forall info gi,
  GCInfo_Get info = Some gi -> 0 < info < 18446744073709551616.
Hypothesis Space_lo : Heap_Size <= Space.
Hypothesis Space_hi : Space + 2 * Heap_Size <= 18446744073709551616.

Lemma Size_bounds_weak (info : Z) (gi : GCInfo) :
  GCInfo_Get info = Some gi -> sizeof_GCHeader <= Size gi <= Heap_Size / 2.
Proof. intros H. apply Size_bounds in H. lia. Qed.

Lemma Size_pos (info : Z) (gi : GCInfo) :
  GCInfo_Get info = Some gi -> sizeof_GCHeader <= Size gi.
Proof. intros H. apply Size_bounds in H. lia. Qed.

Section Cycle.
Variables (F T : Z) (n : nat) (m0 : gmap Z Z).
Hypothesis halves : (F = Space /\ T = Space + Heap_Size / 2) \/
                    (F = Space + Heap_Size / 2 /\ T = Space).

Abbreviation scanning' := (scanning GCInfo_Get F T n m0).

Lemma scanning_spaces (l : list GCInfo) (h : Heap) :
  scanning' l h -> spaces_ok Space h /\ To h <= AllocPtr h <= To h + Heap_Size / 2.
Proof.
  intros ((HF & HT & _ & Hap) & _). unfold spaces_ok. rewrite HF, HT. auto.
Qed.

(** One evacuation: either the object is pinned and nothing changes, or
    its copy is the next tile. *)
Lemma Evacuate_scanning (fuel : nat) (info obj : Z) (l : list GCInfo) (h : Heap)
    (newObj : Z) (h1 : Heap) :
  scanning' l h ->
  Evacuate GCInfo_Get fuel info obj h = Ok newObj h1 ->
  (h1 = h /\ newObj = obj) \/
  (exists gi, GCInfo_Get info = Some gi /\ newObj = AllocPtr h /\
              scanning' (l ++ [gi]) h1).
Proof.
  intros Hsc Hrun. destruct (scanning_spaces _ _ Hsc) as [Hs Hap].
  destruct Hsc as ((HF & HT & Hn & _) & Htl & Hcur & Hsent & Hpin).
  destruct (Evacuate_result Space GCInfo_Get Size_bounds_weak Space_lo Space_hi
              _ _ _ _ _ _ Hs Hap Hrun)
    as (Hobj & Hal & [(_ & -> & ->)|(Hfw & gi & Hgi & Hi & Hmono & Hfit & Hrp & Hwhere & ->)]);
    [left; auto|right].
  pose proof (Size_bounds _ _ Hgi) as Hb. pose proof (Info_range _ _ Hgi) as Hir.
  exists gi. split; [exact Hgi|].
  assert (Hnew : newObj = AllocPtr h).
  { destruct Hwhere as [E|(Hi0 & Hf0 & Hroom)]; [exact E|].
    rewrite Hsent in Hf0; [contradiction Hf0; reflexivity|]. norm. lia. }
  split; [exact Hnew|]. subst newObj.
  set (rp := AllocPtr h) in *.
  assert (Hhc : header_at (Mem h) rp = mkHeader 0 0) by (apply Hsent; norm; lia).
  rewrite Hhc.
  destruct (evacuated_members info (Size gi) obj rp (mkHeader 0 0) h)
    as (E1 & E2 & E3 & _ & _ & E6).
  assert (Hobja : forall q, q mod alignof_max_align_t = 0 -> q <> obj + 8)
    by (intros q Hq; apply aligned_apart; assumption).
  assert (Hguard : rp + Size gi - T < Heap_Size / 2 - sizeof_GCHeader ->
            (size_t (rp + Size gi - To h) <? size_t (Heap_Size / 2 - sizeof_GCHeader)) = true).
  { norm. intros Hg. rewrite !size_t_small by lia. lia. }
  assert (Hguard' :
            (size_t (rp + Size gi - To h) <? size_t (Heap_Size / 2 - sizeof_GCHeader)) = true ->
            rp + Size gi - T < Heap_Size / 2 - sizeof_GCHeader).
  { norm. intros Hg. rewrite !size_t_small in Hg by lia. lia. }
  split; [|split; [|split; [|split]]].
  - unfold collecting. rewrite E1, E2, E3, E6. norm. repeat split; auto; lia.
  - apply tiled_app. split.
    + apply (tiled_agree GCInfo_Get (Mem h)); [|exact Htl].
      intros q Hq.
      destruct (tile_starts_range GCInfo_Get Size_pos _ _ _ _ Htl Hq) as (Q1 & Q2 & Q3).
      apply evacuated_elsewhere; [norm; lia|apply Hobja; exact Q3|left; norm; lia].
    + cbn [tiled]. rewrite <- Hcur. fold rp.
      rewrite evacuated_info by (norm; try lia; apply not_eq_sym, Hobja; exact Hrp).
      rewrite size_t_small by lia. repeat split; auto; lia.
  - rewrite E3, total_size_app. cbn. lia.
  - rewrite E3. intros Hg. rewrite evacuated_preamble by (apply Hguard; exact Hg).
    reflexivity.
  - intros a Ha. rewrite <- (Hpin a Ha).
    destruct Ha as (a_aligned & a_lo & a_hi & a_object & a_pinned).
    unfold header_at at 1.
    assert (Hne : a <> obj).
    { intros E. subst obj. apply Hfw. rewrite (Hpin a); [exact a_pinned|].
      unfold pinned_header. auto. }
    assert (Hout : forall q, a <= q <= a + 8 ->
              q < rp \/ rp + Size gi <= q /\
              ((size_t (rp + Size gi - To h) <? size_t (Heap_Size / 2 - sizeof_GCHeader)) = true ->
               rp + Size gi + sizeof_GCHeader <= q)).
    { intros q Hq.
      destruct halves as [[? ?]|[? ?]]; subst F T.
      - left. norm. lia.
      - right. split; [norm; lia|]. intros Hg. apply Hguard' in Hg. norm. lia. }
    rewrite !evacuated_elsewhere; auto; try (norm; lia).
Qed.


(** A store outside the heap array, or strictly inside a tile, disturbs
    nothing. *)
Lemma scanning_store (l : list GCInfo) (h : Heap) (p v : Z) :
  scanning' l h ->
  p < Space \/ Space + Heap_Size <= p \/
  (exists l1 gi l2, l = l1 ++ gi :: l2 /\
     T + total_size l1 < p < T + total_size l1 + Size gi) ->
  scanning' l (set_Mem (<[p := v]> (Mem h)) h).
Proof.
  intros ((HF & HT & Hn & Hap) & Htl & Hcur & Hsent & Hpin) Hp.
  pose proof (tiled_sizes GCInfo_Get Size_pos _ _ _ Htl) as [Hl0 _].
  assert (Hstart : ~ In p (tile_starts T l)).
  { intros Hin.
    destruct (tile_starts_range GCInfo_Get Size_pos _ _ _ _ Htl Hin) as (Q1 & Q2 & _).
    destruct Hp as [Hp|[Hp|(l1 & gi & l2 & -> & Hp)]].
    - destruct halves as [[? ?]|[? ?]]; subst F T; norm; lia.
    - destruct halves as [[? ?]|[? ?]]; subst F T; norm; lia.
    - revert Hin. apply (inside_tile_no_start GCInfo_Get Size_pos (Mem h)); assumption. }
  assert (Hlow : p < Space \/ Space + Heap_Size <= p \/ T < p < AllocPtr h).
  { destruct Hp as [Hp|[Hp|(l1 & gi & l2 & -> & Hp)]]; auto. right. right.
    apply tiled_app in Htl. destruct Htl as [Ht1 Ht2].
    pose proof (tiled_sizes GCInfo_Get Size_pos _ _ _ Ht1) as [H1 _].
    destruct Ht2 as (_ & _ & _ & Ht2).
    pose proof (tiled_sizes GCInfo_Get Size_pos _ _ _ Ht2) as [H2 _].
    rewrite Hcur, total_size_app. cbn. fold (total_size l2). lia. }
  split; [|split; [|split; [|split]]]; cbn [Mem set_Mem AllocPtr].
  - unfold collecting. cbn. auto.
  - apply tiled_insert; assumption.
  - exact Hcur.
  - intros Hg. rewrite <- (Hsent Hg). unfold header_at.
    rewrite !read_insert_ne; [reflexivity|..];
      destruct halves as [[? ?]|[? ?]]; subst F T; norm; lia.
  - intros a Ha. rewrite <- (Hpin a Ha).
    destruct Ha as (a_aligned & a_lo & a_hi & _). unfold header_at at 1.
    rewrite !read_insert_ne; [reflexivity|..];
      destruct halves as [[? ?]|[? ?]]; subst F T; norm; lia.
Qed.

Lemma Info_Evacuate_scanning (fuel : nat) (info ptr : Z) (l : list GCInfo)
    (h h1 : Heap) :
  scanning' l h -> IsPointerInHeap Space ptr = false ->
  Info_Evacuate GCInfo_Get fuel info ptr h = Ok tt h1 ->
  exists l', scanning' (l ++ l') h1.
Proof.
  intros Hsc Hout. unfold Info_Evacuate. prims. mcbv.
  destruct (ptr =? 0); [discriminate|].
  destruct (Evacuate _ _ _ _ h) as [newObj h0| |] eqn:HE; try discriminate.
  intros Hrun. inversion Hrun; subst h1; clear Hrun.
  assert (Hp : ptr < Space \/ Space + Heap_Size <= ptr).
  { unfold IsPointerInHeap in Hout. apply andb_false_iff in Hout. lia. }
  destruct (Evacuate_scanning _ _ _ _ _ _ _ Hsc HE) as [[-> _]|(gi & _ & _ & Hsc1)].
  - exists []. rewrite app_nil_r. apply scanning_store; [exact Hsc|tauto].
  - exists [gi]. apply scanning_store; [exact Hsc1|tauto].
Qed.

Lemma evacuate_roots_scanning (fuel : nat) (roots : list GCPtrInfo) (l : list GCInfo)
    (h h1 : Heap) :
  scanning' l h ->
  evacuate_roots Space GCInfo_Get fuel roots h = Ok tt h1 ->
  exists l', scanning' (l ++ l') h1.
Proof.
  revert l h. induction roots as [|r rest IH]; intros l h Hsc; cbn [evacuate_roots].
  - intros Hrun. inversion Hrun; subst. exists []. rewrite app_nil_r. exact Hsc.
  - prims. mcbv.
    destruct (IsPointerInHeap Space (Ptr r)) eqn:Hout; [discriminate|].
    cbn [negb]. cbv beta iota.
    destruct (Info_Evacuate _ _ _ _ h) as [[] h0| |] eqn:HE; try discriminate.
    destruct (Info_Evacuate_scanning _ _ _ _ _ _ Hsc Hout HE) as [l1 Hsc1].
    intros Hrun. destruct (IH _ _ Hsc1 Hrun) as [l2 Hsc2].
    exists (l1 ++ l2). rewrite app_assoc. exact Hsc2.
Qed.


Lemma ProcessReference_scanning (fuel : nat) (info ptr : Z) (l1 l2 : list GCInfo)
    (gi : GCInfo) (h h1 : Heap) :
  scanning' (l1 ++ gi :: l2) h ->
  T + total_size l1 < ptr < T + total_size l1 + Size gi ->
  ProcessReference GCInfo_Get fuel info ptr h = Ok tt h1 ->
  exists l2', scanning' (l1 ++ gi :: l2 ++ l2') h1.
Proof.
  intros Hsc Hptr. unfold ProcessReference. prims. mcbv.
  assert (Hsame : exists l2', scanning' (l1 ++ gi :: l2 ++ l2') h)
    by (exists []; rewrite app_nil_r; exact Hsc).
  assert (Hstore : forall l2' h0 v,
            scanning' (l1 ++ gi :: l2 ++ l2') h0 ->
            exists l2'', scanning' (l1 ++ gi :: l2 ++ l2'')
                                   (set_Mem (<[ptr := v]> (Mem h0)) h0)).
  { intros l2' h0 v H0. exists l2'. apply scanning_store; [exact H0|].
    right. right. exists l1, gi, (l2 ++ l2'). auto. }
  destruct (ptr =? 0); [discriminate|].
  destruct (read (Mem h) ptr =? 0).
  { intros Hrun. inversion Hrun; subst. exact Hsame. }
  destruct (to_object (read (Mem h) ptr) =? 0); [discriminate|].
  destruct (_ mod _ =? 0); [|discriminate]. cbv beta iota.
  destruct (negb (Info _ =? 0)); [|discriminate]. cbv beta iota.
  destruct (InFrom h _).
  2: { intros Hrun. inversion Hrun; subst. exact Hsame. }
  destruct (negb (Forwardee _ =? 0)); cbv beta iota.
  { intros Hrun. inversion Hrun; subst. apply (Hstore []).
    rewrite app_nil_r. exact Hsc. }
  destruct (Evacuate _ _ _ _ h) as [newObj h0| |] eqn:HE; try discriminate.
  intros Hrun. inversion Hrun; subst h1; clear Hrun.
  destruct (Evacuate_scanning _ _ _ _ _ _ _ Hsc HE) as [[-> _]|(gi' & _ & _ & Hsc1)].
  - apply (Hstore []). rewrite app_nil_r. exact Hsc.
  - apply (Hstore [gi']). rewrite <- app_assoc in Hsc1. exact Hsc1.
Qed.

Lemma visit_fields_scanning (fuel : nat) (info : Z) (fields : list (Z * Z))
    (l1 l2 : list GCInfo) (gi : GCInfo) (h h1 : Heap) :
  (forall off target, In (off, target) fields ->
     sizeof_GCHeader <= off /\ off + 8 <= Size gi) ->
  scanning' (l1 ++ gi :: l2) h ->
  visit_fields GCInfo_Get fuel (T + total_size l1) fields h = Ok tt h1 ->
  exists l2', scanning' (l1 ++ gi :: l2 ++ l2') h1.
Proof.
  revert l2 h. induction fields as [|[off target] rest IH]; intros l2 h Hf Hsc;
    cbn [visit_fields].
  - intros Hrun. inversion Hrun; subst. exists []. rewrite app_nil_r. exact Hsc.
  - mcbv.
    destruct (ProcessReference _ _ _ _ h) as [[] h0| |] eqn:HP; try discriminate.
    destruct (Hf off target (or_introl eq_refl)) as [Ho1 Ho2].
    assert (Hin : T + total_size l1 < T + total_size l1 + off
                  < T + total_size l1 + Size gi) by (norm; lia).
    destruct (ProcessReference_scanning _ _ _ _ _ _ _ _ Hsc Hin HP) as [l2a Hsca].
    intros Hrun.
    destruct (IH (l2 ++ l2a) h0 (fun o t Hin => Hf o t (or_intror Hin)) Hsca Hrun)
      as [l2b Hscb].
    exists (l2a ++ l2b). rewrite app_assoc. exact Hscb.
Qed.


(** The Cheney scan walks the tiles one by one. *)
Lemma scan_loop_scanning (fuel : nat) (l1 l2 : list GCInfo) (h h1 : Heap) :
  scanning' (l1 ++ l2) h ->
  scan_loop GCInfo_Get fuel (T + total_size l1) h = Ok tt h1 ->
  exists l, scanning' l h1.
Proof.
  revert l1 l2 h. induction fuel as [|fuel IH]; intros l1 l2 h Hsc; cbn [scan_loop].
  - discriminate.
  - mcbv.
    destruct (T + total_size l1 <? AllocPtr h) eqn:Hlt.
    2: { intros Hrun. inversion Hrun; subst. eexists. exact Hsc. }
    apply Z.ltb_lt in Hlt.
    pose proof Hsc as (_ & Htl & Hcur & _).
    rewrite Hcur, total_size_app in Hlt.
    destruct l2 as [|gi l2]; [cbn in Hlt; lia|].
    apply tiled_app in Htl. destruct Htl as (_ & Ha & Hn & Hgi & _).
    unfold load_header at 1. unfold header_ptr. mcbv.
    destruct (T + total_size l1 =? 0) eqn:Hz; [discriminate|].
    apply Z.eqb_eq in Ha. rewrite Ha. cbv beta iota.
    cbn [Info header_at]. apply Z.eqb_neq in Hn. rewrite Hn.
    unfold descriptor at 1. rewrite Hn, Hgi. mcbv.
    unfold Info_VisitPointer.
    destruct (visit_fields _ _ _ _ h) as [[] h0| |] eqn:HV; try discriminate.
    destruct (visit_fields_scanning _ 0 _ _ _ _ _ _
                (fun off target => Fields_inside _ _ off target Hgi) Hsc HV)
      as [l2a Hsca].
    pose proof Hsca as (_ & Htl' & _).
    apply tiled_app in Htl'. destruct Htl' as (_ & _ & Hn' & Hgi' & _).
    unfold load_header, header_ptr. mcbv.
    rewrite Hz, Ha. cbv beta iota. cbn [Info header_at].
    apply Z.eqb_neq in Hn'. unfold descriptor. rewrite Hn', Hgi'. mcbv.
    intros Hrun. apply (IH (l1 ++ [gi]) (l2 ++ l2a) h0).
    + rewrite <- app_assoc. exact Hsca.
    + rewrite total_size_app. cbn. rewrite Z.add_0_r, Z.add_assoc. exact Hrun.
Qed.


(** A store into [FROM] that misses the pinned headers disturbs nothing. *)
Lemma scanning_store_from (l : list GCInfo) (h : Heap) (p v : Z) :
  scanning' l h ->
  F <= p < F + Heap_Size / 2 ->
  (forall a, pinned_header F m0 a -> p <> a /\ p <> a + 8) ->
  scanning' l (set_Mem (<[p := v]> (Mem h)) h).
Proof.
  intros ((HF & HT & Hn & Hap) & Htl & Hcur & Hsent & Hpin) Hp Hmiss.
  pose proof (tiled_sizes GCInfo_Get Size_pos _ _ _ Htl) as [Hl0 _].
  assert (Hstart : ~ In p (tile_starts T l)).
  { intros Hin.
    destruct (tile_starts_range GCInfo_Get Size_pos _ _ _ _ Htl Hin) as (Q1 & Q2 & _).
    destruct halves as [[? ?]|[? ?]]; subst F T; norm; lia. }
  split; [|split; [|split; [|split]]]; cbn [Mem set_Mem AllocPtr].
  - unfold collecting. cbn. auto.
  - apply tiled_insert; assumption.
  - exact Hcur.
  - intros Hg. rewrite <- (Hsent Hg). unfold header_at.
    rewrite !read_insert_ne; [reflexivity|..];
      destruct halves as [[? ?]|[? ?]]; subst F T; norm; lia.
  - intros a Ha. rewrite <- (Hpin a Ha). destruct (Hmiss a Ha) as [H1 H2].
    unfold header_at at 1.
    rewrite !read_insert_ne; [reflexivity|..]; lia.
Qed.

Lemma scanning_write_header_from (l : list GCInfo) (h : Heap) (p : Z) (hd : GCHeader) :
  scanning' l h ->
  p mod alignof_max_align_t = 0 ->
  F <= p < F + (Heap_Size / 2 - sizeof_GCHeader) ->
  ~ pinned_header F m0 p ->
  scanning' l (set_Mem (write_header p hd (Mem h)) h).
Proof.
  intros Hsc Hal Hp Hnot. unfold write_header.
  assert (H1 : scanning' l (set_Mem (<[p := Info hd]> (Mem h)) h)).
  { apply scanning_store_from; [exact Hsc|norm; lia|].
    intros a Ha. split.
    + intros ->. contradiction.
    + apply aligned_apart; [exact Hal|apply Ha]. }
  assert (Hr : F <= p + 8 < F + Heap_Size / 2) by (norm; lia).
  assert (Hm : forall a, pinned_header F m0 a -> p + 8 <> a /\ p + 8 <> a + 8).
  { intros a Ha. split.
    + apply not_eq_sym, aligned_apart; [apply Ha|exact Hal].
    + intros E. apply Hnot. replace p with a by lia. exact Ha. }
  exact (scanning_store_from _ _ (p + 8) (Forwardee hd) H1 Hr Hm).
Qed.

Lemma scanning_log_finalize (l : list GCInfo) (h : Heap) (p : Z) :
  scanning' l h -> scanning' l (log_finalize p h).
Proof. intros H. exact H. Qed.


(** Where the memory shows no pinned header, none was pinned at the start. *)
Lemma not_pinned_here (l : list GCInfo) (h : Heap) (p : Z) :
  scanning' l h ->
  Info (header_at (Mem h) p) = 0 \/ Forwardee (header_at (Mem h) p) <> p ->
  ~ pinned_header F m0 p.
Proof.
  intros (_ & _ & _ & _ & Hpin) Hhere Hp. rewrite (Hpin p Hp) in Hhere.
  destruct Hp as (_ & _ & _ & Hi & Hf). tauto.
Qed.

(** The test of the finalize loop, for a pointer the loop can reach. *)
Lemma finalize_test (scanPtr : Z) :
  0 <= scanPtr < 18446744073709551616 + Heap_Size / 2 ->
  (size_t (scanPtr - F) <? size_t (Heap_Size / 2 - sizeof_GCHeader)) = true ->
  F <= scanPtr < F + (Heap_Size / 2 - sizeof_GCHeader).
Proof.
  intros Hr Ht. apply Z.ltb_lt in Ht. norm.
  assert (HFr : Heap_Size <= F /\ F + Heap_Size <= 18446744073709551616 - 512)
    by (destruct halves as [[? ?]|[? ?]]; subst F T; norm; lia).
  norm. rewrite (size_t_small (512 - 16)) in Ht by lia.
  destruct (Z_lt_ge_dec (scanPtr - F) 0) as [Hneg|Hpos].
  - rewrite size_t_negative in Ht by lia. lia.
  - rewrite size_t_small in Ht by lia. lia.
Qed.

Lemma finalize_test_failed (scanPtr : Z) :
  F <= scanPtr < 18446744073709551616 + Heap_Size / 2 ->
  (size_t (scanPtr - F) <? size_t (Heap_Size / 2 - sizeof_GCHeader)) = false ->
  F + (Heap_Size / 2 - sizeof_GCHeader) <= scanPtr.
Proof.
  intros Hr Ht. apply Z.ltb_ge in Ht. norm.
  assert (HFr : Heap_Size <= F /\ F + Heap_Size <= 18446744073709551616 - 512)
    by (destruct halves as [[? ?]|[? ?]]; subst F T; norm; lia).
  norm. rewrite (size_t_small (512 - 16)) in Ht by lia.
  rewrite size_t_small in Ht by lia. lia.
Qed.


(** The finalize phase writes skip records into the old space only, and
    none over a pinned header; the record header it returns is no pinned
    header either, when it lies where the last store of [Collect] goes. *)
Lemma finalize_loop_scanning (fuel : nat) (l : list GCInfo) (scanPtr prh : Z)
    (h : Heap) (prh' : Z) (h1 : Heap) :
  scanning' l h ->
  0 <= scanPtr < 18446744073709551616 + Heap_Size / 2 ->
  F <= prh ->
  prh = scanPtr \/
  (prh < F + (Heap_Size / 2 - sizeof_GCHeader) /\ ~ pinned_header F m0 prh) ->
  finalize_loop GCInfo_Get fuel scanPtr prh h = Ok prh' h1 ->
  scanning' l h1 /\ F <= prh' /\
  (prh' < F + (Heap_Size / 2 - sizeof_GCHeader) -> ~ pinned_header F m0 prh').
Proof.
  revert scanPtr prh h.
  induction fuel as [|fuel IH]; intros scanPtr prh h Hsc Hrange Hlo Hinv;
    cbn [finalize_loop]; [discriminate|].
  pose proof Hsc as ((HF & HT & Hn & Hap) & _).
  mcbv. rewrite HF.
  destruct (size_t (scanPtr - F) <? size_t (Heap_Size / 2 - sizeof_GCHeader)) eqn:Htest.
  2: { intros Hrun. inversion Hrun; subst prh' h1.
       split; [exact Hsc|split; [exact Hlo|]]. intros Hlt.
       destruct Hinv as [->|[_ Hnp]]; [|exact Hnp].
       apply finalize_test_failed in Htest; lia. }
  apply finalize_test in Htest; [|exact Hrange].
  unfold load_header, header_ptr. mcbv.
  destruct (scanPtr =? 0) eqn:Hz; [discriminate|].
  destruct (scanPtr mod alignof_max_align_t =? 0) eqn:Hal; [|discriminate].
  cbv beta iota.
  set (hd := header_at (Mem h) scanPtr).
  assert (Hkeep : Info hd = 0 \/ Forwardee hd <> scanPtr ->
            prh < F + (Heap_Size / 2 - sizeof_GCHeader) /\ ~ pinned_header F m0 prh).
  { intros Hhere. destruct Hinv as [->|Hinv]; [|exact Hinv].
    split; [lia|]. apply (not_pinned_here l h); assumption. }
  assert (Hfw : 0 <= Forwardee hd < 18446744073709551616 + Heap_Size / 2).
  { unfold hd. cbn [Forwardee header_at].
    pose proof (read_range (Mem h) (scanPtr + 8)). norm. lia. }
  destruct (Info hd =? 0) eqn:Hi.
  - apply Z.eqb_eq in Hi.
    destruct (Forwardee hd =? 0) eqn:Hf; cbn [negb]; cbv beta iota.
    + intros Hrun. inversion Hrun; subst prh' h1.
      split; [exact Hsc|split; [exact Hlo|]]. intros _. apply Hkeep. auto.
    + apply IH; auto.
  - apply Z.eqb_neq in Hi. unfold descriptor at 1.
    destruct (Info hd =? 0) eqn:Hi'; [apply Z.eqb_eq in Hi'; contradiction|].
    destruct (GCInfo_Get (Info hd)) as [gi|] eqn:Hgi; [|discriminate]. mcbv.
    pose proof (Size_bounds _ _ Hgi) as Hsz.
    assert (Hnext : 0 <= scanPtr + Size gi < 18446744073709551616 + Heap_Size / 2).
    { destruct halves as [[? ?]|[? ?]]; subst F T; norm; lia. }
    destruct ((Forwardee hd =? 0) && HasFinalize gi) eqn:Hfin.
    + apply andb_true_iff in Hfin. destruct Hfin as [Hf0 _]. apply Z.eqb_eq in Hf0.
      unfold Info_Finalize. mcbv. apply IH; auto.
      right. apply Hkeep. right. rewrite Hf0. lia.
    + destruct (Forwardee hd =? scanPtr) eqn:Hpn.
      * unfold when.
        destruct (prh =? scanPtr) eqn:Hps; cbn [negb]; cbv beta iota.
        -- mcbv. apply IH; auto. norm. lia.
        -- apply Z.eqb_neq in Hps.
           destruct Hinv as [Hinv|[Hp1 Hp2]]; [contradiction|].
           unfold store_header, header_ptr. mcbv.
           destruct (prh =? 0); [discriminate|].
           destruct (prh mod alignof_max_align_t =? 0) eqn:Hpal; [|discriminate].
           apply Z.eqb_eq in Hpal. cbv beta iota.
           apply IH; auto.
           ++ apply scanning_write_header_from; auto.
           ++ norm. lia.
      * apply Z.eqb_neq in Hpn. apply IH; auto.
Qed.


(** A collection that starts with the end sentinel at the base of [TO]:
    the copies it makes tile the new [FROM] from its base to the cursor,
    and the headers pinned in the old [FROM] are untouched. *)
Lemma Collect_scanning (fuel : nat) (h h1 : Heap) :
  From h = F -> To h = T -> Collections h = n -> Mem h = m0 ->
  header_at (Mem h) T = mkHeader 0 0 ->
  Collect Space GCInfo_Get fuel h = Ok tt h1 ->
  exists l,
    From h1 = T /\ To h1 = F /\ Collections h1 = S n /\
    tiled GCInfo_Get (Mem h1) T l /\
    AllocPtr h1 = T + total_size l /\ total_size l <= Heap_Size / 2 /\
    (forall a, pinned_header F m0 a -> header_at (Mem h1) a = header_at m0 a).
Proof.
  intros HF HT Hn Hm Hclean.
  assert (Hsc0 : scanning' [] (set_AllocPtr (To h) h)).
  { rewrite HT. unfold scanning, collecting. cbn. rewrite Z.add_0_r.
    repeat split; auto; try (norm; lia). intros a _. rewrite Hm. reflexivity. }
  unfold Collect, noexcept. mcbv.
  destruct (evacuate_roots _ _ _ _ _) as [[] h2| |] eqn:HR; try discriminate.
  destruct (evacuate_roots_scanning _ _ _ _ _ Hsc0 HR) as [l1 Hsc1]. cbn [app] in Hsc1.
  destruct (scan_loop _ _ _ h2) as [[] h3| |] eqn:HS; try discriminate.
  assert (Hsc2 : exists l, scanning' l h3).
  { apply (scan_loop_scanning fuel [] l1 h2); [exact Hsc1|].
    cbn [total_size fold_right]. rewrite Z.add_0_r, <- HT. exact HS. }
  destruct Hsc2 as [l Hsc2].
  pose proof Hsc2 as ((HF3 & _) & _). rewrite HF3.
  assert (HFr : Heap_Size <= F /\ F + Heap_Size <= 18446744073709551616)
    by (destruct halves as [[? ?]|[? ?]]; subst F T; norm; lia).
  destruct (finalize_loop _ _ _ _ h3) as [prh h4| |] eqn:HL; try discriminate.
  apply finalize_loop_scanning with (l := l) in HL; auto; [|norm; lia|lia].
  destruct HL as (Hsc4 & Hlo & Hnp).
  pose proof Hsc4 as ((HF4 & _) & _).
  unfold when, store_header, header_ptr. mcbv.
  assert (Hend : forall h5, scanning' l h5 -> Ok tt (swap_spaces h5) = Ok tt h1 ->
            exists l0,
              From h1 = T /\ To h1 = F /\ Collections h1 = S n /\
              tiled GCInfo_Get (Mem h1) T l0 /\
              AllocPtr h1 = T + total_size l0 /\ total_size l0 <= Heap_Size / 2 /\
              (forall a, pinned_header F m0 a -> header_at (Mem h1) a = header_at m0 a)).
  { intros h5 ((H1 & H2 & H3 & H7) & H4 & H5 & _ & H6) Hrun.
    inversion Hrun; subst h1. exists l. cbn.
    split; [exact H2|]. split; [exact H1|]. split; [rewrite H3; reflexivity|].
    split; [exact H4|]. split; [exact H5|]. split; [lia|exact H6]. }
  destruct (prh <? F + Heap_Size / 2 - sizeof_GCHeader) eqn:Hlt.
  - apply Z.ltb_lt in Hlt.
    destruct (prh =? 0); [discriminate|].
    destruct (prh mod alignof_max_align_t =? 0) eqn:Hal; [|discriminate].
    apply Z.eqb_eq in Hal. cbv beta iota.
    apply Hend. apply scanning_write_header_from; auto; try (norm; lia).
    apply Hnp. norm. lia.
  - apply Hend. exact Hsc4.
Qed.

End Cycle.



End Cheney.

(** * The helpers and the handle operations *)

(** ** [AlignTo] *)

Lemma AlignTo_value (size alignment : Z) :
  0 < alignment -> 0 <= size -> size + alignment - 1 < 18446744073709551616 ->
  AlignTo size alignment = Some ((size + alignment - 1) / alignment * alignment) /\
  size <= (size + alignment - 1) / alignment * alignment < size + alignment.
Proof.
  intros Ha Hs Hfit.
  pose proof (Z.mul_div_le (size + alignment - 1) alignment Ha) as Hle.
  pose proof (Z.mul_succ_div_gt (size + alignment - 1) alignment Ha) as Hgt.
  assert (Hq : 0 <= (size + alignment - 1) / alignment) by (apply Z.div_pos; lia).
  split; [|nia].
  unfold AlignTo. destruct (Z.eqb_spec alignment 0) as [E|_]; [lia|].
  rewrite (size_t_small (size + alignment - 1)) by lia.
  rewrite size_t_small by nia. reflexivity.
Qed.

(** X1.  Without overflow, [AlignTo] returns the least multiple of
    [alignment] that is not below [size]. *)
Theorem AlignTo_least_multiple (size alignment : Z) :
  0 < alignment -> 0 <= size -> size + alignment - 1 < 18446744073709551616 ->
  exists r, AlignTo size alignment = Some r /\
            r mod alignment = 0 /\ size <= r /\
            forall m, m mod alignment = 0 -> size <= m -> r <= m.
Proof.
  intros Ha Hs Hfit.
  destruct (AlignTo_value size alignment Ha Hs Hfit) as [Hv Hr].
  eexists. split; [exact Hv|]. split; [apply Z.mod_mul; lia|]. split; [lia|].
  intros m Hm Hsm.
  apply Z.mod_divide in Hm; [|lia]. destruct Hm as [k ->].
  apply Z.mul_le_mono_nonneg_r; [lia|].
  assert (Hk : (size + alignment - 1) / alignment <= (k * alignment + alignment - 1) / alignment)
    by (apply Z.div_le_mono; lia).
  replace (k * alignment + alignment - 1) with ((alignment - 1) + k * alignment) in Hk by lia.
  rewrite Z.div_add in Hk by lia.
  rewrite (Z.div_small (alignment - 1)) in Hk by lia. lia.
Qed.

(** X2.  Without overflow, [AlignTo] returns [size] itself exactly when
    [size] is a multiple of [alignment]; so aligning twice is aligning
    once. *)
Theorem AlignTo_fixed_point (size alignment : Z) :
  0 < alignment -> 0 <= size -> size + alignment - 1 < 18446744073709551616 ->
  (AlignTo size alignment = Some size <-> size mod alignment = 0) /\
  (forall r, AlignTo size alignment = Some r -> r + alignment - 1 < 18446744073709551616 ->
             AlignTo r alignment = Some r).
Proof.
  intros Ha Hs Hfit.
  assert (Hfix : forall s, 0 <= s -> s + alignment - 1 < 18446744073709551616 ->
            s mod alignment = 0 -> AlignTo s alignment = Some s).
  { intros s Hs0 Hsf Hm.
    destruct (AlignTo_value s alignment Ha Hs0 Hsf) as [Hv Hr]. rewrite Hv. f_equal.
    apply Z.mod_divide in Hm; [|lia]. destruct Hm as [k ->].
    replace (k * alignment + alignment - 1) with ((alignment - 1) + k * alignment) by lia.
    rewrite Z.div_add by lia. rewrite (Z.div_small (alignment - 1)) by lia.
    reflexivity. }
  destruct (AlignTo_value size alignment Ha Hs Hfit) as [Hv Hr].
  split; [split|].
  - rewrite Hv. intros E. inversion E as [E']. rewrite <- E' at 1.
    apply Z.mod_mul. lia.
  - apply Hfix; assumption.
  - intros r Hr' Hrf. rewrite Hv in Hr'. inversion Hr'; subst r.
    apply Hfix; [lia|exact Hrf|apply Z.mod_mul; lia].
Qed.

(** X3.  [AlignTo] does not guard the sum [size + alignment - 1]: when it
    wraps around, the result is below [size]; and a zero [alignment] has no
    result at all. *)
Theorem AlignTo_overflow (size alignment : Z) :
  0 <= size < 18446744073709551616 -> 0 <= alignment < 18446744073709551616 ->
  (alignment = 0 -> AlignTo size alignment = None) /\
  (18446744073709551616 <= size + alignment - 1 ->
   exists r, AlignTo size alignment = Some r /\ 0 <= r < size).
Proof.
  intros Hs Ha. split.
  - intros ->. reflexivity.
  - intros Hwrap. unfold AlignTo.
    destruct (Z.eqb_spec alignment 0) as [E|_]; [lia|].
    eexists. split; [reflexivity|].
    assert (Hn : size_t (size + alignment - 1) = size + alignment - 1 - 18446744073709551616).
    { unfold size_t. symmetry. apply (Z.mod_unique _ _ 1); lia. }
    rewrite Hn.
    set (n := size + alignment - 1 - 18446744073709551616).
    assert (H0 : 0 <= n < size) by (unfold n; lia).
    pose proof (Z.mul_div_le n alignment ltac:(lia)) as Hle.
    assert (Hq : 0 <= n / alignment) by (apply Z.div_pos; lia).
    rewrite size_t_small by nia. nia.
Qed.

(** ** [Pin] and [Unpin] *)

Lemma read_insert_same (m : gmap Z Z) (p q : Z) :
  read (<[p := read m p]> m) q = read m q.
Proof.
  destruct (Z.eq_dec q p) as [->|Hne].
  - rewrite read_insert_eq. apply size_t_idem.
  - rewrite read_insert_ne by (apply not_eq_sym; exact Hne). reflexivity.
Qed.

(** X4.  [Pin] succeeds exactly on a header whose [Forwardee] is null: it
    then makes the header its own forwardee and changes no other word; on a
    header that is pinned or forwarded it fails its assertion. *)
Theorem Pin_cases (ptr : Z) (h : Heap) :
  let obj := to_object ptr in
  0 < obj < 18446744073709551616 -> obj mod alignof_max_align_t = 0 ->
  (Forwardee (header_at (Mem h) obj) = 0 ->
   exists h', Pin ptr h = Ok tt h' /\
              header_at (Mem h') obj = mkHeader (Info (header_at (Mem h) obj)) obj /\
              (forall q, q <> obj + 8 -> read (Mem h') q = read (Mem h) q) /\
              From h' = From h /\ To h' = To h /\ AllocPtr h' = AllocPtr h /\
              OnStackGCPtrs h' = OnStackGCPtrs h) /\
  (Forwardee (header_at (Mem h) obj) <> 0 -> Pin ptr h = Abort AssertFailed).
Proof.
  intros obj Hr Ha. unfold Pin. fold obj. unfold load_header, assert, store. mcbv.
  rewrite header_ptr_ok by (auto; lia).
  assert (H8 : (obj + 8 =? 0) = false) by (apply Z.eqb_neq; lia).
  split; intros Hf.
  - rewrite Hf. cbn [Z.eqb]. rewrite H8. eexists. split; [reflexivity|].
    cbn [Mem set_Mem From To AllocPtr OnStackGCPtrs]. split.
    + unfold header_at. cbn [Info]. rewrite read_insert_eq, read_insert_ne by lia.
      rewrite size_t_small by lia. reflexivity.
    + split; [|auto]. intros q Hq. rewrite read_insert_ne by (apply not_eq_sym; exact Hq). reflexivity.
  - apply Z.eqb_neq in Hf. rewrite Hf. reflexivity.
Qed.

(** X5.  [Unpin] succeeds exactly on a pinned header: it then clears the
    [Forwardee] and changes no other word; on any other header it fails its
    assertion. *)
Theorem Unpin_cases (ptr : Z) (h : Heap) :
  let obj := to_object ptr in
  0 < obj < 18446744073709551616 -> obj mod alignof_max_align_t = 0 ->
  (Forwardee (header_at (Mem h) obj) = obj ->
   exists h', Unpin ptr h = Ok tt h' /\
              header_at (Mem h') obj = mkHeader (Info (header_at (Mem h) obj)) 0 /\
              (forall q, q <> obj + 8 -> read (Mem h') q = read (Mem h) q) /\
              From h' = From h /\ To h' = To h /\ AllocPtr h' = AllocPtr h /\
              OnStackGCPtrs h' = OnStackGCPtrs h) /\
  (Forwardee (header_at (Mem h) obj) <> obj -> Unpin ptr h = Abort AssertFailed).
Proof.
  intros obj Hr Ha. unfold Unpin. fold obj. unfold load_header, assert, store. mcbv.
  rewrite header_ptr_ok by (auto; lia).
  assert (H8 : (obj + 8 =? 0) = false) by (apply Z.eqb_neq; lia).
  split; intros Hf.
  - rewrite Hf, Z.eqb_refl, H8. eexists. split; [reflexivity|].
    cbn [Mem set_Mem From To AllocPtr OnStackGCPtrs]. split.
    + unfold header_at. cbn [Info]. rewrite read_insert_eq, read_insert_ne by lia.
      reflexivity.
    + split; [|auto]. intros q Hq. rewrite read_insert_ne by (apply not_eq_sym; exact Hq). reflexivity.
  - apply Z.eqb_neq in Hf. rewrite Hf. reflexivity.
Qed.

(** X6.  [Pin] followed by [Unpin] on an object that was not pinned is a
    round trip: the heap is as before. *)
Theorem Pin_Unpin_round_trip (ptr : Z) (h : Heap) :
  let obj := to_object ptr in
  0 < obj < 18446744073709551616 -> obj mod alignof_max_align_t = 0 ->
  Forwardee (header_at (Mem h) obj) = 0 ->
  exists h', (Pin ptr ;;; Unpin ptr) h = Ok tt h' /\ same_heap h h'.
Proof.
  intros obj Hr Ha Hf. subst obj. set (obj := to_object ptr) in *.
  destruct (Pin_cases ptr h Hr Ha) as [HP _]. fold obj in HP.
  destruct (HP Hf) as (h1 & HP1 & Hh1 & Hm1 & E1 & E2 & E3 & E4).
  destruct (Unpin_cases ptr h1 Hr Ha) as [HU _].
  fold obj in HU. rewrite Hh1 in HU. cbn [Forwardee Info] in HU.
  destruct (HU eq_refl) as (h2 & HU2 & Hh2 & Hm2 & G1 & G2 & G3 & G4).
  exists h2. split.
  - unfold bind. rewrite HP1. exact HU2.
  - unfold same_heap. split.
    + intros q. destruct (Z.eq_dec q (obj + 8)) as [->|Hq].
      * change (read (Mem h2) (obj + 8)) with (Forwardee (header_at (Mem h2) obj)).
        rewrite Hh2. cbn [Forwardee]. symmetry. exact Hf.
      * rewrite Hm2, Hm1 by exact Hq. reflexivity.
    + repeat split; try congruence.
      * revert HP1 HU2. unfold Pin, Unpin, load_header, header_ptr, assert, store. mcbv.
        repeat match goal with
               | |- context [if ?b then _ else _] => destruct b
               end; intros H1 H2; inversion H1; inversion H2; subst; reflexivity.
      * revert HP1 HU2. unfold Pin, Unpin, load_header, header_ptr, assert, store. mcbv.
        repeat match goal with
               | |- context [if ?b then _ else _] => destruct b
               end; intros H1 H2; inversion H1; inversion H2; subst; reflexivity.
Qed.

(** X7.  After [UnscopedPin] the handle can no longer be used through
    [operator->]: that pins again, and [Pin] fails its assertion on the
    pinned object. *)
Theorem arrow_after_UnscopedPin (this : Z) (h : Heap) (v : Z) (h1 : Heap) :
  GCPtr_UnscopedPin this h = Ok v h1 ->
  this <> to_object v + 8 ->
  GCPtr_arrow this h1 = Abort AssertFailed.
Proof.
  unfold GCPtr_arrow, GCPtr_Pin, GCPtr_UnscopedPin, load. mcbv.
  destruct (this =? 0) eqn:Hthis; [discriminate|].
  set (w := read (Mem h) this).
  intros Hrun Hne.
  assert (Hw : 0 <= w < 18446744073709551616) by apply read_range.
  destruct (Pin w h) as [[] h0| |] eqn:HP; try discriminate.
  inversion Hrun; subst v h1; clear Hrun.
  assert (Hobj : 0 < to_object w < 18446744073709551616 /\
                 to_object w mod alignof_max_align_t = 0 /\
                 Forwardee (header_at (Mem h) (to_object w)) = 0).
  { revert HP. unfold Pin, load_header, header_ptr, assert, store. mcbv.
    destruct (to_object w =? 0) eqn:Hz; [discriminate|].
    destruct (to_object w mod alignof_max_align_t =? 0) eqn:Hal; [|discriminate].
    cbv beta iota.
    destruct (Forwardee (header_at (Mem h) (to_object w)) =? 0) eqn:Hf; [|discriminate].
    intros _. apply Z.eqb_neq in Hz. apply Z.eqb_eq in Hal, Hf.
    split; [|auto]. unfold to_object in *. norm.
    destruct (Z.eqb_spec w 0) as [Ew|Ew]; [lia|].
    unfold alignof_max_align_t in Hal.
    destruct (Z_lt_ge_dec (w - 16) 0) as [Hneg|]; [|lia].
    exfalso. assert (E : 0 < w < 16) by lia.
    replace (w - 16) with (w + (-1) * 16) in Hal by lia.
    rewrite Z.mod_add in Hal by discriminate. rewrite Z.mod_small in Hal by lia. lia. }
  destruct Hobj as (Hr & Ha & Hf).
  destruct (Pin_cases w h Hr Ha) as [HP1 _].
  destruct (HP1 Hf) as (h1 & HP2 & Hh1 & Hm1 & _).
  rewrite HP in HP2. inversion HP2; subst h1; clear HP2.
  rewrite (Hm1 this Hne). fold w.
  destruct (Pin_cases w h0 Hr Ha) as [_ HP3].
  rewrite HP3; [reflexivity|]. rewrite Hh1. cbn [Forwardee]. lia.
Qed.

(** ** The constructors and the destructor of [GCPtr] *)

Section Handles.
Variable Space : Z.
Variable GCInfo_Get : Z -> option GCInfo.

(** X8.  A handle's constructor followed by its destructor leaves the
    root array as it was, wherever the handle lives; of the memory only the
    handle's own word has changed. *)
Theorem GCPtr_ctor_dtor_round_trip (this info value : Z) (h : Heap) :
  this <> 0 ->
  (length (OnStackGCPtrs h) < OnStackGCPtrs_capacity)%nat ->
  exists h', (GCPtr_ctor Space this info value ;;; GCPtr_dtor Space this) h = Ok tt h' /\
             OnStackGCPtrs h' = OnStackGCPtrs h /\
             read (Mem h') this = size_t value /\
             (forall q, q <> this -> read (Mem h') q = read (Mem h) q) /\
             From h' = From h /\ To h' = To h /\ AllocPtr h' = AllocPtr h.
Proof.
  intros Hthis _. unfold GCPtr_ctor, GCPtr_dtor, store, when. mcbv.
  apply Z.eqb_neq in Hthis. rewrite Hthis.
  destruct (IsPointerInHeap Space this); cbn [negb]; cbv beta iota;
    (eexists; split; [reflexivity|]); cbn [OnStackGCPtrs set_roots set_Mem Mem From To AllocPtr].
  all: split; [try apply removelast_last; reflexivity|].
  all: split; [apply read_insert_eq|].
  all: split; [|auto].
  all: intros q Hq; apply read_insert_ne; apply not_eq_sym; exact Hq.
Qed.

(** X9.  The destructor gives up the last slot, whichever handle dies:
    when two stack handles are made and the first dies first, the dead
    handle stays registered and the living one is no longer a root. *)
Theorem GCPtr_dtor_drops_last_slot (a ia va b ib vb : Z) (h : Heap) :
  a <> 0 -> b <> 0 ->
  IsPointerInHeap Space a = false -> IsPointerInHeap Space b = false ->
  (length (OnStackGCPtrs h) + 2 <= OnStackGCPtrs_capacity)%nat ->
  exists h', (GCPtr_ctor Space a ia va ;;; GCPtr_ctor Space b ib vb ;;;
              GCPtr_dtor Space a) h = Ok tt h' /\
             OnStackGCPtrs h' = OnStackGCPtrs h ++ [mkRoot a ia].
Proof.
  intros Ha Hb Hao Hbo _. unfold GCPtr_ctor, GCPtr_dtor, store, when. mcbv.
  apply Z.eqb_neq in Ha, Hb. rewrite Ha, Hb, Hao, Hbo. cbn [negb]. cbv beta iota.
  eexists. split; [reflexivity|]. cbn [OnStackGCPtrs set_roots set_Mem].
  apply removelast_last.
Qed.

Lemma AdjustAllocPtr_To_no_assert (fuel : nat) (size : Z) (h : Heap) :
  AdjustAllocPtr GCInfo_Get fuel SpaceTo NeverCollect (ret tt) size h <> Abort AssertFailed.
Proof.
  revert h. induction fuel as [|fuel IH]; intros h; cbn [AdjustAllocPtr]; [discriminate|].
  prims. mcbv.
  repeat match goal with
         | |- context [if ?b then _ else _] => destruct b
         | |- context [match ?o with Some _ => _ | None => _ end] => destruct o
         end; try discriminate.
  apply IH.
Qed.

Lemma Info_Evacuate_no_assert (fuel : nat) (info ptr : Z) (h : Heap) :
  Info_Evacuate GCInfo_Get fuel info ptr h <> Abort AssertFailed.
Proof.
  unfold Info_Evacuate, Evacuate. prims. mcbv.
  repeat match goal with
         | |- context [if ?b then _ else _] => destruct b
         | |- context [match GCInfo_Get ?i with Some _ => _ | None => _ end] =>
             destruct (GCInfo_Get i)
         end; try discriminate.
  all: match goal with
       | |- context [AdjustAllocPtr ?g ?f ?s ?p ?c ?z ?h] =>
           assert (HA : AdjustAllocPtr g f s p c z h <> Abort AssertFailed)
             by exact (AdjustAllocPtr_To_no_assert f z h);
           destruct (AdjustAllocPtr g f s p c z h) as [? ?|? ?|[]]
       end; try discriminate; try (exfalso; apply HA; reflexivity).
  all: repeat first
         [ discriminate
         | progress mcbv
         | match goal with
           | |- context [if ?b then _ else _] => destruct b
           end ].
Qed.


(** X11.  The [Evacuate] thunk of a descriptor, applied to a handle whose
    referent is pinned, copies nothing: the heap is as before. *)
Theorem Info_Evacuate_pinned (fuel : nat) (info ptr : Z) (h : Heap) :
  ptr <> 0 ->
  let obj := to_object (read (Mem h) ptr) in
  obj <> 0 -> obj mod alignof_max_align_t = 0 ->
  Forwardee (header_at (Mem h) obj) = obj ->
  exists h', Info_Evacuate GCInfo_Get fuel info ptr h = Ok tt h' /\ same_heap h h'.
Proof.
  intros Hptr obj Hobj Hal Hpin.
  unfold Info_Evacuate, Evacuate, load, store, load_header. mcbv.
  apply Z.eqb_neq in Hptr. rewrite Hptr. fold obj.
  rewrite header_ptr_ok by assumption.
  rewrite Hpin, Z.eqb_refl.
  eexists. split; [reflexivity|].
  unfold same_heap. cbn [Mem set_Mem From To AllocPtr OnStackGCPtrs Finalized Collections].
  split; [|auto 10]. intros q.
  unfold obj. rewrite to_value_to_object by exact Hobj. apply read_insert_same.
Qed.

(** X12.  When the object does not fit behind the cursor in [TO],
    [Evacuate] throws [bad_alloc] before it writes anything; in [Collect],
    which is [noexcept], that ends the process. *)
Theorem Evacuate_no_room (fuel : nat) (info obj : Z) (gi : GCInfo) (h : Heap) :
  obj <> 0 -> obj mod alignof_max_align_t = 0 ->
  Forwardee (header_at (Mem h) obj) <> obj ->
  info <> 0 -> GCInfo_Get info = Some gi ->
  0 <= Size gi <= Heap_Size / 2 ->
  To h <= AllocPtr h <= To h + Heap_Size / 2 ->
  To h + Heap_Size / 2 < AllocPtr h + Size gi ->
  Evacuate GCInfo_Get fuel info obj h = Throw BadAlloc h /\
  noexcept (Evacuate GCInfo_Get fuel info obj) h = Abort Terminated.
Proof.
  intros Hobj Hal Hfw Hinfo Hgi Hsz Hap Hroom.
  assert (HE : Evacuate GCInfo_Get fuel info obj h = Throw BadAlloc h).
  { unfold Evacuate, load_header, descriptor. mcbv.
    rewrite header_ptr_ok by assumption.
    apply Z.eqb_neq in Hfw, Hinfo. rewrite Hfw, Hinfo, Hgi.
    assert (Hgt : (size_t (AllocPtr h - To h) >? size_t (Heap_Size / 2 - Size gi)) = true).
    { norm. rewrite !size_t_small by lia. lia. }
    rewrite Hgt. reflexivity. }
  split; [exact HE|]. unfold noexcept. rewrite HE. reflexivity.
Qed.

(** X13.  Once [ProcessReference] has redirected a reference to the
    forwardee of its referent, the reference is settled: the new referent
    lies outside [FROM], and processing the reference again changes
    nothing. *)
Theorem ProcessReference_settles (fuel : nat) (info ptr : Z) (h : Heap) :
  ptr <> 0 ->
  let gcObj := to_object (read (Mem h) ptr) in
  let fw := Forwardee (header_at (Mem h) gcObj) in
  gcObj <> 0 -> gcObj mod alignof_max_align_t = 0 ->
  Info (header_at (Mem h) gcObj) <> 0 -> InFrom h gcObj = true ->
  fw <> 0 -> fw mod alignof_max_align_t = 0 ->
  fw + sizeof_GCHeader < 18446744073709551616 ->
  InFrom h fw = false -> Info (header_at (Mem h) fw) <> 0 -> ptr <> fw ->
  exists h1,
    ProcessReference GCInfo_Get fuel info ptr h = Ok tt h1 /\
    read (Mem h1) ptr = fw + sizeof_GCHeader /\
    ProcessReference GCInfo_Get fuel info ptr h1 = Ok tt h1.
Proof.
  intros Hptr gcObj fw Hobj Hal Hinfo Hin Hfw Hfa Hfr Hout Hfi Hne.
  assert (Hfw0 : 0 <= fw) by apply read_range.
  assert (Hv0 : read (Mem h) ptr <> 0).
  { intros E. apply Hobj. unfold gcObj. rewrite E. reflexivity. }
  assert (Htv : to_value fw = fw + sizeof_GCHeader).
  { unfold to_value. apply Z.eqb_neq in Hfw. rewrite Hfw. reflexivity. }
  assert (Hto : to_object (fw + sizeof_GCHeader) = fw).
  { unfold to_object. destruct (Z.eqb_spec (fw + sizeof_GCHeader) 0); [norm; lia|lia]. }
  exists (set_Mem (<[ptr := to_value fw]> (Mem h)) h).
  assert (H1 : ProcessReference GCInfo_Get fuel info ptr h
               = Ok tt (set_Mem (<[ptr := to_value fw]> (Mem h)) h)).
  { unfold ProcessReference, load, load_header, assert, store. mcbv.
    apply Z.eqb_neq in Hptr. rewrite Hptr.
    apply Z.eqb_neq in Hv0. rewrite Hv0. fold gcObj.
    rewrite header_ptr_ok by assumption.
    apply Z.eqb_neq in Hinfo, Hfw. rewrite Hinfo. cbn [negb]. cbv beta iota.
    rewrite Hin. fold fw. rewrite Hfw. cbn [negb]. cbv beta iota.
    reflexivity. }
  split; [exact H1|]. cbn [Mem set_Mem]. rewrite Htv.
  assert (Hrd : read (<[ptr := fw + sizeof_GCHeader]> (Mem h)) ptr = fw + sizeof_GCHeader).
  { rewrite read_insert_eq. apply size_t_small. norm. lia. }
  split; [exact Hrd|].
  unfold ProcessReference, load, load_header, assert, store. mcbv.
  apply Z.eqb_neq in Hptr. rewrite Hptr. cbn [Mem set_Mem]. rewrite Hrd.
  assert (Hnz : (fw + sizeof_GCHeader =? 0) = false) by (apply Z.eqb_neq; norm; lia).
  rewrite Hnz, Hto. rewrite header_ptr_ok by assumption.
  assert (Hi' : Info (header_at (<[ptr := fw + sizeof_GCHeader]> (Mem h)) fw)
                = Info (header_at (Mem h) fw)).
  { unfold header_at. cbn [Info]. apply read_insert_ne. exact Hne. }
  cbn [Mem set_Mem]. rewrite Hi'. apply Z.eqb_neq in Hfi. rewrite Hfi. cbn [negb]. cbv beta iota.
  change (InFrom (set_Mem (<[ptr := fw + sizeof_GCHeader]> (Mem h)) h) fw)
    with (InFrom h fw).
  rewrite Hout. reflexivity.
Qed.

End Handles.

(** * Teardown and the finalize phase *)

Lemma logged_nil (h : Heap) : logged [] h = h.
Proof. destruct h. unfold logged. cbn. rewrite app_nil_r. reflexivity. Qed.

Lemma logged_log (p : Z) (l : list Z) (h : Heap) :
  logged l (log_finalize p h) = logged (p :: l) h.
Proof. unfold logged, log_finalize. cbn. rewrite <- app_assoc. reflexivity. Qed.

Lemma logged_app (l1 l2 : list Z) (h : Heap) :
  logged l2 (logged l1 h) = logged (l1 ++ l2) h.
Proof. unfold logged. cbn. rewrite app_assoc. reflexivity. Qed.

Section Teardown.
Variable Space : Z.
Variable GCInfo_Get : Z -> option GCInfo.

(** One walk of [FinalizeAll] over a semispace reads the memory and only
    adds to the trace: the calls it adds depend on the memory alone, and
    each is made on a header with a null [Forwardee] whose type has a
    finalizer. *)
Lemma finalize_space_trace (fuel : nat) (b p : Z) (h h1 : Heap) :
  finalize_space GCInfo_Get fuel b p h = Ok tt h1 ->
  exists l,
    (forall hx, Mem hx = Mem h ->
       finalize_space GCInfo_Get fuel b p hx = Ok tt (logged l hx)) /\
    Forall (fun q => Forwardee (header_at (Mem h) q) = 0 /\
                     exists gi, GCInfo_Get (Info (header_at (Mem h) q)) = Some gi /\
                                HasFinalize gi = true) l.
Proof.
  revert p h. induction fuel as [|fuel IH]; intros p h; cbn [finalize_space];
    [discriminate|].
  unfold load_header, header_ptr, descriptor, when, Info_Finalize. mcbv.
  destruct (size_t (p - b) <? size_t (Heap_Size / 2 - sizeof_GCHeader)) eqn:Ht.
  2: { intros _. exists []. split; [|constructor].
       intros hx _. rewrite logged_nil. reflexivity. }
  destruct (p =? 0) eqn:Hp; [discriminate|].
  destruct (p mod alignof_max_align_t =? 0) eqn:Hal; [|discriminate].
  cbv beta iota.
  destruct (Info (header_at (Mem h) p) =? 0) eqn:Hi.
  - destruct (Forwardee (header_at (Mem h) p) =? 0) eqn:Hf; cbn [negb]; cbv beta iota.
    + intros _. exists []. split; [|constructor].
      intros hx Hx. rewrite Hx, Hi, Hf, logged_nil. reflexivity.
    + intros Hrun. destruct (IH _ _ Hrun) as (l & Hl & Hok).
      exists l. split; [|exact Hok].
      intros hx Hx. rewrite Hx, Hi, Hf. cbn [negb]. cbv beta iota. apply Hl. exact Hx.
  - destruct (GCInfo_Get (Info (header_at (Mem h) p))) as [gi|] eqn:Hgi; [|discriminate].
    cbv beta iota.
    destruct ((Forwardee (header_at (Mem h) p) =? 0) && HasFinalize gi) eqn:Hfin;
      cbv beta iota.
    + intros Hrun. destruct (IH _ _ Hrun) as (l & Hl & Hok).
      exists (p :: l). split.
      * intros hx Hx. rewrite Hx, Hi, Hgi. cbv beta iota. rewrite Hfin.
        cbv beta iota. rewrite <- logged_log. apply Hl. exact Hx.
      * constructor; [|exact Hok].
        apply andb_true_iff in Hfin. destruct Hfin as [Hf Hh]. apply Z.eqb_eq in Hf.
        split; [exact Hf|]. exists gi. auto.
    + intros Hrun. destruct (IH _ _ Hrun) as (l & Hl & Hok).
      exists l. split; [|exact Hok].
      intros hx Hx. rewrite Hx, Hi, Hgi. cbv beta iota. rewrite Hfin.
      cbv beta iota. apply Hl. exact Hx.
Qed.

(** X14.  [FinalizeAll] asserts that no handle is registered, writes no
    word of memory and only adds to the finalizer trace; every call it adds
    is made on a header whose [Forwardee] is null and whose type has a
    finalizer, so never on a pinned or a forwarded header. *)
Theorem FinalizeAll_only_unforwarded (fuel : nat) (h h' : Heap) :
  FinalizeAll Space GCInfo_Get fuel h = Ok tt h' ->
  OnStackGCPtrs h = [] /\
  exists l, h' = logged l h /\
    forall q, In q l ->
      Forwardee (header_at (Mem h) q) = 0 /\
      exists gi, GCInfo_Get (Info (header_at (Mem h) q)) = Some gi /\
                 HasFinalize gi = true.
Proof.
  unfold FinalizeAll, noexcept, assert. mcbv.
  destruct (OnStackGCPtrs h) as [|r rs] eqn:Hroots; cbn [length Nat.eqb]; [|discriminate].
  destruct (finalize_space _ _ _ _ h) as [[] h1| |] eqn:H1; try discriminate.
  destruct (finalize_space _ _ _ _ h1) as [[] h2| |] eqn:H2; try discriminate.
  intros Hrun. inversion Hrun; subst h'; clear Hrun. split; [reflexivity|].
  destruct (finalize_space_trace _ _ _ _ _ H1) as (l1 & Hl1 & Hok1).
  rewrite (Hl1 h eq_refl) in H1. inversion H1; subst h1; clear H1.
  destruct (finalize_space_trace _ _ _ _ _ H2) as (l2 & Hl2 & Hok2).
  rewrite (Hl2 _ eq_refl) in H2. inversion H2; subst h2; clear H2.
  exists (l1 ++ l2). split; [apply logged_app|].
  intros q Hq. apply in_app_or in Hq. rewrite List.Forall_forall in Hok1, Hok2.
  destruct Hq as [Hq|Hq]; [apply Hok1|apply Hok2]; exact Hq.
Qed.

(** X15.  [FinalizeAll] leaves no mark on what it finalizes: called a
    second time, it makes the same finalizer calls again. *)
Theorem FinalizeAll_twice (fuel : nat) (h h1 : Heap) :
  FinalizeAll Space GCInfo_Get fuel h = Ok tt h1 ->
  exists l, h1 = logged l h /\
            FinalizeAll Space GCInfo_Get fuel h1 = Ok tt (logged (l ++ l) h).
Proof.
  unfold FinalizeAll, noexcept, assert. mcbv.
  destruct (OnStackGCPtrs h) as [|r rs] eqn:Hroots; cbn [length Nat.eqb]; [|discriminate].
  destruct (finalize_space _ _ _ _ h) as [[] h2| |] eqn:H1; try discriminate.
  destruct (finalize_space _ _ _ _ h2) as [[] h3| |] eqn:H2; try discriminate.
  intros Hrun. inversion Hrun; subst h1; clear Hrun.
  destruct (finalize_space_trace _ _ _ _ _ H1) as (l1 & Hl1 & _).
  rewrite (Hl1 h eq_refl) in H1. inversion H1; subst h2; clear H1.
  destruct (finalize_space_trace _ _ _ _ _ H2) as (l2 & Hl2 & _).
  rewrite (Hl2 _ eq_refl) in H2. inversion H2; subst h3; clear H2.
  exists (l1 ++ l2). split; [apply logged_app|].
  cbn [OnStackGCPtrs logged]. rewrite Hroots. cbn [length Nat.eqb].
  rewrite (Hl1 (logged l2 (logged l1 h)) eq_refl).
  cbn [Mem logged] in Hl2.
  rewrite (Hl2 (logged l1 (logged l2 (logged l1 h))) eq_refl).
  rewrite !logged_app. rewrite <- !app_assoc. reflexivity.
Qed.

End Teardown.

(** ** The walks over a space without pinned islands *)

Section Walk.
Variable Space : Z.
Variable GCInfo_Get : Z -> option GCInfo.
Hypothesis Size_bounds : forall info gi,
  GCInfo_Get info = Some gi -> sizeof_GCHeader < Size gi <= Heap_Size / 2.
Hypothesis Size_aligned : forall info gi,
  GCInfo_Get info = Some gi -> Size gi mod alignof_max_align_t = 0.
Hypothesis Space_lo : Heap_Size <= Space.
Hypothesis Space_hi : Space + 2 * Heap_Size <= 18446744073709551616.
Hypothesis Space_aligned : Space mod alignof_max_align_t = 0.

Lemma total_size_cons (gi : GCInfo) (l : list GCInfo) :
  total_size (gi :: l) = Size gi + total_size l.
Proof. reflexivity. Qed.

Lemma aligned_add (p s : Z) :
  p mod alignof_max_align_t = 0 -> s mod alignof_max_align_t = 0 ->
  (p + s) mod alignof_max_align_t = 0.
Proof.
  unfold alignof_max_align_t. intros Hp Hs.
  rewrite Z.add_mod by discriminate. rewrite Hp, Hs. reflexivity.
Qed.

Lemma half_aligned : (Space + Heap_Size / 2) mod alignof_max_align_t = 0.
Proof. apply aligned_add; [exact Space_aligned|reflexivity]. Qed.

(** The walk of [FinalizeAll] over objects laid out back to back up to the
    end sentinel, or up to the end of the space. *)
Lemma finalize_space_tiled (l : list GCInfo) :
  forall (fuel : nat) (b p : Z) (h : Heap),
    Heap_Size <= b -> b + Heap_Size / 2 <= 18446744073709551616 ->
    b <= p -> p mod alignof_max_align_t = 0 ->
    tiled GCInfo_Get (Mem h) p l ->
    p + total_size l <= b + Heap_Size / 2 ->
    (p + total_size l - b < Heap_Size / 2 - sizeof_GCHeader ->
     header_at (Mem h) (p + total_size l) = mkHeader 0 0) ->
    (length l < fuel)%nat ->
    finalize_space GCInfo_Get fuel b p h = Ok tt (logged (finalizable (Mem h) p l) h).
Proof.
  induction l as [|gi l IH]; intros fuel b p h Hb1 Hb2 Hp Hal Htl Hfit Hend Hfuel;
    (destruct fuel as [|fuel]; [cbn in Hfuel; lia|]); cbn [finalize_space finalizable].
  - unfold load_header. mcbv. rewrite logged_nil.
    cbn [total_size fold_right] in Hend, Hfit. rewrite Z.add_0_r in Hend, Hfit.
    destruct (size_t (p - b) <? size_t (Heap_Size / 2 - sizeof_GCHeader)) eqn:Ht;
      [|reflexivity].
    rewrite header_ptr_ok by (auto; norm; lia).
    rewrite Hend; [reflexivity|].
    apply Z.ltb_lt in Ht. norm. rewrite !size_t_small in Ht by lia. lia.
  - destruct Htl as (_ & Hn & Hgi & Htl).
    pose proof (Size_bounds _ _ Hgi) as Hsz. pose proof (Size_aligned _ _ Hgi) as Hsa.
    rewrite total_size_cons in Hfit, Hend.
    pose proof (tiled_sizes GCInfo_Get
                  (fun i g H => Z.lt_le_incl _ _ (proj1 (Size_bounds i g H))) _ _ _ Htl)
      as [Hl0 _].
    unfold load_header, descriptor, when, Info_Finalize. mcbv.
    assert (Ht : (size_t (p - b) <? size_t (Heap_Size / 2 - sizeof_GCHeader)) = true).
    { apply Z.ltb_lt. norm. rewrite !size_t_small by lia. lia. }
    rewrite Ht. rewrite header_ptr_ok by (auto; norm; lia).
    cbn [Info header_at]. apply Z.eqb_neq in Hn. rewrite Hn, Hgi. cbv beta iota.
    change (read (Mem h) (p + 8)) with (Forwardee (header_at (Mem h) p)).
    assert (Hnext : forall h0, Mem h0 = Mem h ->
              finalize_space GCInfo_Get fuel b (p + Size gi) h0
              = Ok tt (logged (finalizable (Mem h) (p + Size gi) l) h0)).
    { intros h0 Hm. rewrite <- Hm. apply IH; try rewrite Hm; auto; try lia.
      - norm. lia.
      - apply aligned_add; assumption.
      - intros Hlt. rewrite <- Z.add_assoc. apply Hend. lia.
      - cbn in Hfuel. lia. }
    destruct ((Forwardee (header_at (Mem h) p) =? 0) && HasFinalize gi); cbv beta iota.
    + rewrite Hnext by reflexivity. rewrite logged_log. reflexivity.
    + apply Hnext. reflexivity.
Qed.


End Walk.

(** * More on [Collect] *)

Section Rootless.
Variable Space : Z.
Variable GCInfo_Get : Z -> option GCInfo.

(** The finalize phase moves neither the spaces nor the cursor. *)
Lemma finalize_loop_frame (fuel : nat) (p prh : Z) (h : Heap) (r : Z) (h1 : Heap) :
  finalize_loop GCInfo_Get fuel p prh h = Ok r h1 ->
  From h1 = From h /\ To h1 = To h /\ AllocPtr h1 = AllocPtr h /\
  OnStackGCPtrs h1 = OnStackGCPtrs h /\ Collections h1 = Collections h.
Proof.
  revert p prh h. induction fuel as [|fuel IH]; intros p prh h; cbn [finalize_loop];
    [discriminate|].
  unfold load_header, store_header, header_ptr, descriptor, when, Info_Finalize. mcbv.
  repeat match goal with
         | |- context [if ?b then _ else _] => destruct b
         | |- context [match GCInfo_Get ?i with Some _ => _ | None => _ end] =>
             destruct (GCInfo_Get i)
         end; try discriminate; cbn [negb]; cbv beta iota.
  all: try (intros H; inversion H; subst; auto 10; fail).
  all: intros H; apply IH in H; cbn in H; exact H.
Qed.

(** X17.  A collection with no registered root copies nothing: the new
    [FROM] is empty and [Used()] is zero. *)
Theorem Collect_without_roots (fuel : nat) (h h' : Heap) :
  OnStackGCPtrs h = [] ->
  Collect Space GCInfo_Get fuel h = Ok tt h' ->
  From h' = To h /\ To h' = From h /\ AllocPtr h' = To h /\ Used h' = 0 /\
  OnStackGCPtrs h' = [].
Proof.
  intros Hroots. unfold Collect, noexcept. mcbv.
  cbn [OnStackGCPtrs set_AllocPtr]. rewrite Hroots. cbn [evacuate_roots]. mcbv.
  destruct fuel as [|fuel]; [discriminate|]. cbn [scan_loop]. mcbv.
  cbn [AllocPtr set_AllocPtr From]. rewrite Z.ltb_irrefl.
  destruct (finalize_loop _ _ _ _ _) as [prh h1| |] eqn:HL; try discriminate.
  apply finalize_loop_frame in HL.
  cbn [From To AllocPtr OnStackGCPtrs Collections set_AllocPtr] in HL.
  destruct HL as (E1 & E2 & E3 & E4 & E5).
  unfold when, store_header, header_ptr. mcbv.
  assert (Hend : forall h2, From h2 = From h -> To h2 = To h -> AllocPtr h2 = To h ->
            OnStackGCPtrs h2 = [] -> Ok tt (swap_spaces h2) = Ok tt h' ->
            From h' = To h /\ To h' = From h /\ AllocPtr h' = To h /\ Used h' = 0 /\
            OnStackGCPtrs h' = []).
  { intros h2 G1 G2 G3 G4 Hrun. inversion Hrun; subst h'. unfold Used. cbn.
    rewrite G1, G2, G3, G4, Z.sub_diag. auto. }
  repeat match goal with
         | |- context [if ?b then _ else _] => destruct b
         end; try discriminate; apply Hend; cbn; congruence.
Qed.

End Rootless.

Section Reclaim.
Variable Space : Z.
Variable GCInfo_Get : Z -> option GCInfo.
Hypothesis Size_bounds : forall info gi,
  GCInfo_Get info = Some gi -> sizeof_GCHeader < Size gi <= Heap_Size / 2.
Hypothesis Size_aligned : forall info gi,
  GCInfo_Get info = Some gi -> Size gi mod alignof_max_align_t = 0.
Hypothesis Space_lo : Heap_Size <= Space.
Hypothesis Space_hi : Space + 2 * Heap_Size <= 18446744073709551616.
Hypothesis Space_aligned : Space mod alignof_max_align_t = 0.

(** The finalize phase over objects laid out back to back, none of them
    pinned or forwarded. *)
Lemma finalize_loop_tiled (l : list GCInfo) :
  forall (fuel : nat) (p prh : Z) (h : Heap),
    Heap_Size <= From h -> From h + Heap_Size / 2 <= 18446744073709551616 ->
    From h <= p -> p mod alignof_max_align_t = 0 ->
    tiled GCInfo_Get (Mem h) p l ->
    (forall q, In q (tile_starts p l) -> Forwardee (header_at (Mem h) q) = 0) ->
    p + total_size l <= From h + Heap_Size / 2 ->
    (p + total_size l - From h < Heap_Size / 2 - sizeof_GCHeader ->
     header_at (Mem h) (p + total_size l) = mkHeader 0 0) ->
    (length l < fuel)%nat ->
    finalize_loop GCInfo_Get fuel p prh h
    = Ok prh (logged (finalizable (Mem h) p l) h).
Proof.
  induction l as [|gi l IH]; intros fuel p prh h Hb1 Hb2 Hp Hal Htl Hdead Hfit Hend Hfuel;
    (destruct fuel as [|fuel]; [cbn in Hfuel; lia|]); cbn [finalize_loop finalizable].
  - unfold load_header. mcbv. rewrite logged_nil.
    cbn [total_size fold_right] in Hend, Hfit. rewrite Z.add_0_r in Hend, Hfit.
    destruct (size_t (p - From h) <? size_t (Heap_Size / 2 - sizeof_GCHeader)) eqn:Ht;
      [|reflexivity].
    rewrite header_ptr_ok by (auto; norm; lia).
    rewrite Hend; [reflexivity|].
    apply Z.ltb_lt in Ht. norm. rewrite !size_t_small in Ht by lia. lia.
  - destruct Htl as (_ & Hn & Hgi & Htl).
    pose proof (Size_bounds _ _ Hgi) as Hsz. pose proof (Size_aligned _ _ Hgi) as Hsa.
    rewrite total_size_cons in Hfit, Hend.
    pose proof (tiled_sizes GCInfo_Get
                  (fun i g H => Z.lt_le_incl _ _ (proj1 (Size_bounds i g H))) _ _ _ Htl)
      as [Hl0 _].
    pose proof (Hdead p (or_introl eq_refl)) as Hf.
    unfold load_header, descriptor, Info_Finalize. mcbv.
    assert (Ht : (size_t (p - From h) <? size_t (Heap_Size / 2 - sizeof_GCHeader)) = true).
    { apply Z.ltb_lt. norm. rewrite !size_t_small by lia. lia. }
    rewrite Ht. rewrite header_ptr_ok by (auto; norm; lia).
    rewrite Hf. cbn [Info header_at]. apply Z.eqb_neq in Hn. rewrite Hn, Hgi.
    cbv beta iota. change (0 =? 0) with true. cbn [andb].
    assert (Hnext : forall h0, Mem h0 = Mem h -> From h0 = From h ->
              finalize_loop GCInfo_Get fuel (p + Size gi) prh h0
              = Ok prh (logged (finalizable (Mem h) (p + Size gi) l) h0)).
    { intros h0 Hm HF. rewrite <- Hm. apply IH; try rewrite Hm; try rewrite HF; auto; try lia.
      - norm. lia.
      - apply aligned_add; assumption.
      - intros q Hq. apply Hdead. right. exact Hq.
      - intros Hlt. rewrite <- Z.add_assoc. apply Hend. lia.
      - cbn in Hfuel. lia. }
    destruct (HasFinalize gi); cbv beta iota.
    + rewrite Hnext by reflexivity. rewrite logged_log. reflexivity.
    + assert (Hp0 : (0 =? p) = false) by (apply Z.eqb_neq; norm; lia).
      rewrite Hp0. apply Hnext; reflexivity.
Qed.


(** The finalize phase over the first of the objects of a space, none
    of them pinned or forwarded: it goes on behind them. *)
Lemma finalize_loop_prefix (l : list GCInfo) :
  forall (fuel : nat) (p prh : Z) (h : Heap),
    Heap_Size <= From h -> From h + Heap_Size / 2 <= 18446744073709551616 ->
    From h <= p -> p mod alignof_max_align_t = 0 ->
    tiled GCInfo_Get (Mem h) p l ->
    (forall q, In q (tile_starts p l) -> Forwardee (header_at (Mem h) q) = 0) ->
    p + total_size l <= From h + Heap_Size / 2 ->
    finalize_loop GCInfo_Get (length l + fuel) p prh h
    = finalize_loop GCInfo_Get fuel (p + total_size l) prh
                    (logged (finalizable (Mem h) p l) h).
Proof.
  induction l as [|gi l IH]; intros fuel p prh h Hb1 Hb2 Hp Hal Htl Hdead Hfit;
    cbn [length Nat.add finalizable].
  - cbn [total_size fold_right]. rewrite Z.add_0_r, logged_nil. reflexivity.
  - cbn [finalize_loop].
    destruct Htl as (_ & Hn & Hgi & Htl).
    pose proof (Size_bounds _ _ Hgi) as Hsz. pose proof (Size_aligned _ _ Hgi) as Hsa.
    rewrite total_size_cons in Hfit |- *.
    pose proof (tiled_sizes GCInfo_Get
                  (fun i g H => Z.lt_le_incl _ _ (proj1 (Size_bounds i g H))) _ _ _ Htl)
      as [Hl0 _].
    pose proof (Hdead p (or_introl eq_refl)) as Hf.
    unfold load_header, descriptor, Info_Finalize. mcbv.
    assert (Ht : (size_t (p - From h) <? size_t (Heap_Size / 2 - sizeof_GCHeader)) = true).
    { apply Z.ltb_lt. norm. rewrite !size_t_small by lia. lia. }
    rewrite Ht. rewrite header_ptr_ok by (auto; norm; lia).
    rewrite Hf. cbn [Info header_at]. apply Z.eqb_neq in Hn. rewrite Hn, Hgi.
    cbv beta iota. change (0 =? 0) with true. cbn [andb].
    assert (Hnext : forall h0, Mem h0 = Mem h -> From h0 = From h ->
              finalize_loop GCInfo_Get (length l + fuel) (p + Size gi) prh h0
              = finalize_loop GCInfo_Get fuel (p + (Size gi + total_size l)) prh
                              (logged (finalizable (Mem h) (p + Size gi) l) h0)).
    { intros h0 Hm HF. rewrite Z.add_assoc. rewrite <- Hm.
      apply IH; try rewrite Hm; try rewrite HF; auto; try lia.
      - norm. lia.
      - apply aligned_add; assumption.
      - intros q Hq. apply Hdead. right. exact Hq. }
    destruct (HasFinalize gi); cbv beta iota.
    + rewrite Hnext by reflexivity. rewrite logged_log. reflexivity.
    + assert (Hp0 : (0 =? p) = false) by (apply Z.eqb_neq; norm; lia).
      rewrite Hp0. apply Hnext; reflexivity.
Qed.

Lemma finalizable_agree (m m' : gmap Z Z) (l : list GCInfo) (p : Z) :
  (forall q, In q (tile_starts p l) -> read m' (q + 8) = read m (q + 8)) ->
  finalizable m' p l = finalizable m p l.
Proof.
  revert p. induction l as [|gi l IH]; intros p H; cbn [finalizable]; [reflexivity|].
  rewrite IH by (intros q Hq; apply H; right; exact Hq).
  unfold header_at. cbn [Forwardee]. rewrite (H p (or_introl eq_refl)). reflexivity.
Qed.

Lemma finalizable_agree_both (m m' : gmap Z Z) (l : list GCInfo) (p : Z) :
  (forall q, In q (tile_starts p l) -> read m' (q + 8) = read m (q + 8)) ->
  finalizable m p l = finalizable m' p l.
Proof. intros H. symmetry. apply finalizable_agree. exact H. Qed.


(** X19.  At each collection every address of the heap array changes
    sides: it is in [FROM] afterwards exactly when it was not before. *)
Theorem Collect_flips_InFrom (fuel : nat) (h h' : Heap) (p : Z) :
  spaces_ok Space h ->
  Collect Space GCInfo_Get fuel h = Ok tt h' ->
  IsPointerInHeap Space p = true ->
  InFrom h' p = negb (InFrom h p).
Proof.
  intros Hs HC Hp.
  destruct (Collect_spaces Space GCInfo_Get
              (fun i g H => conj (Z.lt_le_incl _ _ (proj1 (Size_bounds i g H)))
                                 (proj2 (Size_bounds i g H)))
              Space_lo Space_hi fuel h h' Hs HC) as (H1 & _).
  unfold InFrom, IsPointerInHeap in *. rewrite H1.
  apply andb_true_iff in Hp. destruct Hp as [Hp1 Hp2].
  destruct Hs as [[-> ->]|[-> ->]]; norm;
    destruct (Space <=? p) eqn:A1; destruct (p <? Space + 512) eqn:A2;
    destruct (Space + 512 <=? p) eqn:A3; destruct (p <? Space + 512 + 512) eqn:A4;
    cbn; try reflexivity; lia.
Qed.

End Reclaim.

(** * Allocation *)

Lemma store_words_other (rp : Z) (l : list (Z * Z)) (m : gmap Z Z) (q : Z) :
  (forall ow, In ow l -> q <> rp + fst ow) ->
  read (fold_left (fun m ow => <[rp + fst ow := snd ow]> m) l m) q = read m q.
Proof.
  revert m. induction l as [|ow l IH]; intros m H; cbn [fold_left].
  - reflexivity.
  - rewrite IH by (intros ow' Hin; apply H; right; exact Hin).
    apply read_insert_ne. apply not_eq_sym. apply H. left. reflexivity.
Qed.

Lemma read_write_header_same (m : gmap Z Z) (p q : Z) :
  read (write_header p (header_at m p) m) q = read m q.
Proof.
  unfold write_header, header_at. cbn [Info Forwardee].
  destruct (Z.eq_dec q (p + 8)) as [->|Hne].
  - rewrite read_insert_eq. apply size_t_idem.
  - rewrite read_insert_ne by (apply not_eq_sym; exact Hne). apply read_insert_same.
Qed.

Section Allocation.
Variable Space : Z.
Variable GCInfo_Get : Z -> option GCInfo.
Hypothesis Size_bounds : forall info gi,
  GCInfo_Get info = Some gi -> sizeof_GCHeader <= Size gi <= Heap_Size / 2.
Hypothesis Size_aligned : forall info gi,
  GCInfo_Get info = Some gi -> Size gi mod alignof_max_align_t = 0.
Hypothesis Space_lo : Heap_Size <= Space.
Hypothesis Space_hi : Space + 2 * Heap_Size <= 18446744073709551616.

(** [AdjustAllocPtr] where there is room and no skip record at the
    cursor: neither a collection nor a jump. *)
Lemma AdjustAllocPtr_From_plain (fuel : nat) (collect : M unit) (size : Z) (h : Heap) :
  spaces_ok Space h ->
  0 < size -> From h <= AllocPtr h -> AllocPtr h + size <= From h + Heap_Size / 2 ->
  AllocPtr h mod alignof_max_align_t = 0 ->
  Info (header_at (Mem h) (AllocPtr h)) <> 0 \/
  Forwardee (header_at (Mem h) (AllocPtr h)) = 0 ->
  AdjustAllocPtr GCInfo_Get (S fuel) SpaceFrom CollectIfNeeded collect size h
  = Ok (header_at (Mem h) (AllocPtr h)) h.
Proof.
  intros Hs Hsz Hlo Hroom Hal Hplain. cbn [AdjustAllocPtr].
  unfold space_base, load_header. mcbv.
  assert (HF : Heap_Size <= From h) by (destruct Hs as [[-> _]|[-> _]]; norm; lia).
  rewrite room_test_passes by (auto; norm; lia).
  rewrite header_ptr_ok by (auto; norm; lia).
  destruct Hplain as [Hi|Hf].
  - apply Z.eqb_neq in Hi. rewrite Hi. reflexivity.
  - rewrite Hf. change (0 =? 0) with true. cbn [negb]. rewrite andb_false_r. reflexivity.
Qed.

(** [Allocate] on that path, with the state it leaves. *)
Lemma Allocate_plain (fuel : nat) (info : Z) (gi : GCInfo) (words : list Z)
    (result : Z) (h : Heap) :
  spaces_ok Space h ->
  GCInfo_Get info = Some gi -> info <> 0 ->
  From h <= AllocPtr h -> AllocPtr h + Size gi <= From h + Heap_Size / 2 ->
  AllocPtr h mod alignof_max_align_t = 0 ->
  Info (header_at (Mem h) (AllocPtr h)) <> 0 \/
  Forwardee (header_at (Mem h) (AllocPtr h)) = 0 ->
  result <> 0 -> IsPointerInHeap Space result = false ->
  Allocate Space GCInfo_Get (S fuel) info (Some words) result h
  = Ok (AllocPtr h + sizeof_GCHeader) (allocated info (Size gi) words result h).
Proof.
  intros Hs Hgi Hinfo Hlo Hroom Hal Hplain Hres Hout.
  pose proof (Size_bounds _ _ Hgi) as Hsz. pose proof (Size_aligned _ _ Hgi) as Hsa.
  assert (HF : Heap_Size <= From h /\ From h + Heap_Size / 2 <= Space + Heap_Size /\
               Space <= From h)
    by (destruct Hs as [[-> _]|[-> _]]; norm; lia).
  unfold Allocate, descriptor. mcbv.
  apply Z.eqb_neq in Hinfo. rewrite Hinfo, Hgi. cbv beta iota.
  rewrite AdjustAllocPtr_From_plain by (auto; norm; lia).
  cbv beta iota.
  unfold restore_preamble, store_header, GCPtr_ctor, store, when. mcbv.
  cbn [Mem set_Mem AllocPtr set_AllocPtr From OnStackGCPtrs set_roots].
  rewrite (header_ptr_ok (AllocPtr h)) by (auto; norm; lia).
  apply Z.eqb_neq in Hres. rewrite Hres, Hout. cbn [negb]. cbv beta iota.
  cbn [Mem set_Mem AllocPtr set_AllocPtr From OnStackGCPtrs set_roots].
  assert (Htv : to_value (AllocPtr h) = AllocPtr h + sizeof_GCHeader).
  { unfold to_value. destruct (Z.eqb_spec (AllocPtr h) 0); [norm; lia|reflexivity]. }
  rewrite Htv. unfold allocated.
  destruct (size_t (AllocPtr h + Size gi - From h)
            <? size_t (Heap_Size / 2 - sizeof_GCHeader)) eqn:Hguard.
  - rewrite header_ptr_ok; [|norm; lia|apply aligned_add; [exact Hal|exact Hsa]].
    reflexivity.
  - reflexivity.
Qed.

(** What [allocated] holds. *)
Lemma allocated_facts (info : Z) (gi : GCInfo) (words : list Z) (result : Z) (h : Heap) :
  spaces_ok Space h ->
  GCInfo_Get info = Some gi -> 0 < info < 18446744073709551616 ->
  From h <= AllocPtr h -> AllocPtr h + Size gi <= From h + Heap_Size / 2 ->
  IsPointerInHeap Space result = false ->
  let h' := allocated info (Size gi) words result h in
  Used h' = Used h + Size gi /\
  header_at (Mem h') (AllocPtr h) = mkHeader info 0 /\
  read (Mem h') result = AllocPtr h + sizeof_GCHeader /\
  (AllocPtr h' - From h < Heap_Size / 2 - sizeof_GCHeader ->
   header_at (Mem h') (AllocPtr h') = header_at (Mem h) (AllocPtr h)) /\
  (forall q, q < AllocPtr h \/ AllocPtr h + Size gi + sizeof_GCHeader <= q ->
             q <> result -> read (Mem h') q = read (Mem h) q).
Proof.
  intros Hs Hgi Hinfo Hlo Hroom Hout.
  pose proof (Size_bounds _ _ Hgi) as Hsz.
  assert (HF : Heap_Size <= From h /\ From h + Heap_Size / 2 <= Space + Heap_Size /\
               Space <= From h)
    by (destruct Hs as [[-> _]|[-> _]]; norm; lia).
  assert (Hres' : result < Space \/ Space + Heap_Size <= result).
  { unfold IsPointerInHeap in Hout. apply andb_false_iff in Hout. lia. }
  unfold allocated, Used. set (rp := AllocPtr h) in *.
  cbn [Mem AllocPtr From].
  set (m1 := fold_left _ _ (Mem h)).
  assert (Hm1 : forall q, q < rp + sizeof_GCHeader \/ rp + Size gi <= q ->
                          read m1 q = read (Mem h) q).
  { intros q Hq. unfold m1. apply store_words_other. intros [o w] Hin.
    apply in_combine_l in Hin. cbn [fst].
    apply payload_offsets_range in Hin. norm. lia. }
  assert (Hused : size_t (rp + Size gi - From h) = size_t (rp - From h) + Size gi).
  { norm. rewrite !size_t_small by lia. lia. }
  split; [exact Hused|].
  destruct (size_t (rp + Size gi - From h) <? size_t (Heap_Size / 2 - sizeof_GCHeader))
    eqn:Hguard.
  - apply Z.ltb_lt in Hguard. rewrite Hused in Hguard.
    assert (Hg : rp + Size gi - From h < Heap_Size / 2 - sizeof_GCHeader).
    { revert Hguard. norm. rewrite !size_t_small by lia. lia. }
    split; [|split; [|split]].
    + unfold header_at at 1.
      rewrite !read_write_header_ne by (norm; lia).
      rewrite !read_insert_ne by (norm; lia).
      change (mkHeader (read (write_header rp (mkHeader info 0) m1) rp)
                       (read (write_header rp (mkHeader info 0) m1) (rp + 8)))
        with (header_at (write_header rp (mkHeader info 0) m1) rp).
      rewrite header_at_write_header. cbn [Info Forwardee].
      rewrite size_t_small by lia. reflexivity.
    + rewrite read_write_header_ne by (norm; lia).
      rewrite read_insert_eq. apply size_t_small. norm. lia.
    + intros _. rewrite header_at_write_header.
      unfold header_at. cbn [Info Forwardee].
      rewrite !size_t_small by apply read_range. reflexivity.
    + intros q Hq Hqr.
      rewrite read_write_header_ne by (norm; lia).
      rewrite read_insert_ne by (apply not_eq_sym; exact Hqr).
      rewrite read_write_header_ne by (norm; lia).
      apply Hm1. norm. lia.
  - apply Z.ltb_ge in Hguard. rewrite Hused in Hguard.
    assert (Hg : Heap_Size / 2 - sizeof_GCHeader <= rp + Size gi - From h).
    { revert Hguard. norm. rewrite !size_t_small by lia. lia. }
    split; [|split; [|split]].
    + unfold header_at at 1.
      rewrite !read_insert_ne by (norm; lia).
      change (mkHeader (read (write_header rp (mkHeader info 0) m1) rp)
                       (read (write_header rp (mkHeader info 0) m1) (rp + 8)))
        with (header_at (write_header rp (mkHeader info 0) m1) rp).
      rewrite header_at_write_header. cbn [Info Forwardee].
      rewrite size_t_small by lia. reflexivity.
    + rewrite read_insert_eq. apply size_t_small. norm. lia.
    + intros Hlt. lia.
    + intros q Hq Hqr.
      rewrite read_insert_ne by (apply not_eq_sym; exact Hqr).
      rewrite read_write_header_ne by (norm; lia).
      apply Hm1. norm. lia.
Qed.




(** One pass of [AdjustAllocPtr] over a skip record too close to the
    pinned object it points to: the cursor jumps behind that object. *)
Lemma AdjustAllocPtr_From_jump (fuel : nat) (collect : M unit) (size np : Z)
    (gp : GCInfo) (h : Heap) :
  spaces_ok Space h ->
  0 < size -> From h <= AllocPtr h -> AllocPtr h + size <= From h + Heap_Size / 2 ->
  AllocPtr h mod alignof_max_align_t = 0 ->
  header_at (Mem h) (AllocPtr h) = mkHeader 0 np ->
  AllocPtr h < np < AllocPtr h + size + sizeof_GCHeader ->
  np mod alignof_max_align_t = 0 ->
  Info (header_at (Mem h) np) <> 0 ->
  GCInfo_Get (Info (header_at (Mem h) np)) = Some gp ->
  AdjustAllocPtr GCInfo_Get (S fuel) SpaceFrom CollectIfNeeded collect size h
  = AdjustAllocPtr GCInfo_Get fuel SpaceFrom CollectIfNeeded collect size
                   (set_AllocPtr (np + Size gp) h).
Proof.
  intros Hs Hsz Hlo Hroom Hal Hskip Hnp Hnpa Hpi Hgp.
  assert (HF : Heap_Size <= From h /\ From h + Heap_Size / 2 <= Space + Heap_Size)
    by (destruct Hs as [[-> _]|[-> _]]; norm; lia).
  cbn [AdjustAllocPtr]. unfold space_base, load_header, descriptor. mcbv.
  rewrite room_test_passes by (norm; lia).
  rewrite header_ptr_ok by (auto; norm; lia).
  rewrite Hskip. cbn [Info Forwardee]. change (0 =? 0) with true.
  assert (Hnp0 : (np =? 0) = false) by (apply Z.eqb_neq; norm; lia).
  rewrite Hnp0. cbn [negb andb].
  assert (Hg : (size_t (np - AllocPtr h) <? size_t (size + sizeof_GCHeader)) = true).
  { apply Z.ltb_lt. norm. rewrite !size_t_small by lia. lia. }
  rewrite Hg. rewrite header_ptr_ok by (auto; norm; lia).
  apply Z.eqb_neq in Hpi. rewrite Hpi, Hgp. reflexivity.
Qed.

(** [Allocate] once [AdjustAllocPtr] has settled the cursor, in the state
    [h1], and returned the header it read there. *)
Lemma Allocate_from_adjust (fuel : nat) (info : Z) (gi : GCInfo) (words : list Z)
    (result : Z) (h h1 : Heap) :
  GCInfo_Get info = Some gi -> info <> 0 ->
  AdjustAllocPtr GCInfo_Get fuel SpaceFrom CollectIfNeeded
                 (Collect Space GCInfo_Get fuel) (Size gi) h
  = Ok (header_at (Mem h1) (AllocPtr h1)) h1 ->
  spaces_ok Space h1 ->
  From h1 <= AllocPtr h1 -> AllocPtr h1 + Size gi <= From h1 + Heap_Size / 2 ->
  AllocPtr h1 mod alignof_max_align_t = 0 ->
  result <> 0 -> IsPointerInHeap Space result = false ->
  Allocate Space GCInfo_Get fuel info (Some words) result h
  = Ok (AllocPtr h1 + sizeof_GCHeader) (allocated info (Size gi) words result h1).
Proof.
  intros Hgi Hinfo HA Hs Hlo Hroom Hal Hres Hout.
  pose proof (Size_bounds _ _ Hgi) as Hsz. pose proof (Size_aligned _ _ Hgi) as Hsa.
  assert (HF : Heap_Size <= From h1 /\ From h1 + Heap_Size / 2 <= Space + Heap_Size /\
               Space <= From h1)
    by (destruct Hs as [[-> _]|[-> _]]; norm; lia).
  unfold Allocate, descriptor. mcbv.
  apply Z.eqb_neq in Hinfo. rewrite Hinfo, Hgi. cbv beta iota.
  rewrite HA. cbv beta iota.
  unfold restore_preamble, store_header, GCPtr_ctor, store, when. mcbv.
  cbn [Mem set_Mem AllocPtr set_AllocPtr From OnStackGCPtrs set_roots].
  rewrite (header_ptr_ok (AllocPtr h1)) by (auto; norm; lia).
  apply Z.eqb_neq in Hres. rewrite Hres, Hout. cbn [negb]. cbv beta iota.
  cbn [Mem set_Mem AllocPtr set_AllocPtr From OnStackGCPtrs set_roots].
  assert (Htv : to_value (AllocPtr h1) = AllocPtr h1 + sizeof_GCHeader).
  { unfold to_value. destruct (Z.eqb_spec (AllocPtr h1) 0); [norm; lia|reflexivity]. }
  rewrite Htv. unfold allocated.
  destruct (size_t (AllocPtr h1 + Size gi - From h1)
            <? size_t (Heap_Size / 2 - sizeof_GCHeader)) eqn:Hguard.
  - rewrite header_ptr_ok; [|norm; lia|apply aligned_add; [exact Hal|exact Hsa]].
    reflexivity.
  - reflexivity.
Qed.

(** X26.  [Allocate] with the cursor on a skip record, where the object
    and a header fit in front of the pinned object the record points to:
    the object is made at the cursor, the skip record moves to the new
    cursor, and no word at or behind the pinned object's header changes. *)
Theorem Allocate_in_front_of_pinned (fuel : nat) (info : Z) (gi : GCInfo)
    (words : list Z) (result np : Z) (h : Heap) :
  spaces_ok Space h ->
  GCInfo_Get info = Some gi -> 0 < info < 18446744073709551616 ->
  From h <= AllocPtr h -> AllocPtr h mod alignof_max_align_t = 0 ->
  header_at (Mem h) (AllocPtr h) = mkHeader 0 np -> np <> 0 ->
  AllocPtr h + Size gi + sizeof_GCHeader <= np ->
  np + sizeof_GCHeader <= From h + Heap_Size / 2 ->
  result <> 0 -> IsPointerInHeap Space result = false ->
  exists h',
    Allocate Space GCInfo_Get (S fuel) info (Some words) result h
    = Ok (AllocPtr h + sizeof_GCHeader) h' /\
    AllocPtr h' = AllocPtr h + Size gi /\
    header_at (Mem h') (AllocPtr h) = mkHeader info 0 /\
    header_at (Mem h') (AllocPtr h') = mkHeader 0 np /\
    (forall q, np <= q -> q <> result -> read (Mem h') q = read (Mem h) q).
Proof.
  intros Hs Hgi Hinfo Hlo Hal Hskip Hnp Hgap Hin Hres Hout.
  pose proof (Size_bounds _ _ Hgi) as Hsz.
  assert (HF : Heap_Size <= From h /\ From h + Heap_Size / 2 <= Space + Heap_Size)
    by (destruct Hs as [[-> _]|[-> _]]; norm; lia).
  assert (Hroom : AllocPtr h + Size gi <= From h + Heap_Size / 2) by (norm; lia).
  assert (HA : AdjustAllocPtr GCInfo_Get (S fuel) SpaceFrom CollectIfNeeded
                 (Collect Space GCInfo_Get (S fuel)) (Size gi) h
               = Ok (header_at (Mem h) (AllocPtr h)) h).
  { cbn [AdjustAllocPtr]. unfold space_base, load_header. mcbv.
    rewrite room_test_passes by (norm; lia).
    rewrite header_ptr_ok by (auto; norm; lia).
    rewrite Hskip. cbn [Info Forwardee]. change (0 =? 0) with true.
    apply Z.eqb_neq in Hnp. rewrite Hnp. cbn [negb andb].
    assert (Hg : (size_t (np - AllocPtr h) <? size_t (Size gi + sizeof_GCHeader)) = false).
    { apply Z.ltb_ge. norm. rewrite !size_t_small by lia. lia. }
    rewrite Hg. reflexivity. }
  exists (allocated info (Size gi) words result h).
  split; [apply (Allocate_from_adjust (S fuel) info gi words result h h); auto; lia|].
  destruct (allocated_facts info gi words result h Hs Hgi Hinfo Hlo Hroom Hout)
    as (_ & F2 & _ & F4 & F5).
  split; [reflexivity|]. split; [exact F2|]. split.
  - rewrite F4; [exact Hskip|]. change (AllocPtr (allocated info (Size gi) words result h))
      with (AllocPtr h + Size gi). norm. lia.
  - intros q Hq Hqr. apply F5; [right; lia|exact Hqr].
Qed.

(** X27.  [Allocate] with the cursor on a skip record too close to the
    pinned object it points to: the cursor jumps behind the pinned object
    and the new object is made there; no word in front of it, so none of
    the skip record and of the pinned object, changes. *)
Theorem Allocate_behind_pinned (fuel : nat) (info : Z) (gi gp : GCInfo)
    (words : list Z) (result np : Z) (h : Heap) :
  spaces_ok Space h ->
  GCInfo_Get info = Some gi -> 0 < info < 18446744073709551616 ->
  From h <= AllocPtr h -> AllocPtr h + Size gi <= From h + Heap_Size / 2 ->
  AllocPtr h mod alignof_max_align_t = 0 ->
  header_at (Mem h) (AllocPtr h) = mkHeader 0 np ->
  AllocPtr h < np < AllocPtr h + Size gi + sizeof_GCHeader ->
  np mod alignof_max_align_t = 0 ->
  Info (header_at (Mem h) np) <> 0 ->
  GCInfo_Get (Info (header_at (Mem h) np)) = Some gp ->
  let landing := np + Size gp in
  landing + Size gi <= From h + Heap_Size / 2 ->
  Info (header_at (Mem h) landing) <> 0 \/ Forwardee (header_at (Mem h) landing) = 0 ->
  result <> 0 -> IsPointerInHeap Space result = false ->
  exists h',
    Allocate Space GCInfo_Get (S (S fuel)) info (Some words) result h
    = Ok (landing + sizeof_GCHeader) h' /\
    AllocPtr h' = landing + Size gi /\
    header_at (Mem h') landing = mkHeader info 0 /\
    (forall q, q < landing -> q <> result -> read (Mem h') q = read (Mem h) q).
Proof.
  intros Hs Hgi Hinfo Hlo Hroom Hal Hskip Hnp Hnpa Hpi Hgp landing Hfit Hplain Hres Hout.
  pose proof (Size_bounds _ _ Hgi) as Hsz. pose proof (Size_bounds _ _ Hgp) as Hszp.
  pose proof (Size_aligned _ _ Hgp) as Hsap.
  assert (HF : Heap_Size <= From h /\ From h + Heap_Size / 2 <= Space + Heap_Size)
    by (destruct Hs as [[-> _]|[-> _]]; norm; lia).
  set (h1 := set_AllocPtr landing h).
  assert (Hs1 : spaces_ok Space h1) by exact Hs.
  assert (Hl1 : From h1 <= AllocPtr h1) by (cbn; unfold landing; norm; lia).
  assert (HA : AdjustAllocPtr GCInfo_Get (S (S fuel)) SpaceFrom CollectIfNeeded
                 (Collect Space GCInfo_Get (S (S fuel))) (Size gi) h
               = Ok (header_at (Mem h1) (AllocPtr h1)) h1).
  { rewrite (AdjustAllocPtr_From_jump (S fuel) _ (Size gi) np gp h); auto;
      try (norm; lia).
    fold landing. fold h1.
    apply AdjustAllocPtr_From_plain; auto; try (norm; lia).
    cbn. apply aligned_add; assumption. }
  exists (allocated info (Size gi) words result h1).
  split.
  { apply (Allocate_from_adjust (S (S fuel)) info gi words result h h1); auto; try lia.
    cbn. apply aligned_add; assumption. }
  destruct (allocated_facts info gi words result h1 Hs1 Hgi Hinfo Hl1 Hfit Hout)
    as (_ & F2 & _ & _ & F5).
  split; [reflexivity|]. split; [exact F2|].
  intros q Hq Hqr. apply (F5 q); [left; exact Hq|exact Hqr].
Qed.

(** An exception leaves [AdjustAllocPtr] only as [bad_alloc], and only
    after a collection. *)
Lemma AdjustAllocPtr_From_throws (fuel0 fuel : nat) (size : Z) (n0 : nat) :
  triple (fun h => spaces_ok Space h /\ (n0 <= Collections h)%nat)
         (AdjustAllocPtr GCInfo_Get fuel SpaceFrom CollectIfNeeded
                         (Collect Space GCInfo_Get fuel0) size)
         (fun _ h => True)
         (fun e h => e = BadAlloc /\ (n0 < Collections h)%nat).
Proof.
  induction fuel as [|fuel IH]; intros h (Hs & Hn).
  - exact I.
  - cbn [AdjustAllocPtr]. prims. mcbv.
    destruct (size_t (AllocPtr h - From h) >? _) eqn:Hroom.
    + call (Collect_cursor Space GCInfo_Get Size_bounds Space_lo Space_hi fuel0 (Collections h)).
      2: { exfalso. apply Hcall. auto. }
      destruct (Hcall (conj Hs eq_refl)) as (Hs1 & Hc1 & Hn1).
      run; try solve [split; [reflexivity|lia]].
      apply IH. unfold spaces_ok in *. cbn. intuition lia.
    + run. apply IH. cbn. auto.
Qed.

(** X23.  [Allocate] reports [bad_alloc] only after it has run a
    collection. *)
Theorem Allocate_bad_alloc_after_collecting (fuel : nat) (info : Z)
    (ctor : option (list Z)) (result : Z) (h h' : Heap) :
  spaces_ok Space h ->
  Allocate Space GCInfo_Get fuel info ctor result h = Throw BadAlloc h' ->
  (Collections h < Collections h')%nat.
Proof.
  intros Hs. unfold Allocate, descriptor. mcbv.
  destruct (info =? 0); [discriminate|].
  destruct (GCInfo_Get info) as [gi|]; [|discriminate]. cbv beta iota.
  pose proof (AdjustAllocPtr_From_throws fuel fuel (Size gi) (Collections h) h
                (conj Hs (le_n _))) as HA.
  destruct (AdjustAllocPtr _ _ _ _ _ _ h) as [old h1|e h1|f]; [|..].
  - destruct ctor as [words|].
    + unfold restore_preamble, store_header, header_ptr, GCPtr_ctor, store, when. mcbv.
      repeat match goal with
             | |- context [if ?b then _ else _] => destruct b
             end; discriminate.
    + unfold restore_preamble, store_header, header_ptr, when. mcbv.
      repeat match goal with
             | |- context [if ?b then _ else _] => destruct b
             end; discriminate.
  - intros Hrun. inversion Hrun; subst. apply HA.
  - discriminate.
Qed.

(** X24.  When the object does not fit behind the cursor, [Allocate]
    collects once and then tests the cursor, which now runs in the other
    space, against the space base it read before the collection: unless
    the cursor stands exactly on that old base, it throws [bad_alloc],
    whatever the collection has freed. *)
Theorem Allocate_collects_then_throws (fuel : nat) (info : Z) (gi : GCInfo)
    (ctor : option (list Z)) (result : Z) (h h1 : Heap) :
  spaces_ok Space h ->
  From h <= AllocPtr h <= From h + Heap_Size / 2 ->
  GCInfo_Get info = Some gi -> info <> 0 -> 0 < Size gi ->
  From h + Heap_Size / 2 < AllocPtr h + Size gi ->
  Collect Space GCInfo_Get (S fuel) h = Ok tt h1 ->
  AllocPtr h1 <> From h ->
  Allocate Space GCInfo_Get (S fuel) info ctor result h = Throw BadAlloc h1.
Proof.
  intros Hs Hap Hgi Hinfo Hpos Hroom HC Hne.
  pose proof (Size_bounds _ _ Hgi) as Hsz.
  destruct (Collect_spaces Space GCInfo_Get Size_bounds Space_lo Space_hi
              (S fuel) h h1 Hs HC) as (_ & _ & Hap1 & _).
  unfold Allocate, descriptor. mcbv.
  apply Z.eqb_neq in Hinfo. rewrite Hinfo, Hgi. cbv beta iota.
  cbn [AdjustAllocPtr]. unfold space_base. mcbv.
  assert (H1 : (size_t (AllocPtr h - From h) >? size_t (Heap_Size / 2 - Size gi)) = true).
  { destruct Hs as [[E _]|[E _]]; rewrite E in *; norm;
      rewrite !size_t_small by lia; lia. }
  rewrite H1, HC.
  assert (H2 : (size_t (AllocPtr h1 - From h) >? size_t (Heap_Size / 2 - Size gi)) = true).
  { destruct Hs as [[E1 E2]|[E1 E2]]; rewrite E1, E2 in *; norm.
    - rewrite !size_t_small by lia. lia.
    - rewrite size_t_negative by lia. rewrite size_t_small by lia. lia. }
  rewrite H2. reflexivity.
Qed.

End Allocation.

(** * The program of [main] *)

(** X25.  The program of [main] runs to its end: its four assertions
    hold, [Used()] is 160 before the first collection and 64 after it, no
    handle is left registered at teardown, and seven finalizer calls are
    made in all, one for each of the seven objects allocated. *)
Theorem main_runs_to_the_end :
  exists h,
    Demo.main Demo.start = Ok (160, 64) h /\
    OnStackGCPtrs h = [] /\
    Finalized h = [4160; 4192; 4224; 4096; 4128; 4160; 4192].
Proof.
  eexists. split; [vm_compute; reflexivity|].
  split; vm_compute; reflexivity.
Qed.

(** * A rooted object survives *)

Section Survive.
Variable Space : Z.
Variable GCInfo_Get : Z -> option GCInfo.
Hypothesis Size_bounds : forall info gi,
  GCInfo_Get info = Some gi -> sizeof_GCHeader < Size gi <= Heap_Size / 2.
Hypothesis Size_aligned : forall info gi,
  GCInfo_Get info = Some gi -> Size gi mod alignof_max_align_t = 0.
Hypothesis Info_range : forall info gi,
  GCInfo_Get info = Some gi -> 0 < info < 18446744073709551616.
Hypothesis Space_lo : Heap_Size <= Space.
Hypothesis Space_hi : Space + 2 * Heap_Size <= 18446744073709551616.
Hypothesis Space_aligned : Space mod alignof_max_align_t = 0.

Lemma Size_bounds_le (info : Z) (gi : GCInfo) :
  GCInfo_Get info = Some gi -> sizeof_GCHeader <= Size gi <= Heap_Size / 2.
Proof. intros H. apply Size_bounds in H. lia. Qed.

Lemma Size_le (info : Z) (gi : GCInfo) :
  GCInfo_Get info = Some gi -> sizeof_GCHeader <= Size gi.
Proof. intros H. apply Size_bounds in H. lia. Qed.

Lemma tiled_end_aligned (m : gmap Z Z) (l : list GCInfo) :
  forall p, p mod alignof_max_align_t = 0 -> tiled GCInfo_Get m p l ->
            (p + total_size l) mod alignof_max_align_t = 0.
Proof.
  induction l as [|g l IH]; intros p Hp Ht.
  - cbn [total_size fold_right]. rewrite Z.add_0_r. exact Hp.
  - destruct Ht as (_ & _ & Hg & Ht). rewrite total_size_cons, Z.add_assoc.
    apply IH; [|exact Ht]. apply aligned_add; [exact Hp|].
    exact (Size_aligned _ _ Hg).
Qed.

(** The visitor over an object whose references are all null. *)
Lemma visit_fields_null (fuel : nat) (obj : Z) (fields : list (Z * Z)) (h : Heap) :
  (forall off t, In (off, t) fields -> obj + off <> 0 /\ read (Mem h) (obj + off) = 0) ->
  visit_fields GCInfo_Get fuel obj fields h = Ok tt h.
Proof.
  induction fields as [|[off t] fields IH]; intros H; cbn [visit_fields]; [reflexivity|].
  destruct (H off t (or_introl eq_refl)) as [H0 Hr].
  unfold ProcessReference, load. mcbv.
  apply Z.eqb_neq in H0. rewrite H0, Hr. cbn [Z.eqb]. cbv beta iota.
  apply IH. intros off' t' Hin. apply (H off' t'). right. exact Hin.
Qed.

(** The finalize phase over objects laid out back to back, none of them
    pinned: the forwarded ones are passed over. *)
Lemma finalize_loop_unpinned (l : list GCInfo) :
  forall (fuel : nat) (p prh : Z) (h : Heap),
    Heap_Size <= From h -> From h + Heap_Size / 2 <= 18446744073709551616 ->
    From h <= p -> p mod alignof_max_align_t = 0 ->
    tiled GCInfo_Get (Mem h) p l ->
    (forall q, In q (tile_starts p l) -> Forwardee (header_at (Mem h) q) <> q) ->
    p + total_size l <= From h + Heap_Size / 2 ->
    (p + total_size l - From h < Heap_Size / 2 - sizeof_GCHeader ->
     header_at (Mem h) (p + total_size l) = mkHeader 0 0) ->
    (length l < fuel)%nat ->
    finalize_loop GCInfo_Get fuel p prh h
    = Ok prh (logged (finalizable (Mem h) p l) h).
Proof.
  induction l as [|gi l IH]; intros fuel p prh h Hb1 Hb2 Hp Hal Htl Hdead Hfit Hend Hfuel;
    (destruct fuel as [|fuel]; [cbn in Hfuel; lia|]); cbn [finalize_loop finalizable].
  - unfold load_header. mcbv. rewrite logged_nil.
    cbn [total_size fold_right] in Hend, Hfit. rewrite Z.add_0_r in Hend, Hfit.
    destruct (size_t (p - From h) <? size_t (Heap_Size / 2 - sizeof_GCHeader)) eqn:Ht;
      [|reflexivity].
    rewrite header_ptr_ok by (auto; norm; lia).
    rewrite Hend; [reflexivity|].
    apply Z.ltb_lt in Ht. norm. rewrite !size_t_small in Ht by lia. lia.
  - destruct Htl as (_ & Hn & Hgi & Htl).
    pose proof (Size_bounds _ _ Hgi) as Hsz. pose proof (Size_aligned _ _ Hgi) as Hsa.
    rewrite total_size_cons in Hfit, Hend.
    pose proof (tiled_sizes GCInfo_Get Size_le _ _ _ Htl) as [Hl0 _].
    pose proof (Hdead p (or_introl eq_refl)) as Hf.
    unfold load_header, descriptor, Info_Finalize. mcbv.
    assert (Ht : (size_t (p - From h) <? size_t (Heap_Size / 2 - sizeof_GCHeader)) = true).
    { apply Z.ltb_lt. norm. rewrite !size_t_small by lia. lia. }
    rewrite Ht. rewrite header_ptr_ok by (auto; norm; lia).
    cbn [Info header_at]. apply Z.eqb_neq in Hn. rewrite Hn, Hgi.
    cbv beta iota.
    change (read (Mem h) (p + 8)) with (Forwardee (header_at (Mem h) p)).
    assert (Hnext : forall h0, Mem h0 = Mem h -> From h0 = From h ->
              finalize_loop GCInfo_Get fuel (p + Size gi) prh h0
              = Ok prh (logged (finalizable (Mem h) (p + Size gi) l) h0)).
    { intros h0 Hm HF. rewrite <- Hm. apply IH; try rewrite Hm; try rewrite HF; auto; try lia.
      - norm. lia.
      - apply aligned_add; assumption.
      - intros q Hq. apply Hdead. right. exact Hq.
      - intros Hlt. rewrite <- Z.add_assoc. apply Hend. lia.
      - cbn in Hfuel. lia. }
    destruct ((Forwardee (header_at (Mem h) p) =? 0) && HasFinalize gi); cbv beta iota.
    + rewrite Hnext by reflexivity. rewrite logged_log. reflexivity.
    + apply Z.eqb_neq in Hf. rewrite Hf. apply Hnext; reflexivity.
Qed.


End Survive.

(** * The client runs *)

Local Ltac run_client :=
  lazymatch goal with
  | |- exists _, _ => eexists; run_client
  | |- _ /\ _ => split; [ run_client | run_client ]
  | |- _ => vm_compute; first [ reflexivity | discriminate | intros [_ H]; discriminate H ]
  end.


(** C2: the [Evacuate] thunk applied to a second handle of an object the
    collection has already evacuated copies the object once more, and the
    two handles end on different copies. *)
Lemma C2_forwarded_root_is_copied_again :
  exists a h h',
    Demo.first_root_done Demo.start = Ok a h /\
    read (Mem h) 100008 = a /\
    Forwardee (header_at (Mem h) (to_object a)) <> 0 /\
    Forwardee (header_at (Mem h) (to_object a)) <> to_object a /\
    read (Mem h) 100000 = to_value (Forwardee (header_at (Mem h) (to_object a))) /\
    Info_Evacuate Demo.GCInfo_Get Demo.fuel Demo.A 100008 h = Ok tt h' /\
    AllocPtr h' = AllocPtr h + 32 /\
    read (Mem h') 100008 <> read (Mem h') 100000.
Proof. run_client. Qed.

(** C3: a pinned object that lies right behind another pinned object is
    overwritten by the next collection, and its handle is moved. *)
Lemma C3_adjacent_pinned_object_moves :
  exists p1 p2 h h',
    Demo.adjacent_pins Demo.start = Ok (p1, p2) h /\
    IsPinned h (to_object p1) = true /\
    IsPinned h (to_object p2) = true /\
    to_object p2 = to_object p1 + 32 /\
    read (Mem h) 100016 = p2 /\
    Demo.collect h = Ok tt h' /\
    read (Mem h') 100016 <> p2 /\
    IsPinned h' (to_object p2) = false.
Proof. run_client. Qed.

(** C5: the object allocated with number 7 ends with two copies, and the
    finalizer runs on both. *)
Lemma C5_one_object_finalized_twice :
  exists h,
    Demo.adjacent_pins_to_the_end Demo.start = Ok tt h /\
    Finalized h = [4608; 4640] /\
    Demo.id_of h 4608 = 7 /\
    Demo.id_of h 4640 = 7.
Proof. run_client. Qed.

(** C6: an object still pinned when the heap is destroyed is skipped by
    [FinalizeAll]; its finalizer never runs. *)
Lemma C6_pinned_object_never_finalized :
  exists p h h',
    Demo.one_pinned Demo.start = Ok p h /\
    IsPinned h (to_object p) = true /\
    Demo.GCInfo_Get (Info (header_at (Mem h) (to_object p))) = Some (mkInfo 32 [(16, Demo.A)] true) /\
    (Demo.drop 100000 ;;; Demo.teardown) h = Ok tt h' /\
    Finalized h' = [].
Proof. run_client. Qed.


(** C8: when the cursor is on a skip record too close to the pinned
    object, an allocation whose constructor throws puts the cursor back
    but writes the sentinel read behind the pinned object over the skip
    record; the next allocation then runs into the pinned object. *)
Lemma C8_failed_allocation_erases_skip_record :
  exists p h h' v h'',
    Demo.cursor_at_skip_record Demo.start = Ok p h /\
    IsPinned h (to_object p) = true /\
    header_at (Mem h) (AllocPtr h) = mkHeader 0 (to_object p) /\
    Demo.throwing_A 100016 h = Throw CtorFailure h' /\
    AllocPtr h' = AllocPtr h /\
    header_at (Mem h') (AllocPtr h') = mkHeader 0 0 /\
    Demo.new_A 10 100016 h' = Ok v h'' /\
    header_at (Mem h'') (to_object p) = mkHeader 0 0.
Proof. run_client. Qed.



(** * The general statements at work on the client *)

Lemma Demo_Size_bounds (info : Z) (gi : GCInfo) :
  Demo.GCInfo_Get info = Some gi -> sizeof_GCHeader <= Size gi <= Heap_Size / 2.
Proof.
  unfold Demo.GCInfo_Get. destruct (info =? Demo.A); [|discriminate].
  intros H. inversion H. vm_compute. split; discriminate.
Qed.

Lemma Demo_Info_range (info : Z) (gi : GCInfo) :
  Demo.GCInfo_Get info = Some gi -> 0 < info < 18446744073709551616.
Proof.
  unfold Demo.GCInfo_Get. destruct (Z.eqb_spec info Demo.A); [|discriminate].
  intros _. subst info. vm_compute. split; reflexivity.
Qed.

Lemma Demo_Space_lo : Heap_Size <= Demo.Space.
Proof. vm_compute. discriminate. Qed.

Lemma Demo_Space_hi : Demo.Space + 2 * Heap_Size <= 18446744073709551616.
Proof. vm_compute. discriminate. Qed.

Lemma Demo_Size_bounds_strict (info : Z) (gi : GCInfo) :
  Demo.GCInfo_Get info = Some gi -> sizeof_GCHeader < Size gi <= Heap_Size / 2.
Proof.
  unfold Demo.GCInfo_Get. destruct (info =? Demo.A); [|discriminate].
  intros H. inversion H. vm_compute. split; [reflexivity|discriminate].
Qed.

Lemma Demo_Fields_inside (info : Z) (gi : GCInfo) (off target : Z) :
  Demo.GCInfo_Get info = Some gi -> In (off, target) (PtrFields gi) ->
  sizeof_GCHeader <= off /\ off + 8 <= Size gi.
Proof.
  unfold Demo.GCInfo_Get. destruct (info =? Demo.A); [|discriminate].
  intros H. inversion H. cbn [PtrFields Size In].
  intros [E|[]]. inversion E. vm_compute. split; discriminate.
Qed.




Lemma C10_null_root_stops_collect_witness :
  exists h,
    Demo.null_handle Demo.start = Ok tt h /\
    Demo.collect h = Abort NullDeref.
Proof.
  eexists. split; [vm_compute; reflexivity|].
  apply (C10_null_root_stops_collect Demo.Space Demo.GCInfo_Get Demo.fuel _
           (mkRoot 100000 Demo.A) []).
  - vm_compute. reflexivity.
  - vm_compute. reflexivity.
  - discriminate.
  - vm_compute. reflexivity.
Defined.

Lemma C4_ProcessReference_cases_witness :
  ProcessReference Demo.GCInfo_Get Demo.fuel Demo.A 100000 Demo.start
  = Ok tt Demo.start /\
  (exists a h,
     Demo.first_root_done Demo.start = Ok a h /\
     ProcessReference Demo.GCInfo_Get Demo.fuel Demo.A 100008 h
     = Ok tt (set_Mem (<[100008 := 4624]> (Mem h)) h)) /\
  (exists p h,
     Demo.one_pinned Demo.start = Ok p h /\
     exists h',
       ProcessReference Demo.GCInfo_Get Demo.fuel Demo.A 100000 h = Ok tt h' /\
       read (Mem h') 100000 = p).
Proof.
  split; [|split].
  - refine (proj1 (C4_ProcessReference_cases Demo.Space Demo.GCInfo_Get
                     Demo_Size_bounds Demo_Space_lo Demo_Space_hi Demo_Info_range
                     Demo.fuel Demo.A 100000 Demo.start _) _).
    + discriminate.
    + vm_compute. reflexivity.
  - do 2 eexists. split; [vm_compute; reflexivity|].
    match goal with
    | |- ProcessReference _ _ _ _ ?h = _ =>
        pose proof (proj1 (proj2 (C4_ProcessReference_cases Demo.Space Demo.GCInfo_Get
                     Demo_Size_bounds Demo_Space_lo Demo_Space_hi Demo_Info_range
                     Demo.fuel Demo.A 100008 h ltac:(discriminate)))) as H
    end.
    apply H; vm_compute; first [reflexivity | discriminate].
  - do 2 eexists. split; [vm_compute; reflexivity|].
    match goal with
    | |- exists _, ProcessReference _ _ _ _ ?h = _ /\ _ =>
        destruct (proj2 (proj2 (proj2 (C4_ProcessReference_cases Demo.Space Demo.GCInfo_Get
                     Demo_Size_bounds Demo_Space_lo Demo_Space_hi Demo_Info_range
                     Demo.fuel Demo.A 100000 h ltac:(discriminate))))) as (h' & H1 & H2 & _)
    end.
    1-4: vm_compute; first [reflexivity | discriminate].
    exists h'. split; [exact H1|]. rewrite H2. vm_compute. reflexivity.
Defined.

(** ** The further statements at work *)

Lemma Demo_Size_aligned (info : Z) (gi : GCInfo) :
  Demo.GCInfo_Get info = Some gi -> Size gi mod alignof_max_align_t = 0.
Proof.
  unfold Demo.GCInfo_Get. destruct (info =? Demo.A); [|discriminate].
  intros H. inversion H. reflexivity.
Qed.

Lemma Demo_Space_aligned : Demo.Space mod alignof_max_align_t = 0.
Proof. reflexivity. Qed.

Lemma AlignTo_least_multiple_witness :
  exists r, AlignTo 24 16 = Some r /\ r mod 16 = 0 /\ 24 <= r /\
            forall m, m mod 16 = 0 -> 24 <= m -> r <= m.
Proof. apply AlignTo_least_multiple; [reflexivity|discriminate|reflexivity]. Defined.

Lemma AlignTo_fixed_point_witness :
  (AlignTo 32 16 = Some 32 <-> 32 mod 16 = 0) /\
  (forall r, AlignTo 32 16 = Some r -> r + 16 - 1 < 18446744073709551616 ->
             AlignTo r 16 = Some r).
Proof. apply AlignTo_fixed_point; [reflexivity|discriminate|reflexivity]. Defined.

Lemma AlignTo_overflow_witness :
  (16 = 0 -> AlignTo 18446744073709551610 16 = None) /\
  (18446744073709551616 <= 18446744073709551610 + 16 - 1 ->
   exists r, AlignTo 18446744073709551610 16 = Some r /\ 0 <= r < 18446744073709551610).
Proof. apply AlignTo_overflow; split; first [reflexivity|discriminate]. Defined.

Lemma Pin_cases_witness :
  exists p h,
    Demo.new_A 7 100000 Demo.start = Ok p h /\
    exists h', Pin p h = Ok tt h' /\
               header_at (Mem h') (to_object p)
               = mkHeader (Info (header_at (Mem h) (to_object p))) (to_object p).
Proof.
  do 2 eexists. split; [vm_compute; reflexivity|].
  match goal with
  | |- exists h', Pin ?p ?h = _ /\ _ =>
      destruct (Pin_cases p h) as [H _];
        [split; vm_compute; reflexivity|vm_compute; reflexivity|];
      destruct H as (h' & H1 & H2 & _); [vm_compute; reflexivity|];
      exists h'; split; [exact H1|exact H2]
  end.
Defined.

Lemma Unpin_cases_witness :
  exists p h,
    Demo.one_pinned Demo.start = Ok p h /\
    exists h', Unpin p h = Ok tt h' /\
               header_at (Mem h') (to_object p)
               = mkHeader (Info (header_at (Mem h) (to_object p))) 0.
Proof.
  do 2 eexists. split; [vm_compute; reflexivity|].
  match goal with
  | |- exists h', Unpin ?p ?h = _ /\ _ =>
      destruct (Unpin_cases p h) as [H _];
        [split; vm_compute; reflexivity|vm_compute; reflexivity|];
      destruct H as (h' & H1 & H2 & _); [vm_compute; reflexivity|];
      exists h'; split; [exact H1|exact H2]
  end.
Defined.

Lemma Pin_Unpin_round_trip_witness :
  exists p h,
    Demo.new_A 7 100000 Demo.start = Ok p h /\
    exists h', (Pin p ;;; Unpin p) h = Ok tt h' /\ same_heap h h'.
Proof.
  do 2 eexists. split; [vm_compute; reflexivity|].
  apply Pin_Unpin_round_trip;
    [split; vm_compute; reflexivity|vm_compute; reflexivity|vm_compute; reflexivity].
Defined.

Lemma arrow_after_UnscopedPin_witness :
  exists p h v h1,
    Demo.new_A 7 100000 Demo.start = Ok p h /\
    GCPtr_UnscopedPin 100000 h = Ok v h1 /\
    GCPtr_arrow 100000 h1 = Abort AssertFailed.
Proof.
  do 4 eexists. split; [vm_compute; reflexivity|].
  match goal with
  | |- GCPtr_UnscopedPin ?t ?h = Ok ?v ?h1 /\ _ =>
      assert (H : GCPtr_UnscopedPin t h = Ok v h1) by (vm_compute; reflexivity);
      split; [exact H|];
      apply (arrow_after_UnscopedPin t h v h1 H); vm_compute; discriminate
  end.
Defined.

Lemma GCPtr_ctor_dtor_round_trip_witness :
  exists h', (GCPtr_ctor Demo.Space 100000 Demo.A 0 ;;; GCPtr_dtor Demo.Space 100000)
               Demo.start = Ok tt h' /\
             OnStackGCPtrs h' = OnStackGCPtrs Demo.start.
Proof.
  destruct (GCPtr_ctor_dtor_round_trip Demo.Space 100000 Demo.A 0 Demo.start)
    as (h' & H1 & H2 & _); [discriminate|vm_compute; lia|].
  exists h'. split; [exact H1|exact H2].
Defined.

Lemma GCPtr_dtor_drops_last_slot_witness :
  exists h', (GCPtr_ctor Demo.Space 100000 Demo.A 0 ;;;
              GCPtr_ctor Demo.Space 100008 Demo.A 0 ;;;
              GCPtr_dtor Demo.Space 100000) Demo.start = Ok tt h' /\
             OnStackGCPtrs h' = OnStackGCPtrs Demo.start ++ [mkRoot 100000 Demo.A].
Proof.
  apply GCPtr_dtor_drops_last_slot;
    [discriminate|discriminate|reflexivity|reflexivity|vm_compute; lia].
Defined.


Lemma Info_Evacuate_pinned_witness :
  exists p h,
    Demo.one_pinned Demo.start = Ok p h /\
    exists h', Info_Evacuate Demo.GCInfo_Get Demo.fuel Demo.A 100000 h = Ok tt h' /\
               same_heap h h'.
Proof.
  do 2 eexists. split; [vm_compute; reflexivity|].
  apply Info_Evacuate_pinned;
    [discriminate|vm_compute; discriminate|vm_compute; reflexivity|vm_compute; reflexivity].
Defined.

Lemma Evacuate_no_room_witness :
  exists p h,
    Demo.new_A 7 100000 Demo.start = Ok p h /\
    Evacuate Demo.GCInfo_Get Demo.fuel Demo.A (to_object p)
             (set_AllocPtr (To h + 496) h)
    = Throw BadAlloc (set_AllocPtr (To h + 496) h).
Proof.
  do 2 eexists. split; [vm_compute; reflexivity|].
  match goal with
  | |- Evacuate _ ?f ?i ?o ?h = _ =>
      apply (Evacuate_no_room Demo.GCInfo_Get f i o (mkInfo 32 [(16, Demo.A)] true) h)
  end.
  - vm_compute. discriminate.
  - vm_compute. reflexivity.
  - vm_compute. discriminate.
  - discriminate.
  - reflexivity.
  - vm_compute. split; discriminate.
  - vm_compute. split; discriminate.
  - vm_compute. reflexivity.
Defined.

Lemma ProcessReference_settles_witness :
  exists a h,
    Demo.first_root_done Demo.start = Ok a h /\
    exists h1,
      ProcessReference Demo.GCInfo_Get Demo.fuel Demo.A 100008 h = Ok tt h1 /\
      read (Mem h1) 100008 = 4608 + sizeof_GCHeader /\
      ProcessReference Demo.GCInfo_Get Demo.fuel Demo.A 100008 h1 = Ok tt h1.
Proof.
  do 2 eexists. split; [vm_compute; reflexivity|].
  match goal with
  | |- exists h1, ProcessReference _ ?f ?i ?p ?h = _ /\ _ =>
      destruct (ProcessReference_settles Demo.GCInfo_Get f i p h) as (h1 & H1 & H2 & H3)
  end.
  - discriminate.
  - vm_compute. discriminate.
  - vm_compute. reflexivity.
  - vm_compute. discriminate.
  - vm_compute. reflexivity.
  - vm_compute. discriminate.
  - vm_compute. reflexivity.
  - vm_compute. reflexivity.
  - vm_compute. reflexivity.
  - vm_compute. discriminate.
  - vm_compute. discriminate.
  - exists h1. split; [exact H1|]. split; [|exact H3].
    rewrite H2. vm_compute. reflexivity.
Defined.

Lemma FinalizeAll_only_unforwarded_witness :
  exists h h',
    (Demo.new_A 7 100000 ;;; Demo.drop 100000) Demo.start = Ok tt h /\
    Demo.teardown h = Ok tt h' /\
    OnStackGCPtrs h = [] /\
    exists l, h' = logged l h /\
      forall q, In q l ->
        Forwardee (header_at (Mem h) q) = 0 /\
        exists gi, Demo.GCInfo_Get (Info (header_at (Mem h) q)) = Some gi /\
                   HasFinalize gi = true.
Proof.
  do 2 eexists. split; [vm_compute; reflexivity|].
  match goal with
  | |- Demo.teardown ?h = Ok tt ?h' /\ _ =>
      assert (H : FinalizeAll Demo.Space Demo.GCInfo_Get Demo.fuel h = Ok tt h')
        by (vm_compute; reflexivity);
      split; [exact H|];
      exact (FinalizeAll_only_unforwarded Demo.Space Demo.GCInfo_Get Demo.fuel h h' H)
  end.
Defined.

Lemma FinalizeAll_twice_witness :
  exists h h1,
    (Demo.new_A 7 100000 ;;; Demo.drop 100000) Demo.start = Ok tt h /\
    Demo.teardown h = Ok tt h1 /\
    exists l, h1 = logged l h /\
              FinalizeAll Demo.Space Demo.GCInfo_Get Demo.fuel h1
              = Ok tt (logged (l ++ l) h).
Proof.
  do 2 eexists. split; [vm_compute; reflexivity|].
  match goal with
  | |- Demo.teardown ?h = Ok tt ?h' /\ _ =>
      assert (H : FinalizeAll Demo.Space Demo.GCInfo_Get Demo.fuel h = Ok tt h')
        by (vm_compute; reflexivity);
      split; [exact H|];
      exact (FinalizeAll_twice Demo.Space Demo.GCInfo_Get Demo.fuel h h' H)
  end.
Defined.


Lemma Collect_without_roots_witness :
  exists h h',
    (Demo.new_A 7 100000 ;;; Demo.drop 100000) Demo.start = Ok tt h /\
    Demo.collect h = Ok tt h' /\
    From h' = To h /\ To h' = From h /\ AllocPtr h' = To h /\ Used h' = 0 /\
    OnStackGCPtrs h' = [].
Proof.
  do 2 eexists. split; [vm_compute; reflexivity|].
  match goal with
  | |- Demo.collect ?h = Ok tt ?h' /\ _ =>
      assert (H : Collect Demo.Space Demo.GCInfo_Get Demo.fuel h = Ok tt h')
        by (vm_compute; reflexivity);
      split; [exact H|];
      apply (Collect_without_roots Demo.Space Demo.GCInfo_Get Demo.fuel h h');
        [vm_compute; reflexivity|exact H]
  end.
Defined.


Lemma Collect_flips_InFrom_witness :
  exists h',
    Demo.collect Demo.start = Ok tt h' /\
    InFrom h' 4100 = negb (InFrom Demo.start 4100).
Proof.
  eexists.
  assert (H : Collect Demo.Space Demo.GCInfo_Get Demo.fuel Demo.start = Ok tt ?[h'])
    by (vm_compute; reflexivity).
  split; [exact H|].
  apply (Collect_flips_InFrom Demo.Space Demo.GCInfo_Get Demo_Size_bounds_strict
           Demo_Space_lo Demo_Space_hi Demo.fuel Demo.start);
    [left; vm_compute; split; reflexivity|exact H|vm_compute; reflexivity].
Defined.




Lemma Allocate_bad_alloc_after_collecting_witness :
  exists h h',
    Demo.temporaries 16 Demo.start = Ok tt h /\
    Demo.new_A 1 100000 h = Throw BadAlloc h' /\
    (Collections h < Collections h')%nat.
Proof.
  do 2 eexists. split; [vm_compute; reflexivity|].
  match goal with
  | |- Demo.new_A ?i ?r ?h = Throw BadAlloc ?h' /\ _ =>
      assert (H : Allocate Demo.Space Demo.GCInfo_Get Demo.fuel Demo.A (Some [0; i]) r h
                  = Throw BadAlloc h') by (vm_compute; reflexivity);
      split; [exact H|];
      apply (Allocate_bad_alloc_after_collecting Demo.Space Demo.GCInfo_Get
               Demo_Size_bounds Demo_Space_lo Demo_Space_hi
               Demo.fuel Demo.A (Some [0; i]) r h h');
        [left; vm_compute; split; reflexivity|exact H]
  end.
Defined.

Lemma Allocate_collects_then_throws_witness :
  exists h h1,
    Demo.temporaries 16 Demo.start = Ok tt h /\
    Demo.collect h = Ok tt h1 /\
    Demo.new_A 1 100000 h = Throw BadAlloc h1.
Proof.
  do 2 eexists. split; [vm_compute; reflexivity|].
  match goal with
  | |- Demo.collect ?h = Ok tt ?h1 /\ _ =>
      assert (H : Collect Demo.Space Demo.GCInfo_Get (S 63) h = Ok tt h1)
        by (vm_compute; reflexivity);
      split; [exact H|];
      apply (Allocate_collects_then_throws Demo.Space Demo.GCInfo_Get
               Demo_Size_bounds Demo_Space_lo Demo_Space_hi
               63 Demo.A (mkInfo 32 [(16, Demo.A)] true) (Some [0; 1]) 100000 h h1)
  end.
  - left. vm_compute. split; reflexivity.
  - vm_compute. split; discriminate.
  - reflexivity.
  - discriminate.
  - reflexivity.
  - vm_compute. reflexivity.
  - exact H.
  - vm_compute. discriminate.
Defined.

Lemma Allocate_in_front_of_pinned_witness :
  exists p h,
    Demo.cursor_far_from_pinned Demo.start = Ok p h /\
    exists h',
      Allocate Demo.Space Demo.GCInfo_Get (S 63) Demo.A (Some [0; 5]) 100016 h
      = Ok (AllocPtr h + sizeof_GCHeader) h' /\
      AllocPtr h' = AllocPtr h + 32 /\
      header_at (Mem h') (AllocPtr h') = mkHeader 0 (to_object p).
Proof.
  do 2 eexists. split; [vm_compute; reflexivity|].
  match goal with
  | |- exists h', Allocate _ _ _ _ _ _ ?h = _ /\ _ =>
      destruct (Allocate_in_front_of_pinned Demo.Space Demo.GCInfo_Get Demo_Size_bounds
                  Demo_Size_aligned Demo_Space_lo Demo_Space_hi
                  63 Demo.A (mkInfo 32 [(16, Demo.A)] true) [0; 5] 100016 4192 h)
        as (h' & H1 & H2 & _ & H4 & _)
  end.
  - left. vm_compute. split; reflexivity.
  - reflexivity.
  - vm_compute. split; reflexivity.
  - vm_compute. discriminate.
  - vm_compute. reflexivity.
  - vm_compute. reflexivity.
  - discriminate.
  - vm_compute. discriminate.
  - vm_compute. discriminate.
  - discriminate.
  - vm_compute. reflexivity.
  - exists h'. split; [exact H1|]. split; [exact H2|exact H4].
Defined.

Lemma Allocate_behind_pinned_witness :
  exists p h,
    Demo.cursor_at_skip_record Demo.start = Ok p h /\
    exists h',
      Allocate Demo.Space Demo.GCInfo_Get (S (S 62)) Demo.A (Some [0; 5]) 100016 h
      = Ok (to_object p + 32 + sizeof_GCHeader) h' /\
      AllocPtr h' = to_object p + 32 + 32 /\
      header_at (Mem h') (to_object p) = header_at (Mem h) (to_object p).
Proof.
  do 2 eexists. split; [vm_compute; reflexivity|].
  match goal with
  | |- exists h', Allocate _ _ _ _ _ _ ?h = _ /\ _ =>
      destruct (Allocate_behind_pinned Demo.Space Demo.GCInfo_Get Demo_Size_bounds
                  Demo_Size_aligned Demo_Space_lo Demo_Space_hi
                  62 Demo.A (mkInfo 32 [(16, Demo.A)] true)
                  (mkInfo 32 [(16, Demo.A)] true) [0; 5] 100016 4160 h)
        as (h' & H1 & H2 & _ & H4)
  end.
  - left. vm_compute. split; reflexivity.
  - reflexivity.
  - vm_compute. split; reflexivity.
  - vm_compute. discriminate.
  - vm_compute. discriminate.
  - vm_compute. reflexivity.
  - vm_compute. reflexivity.
  - vm_compute. split; reflexivity.
  - vm_compute. reflexivity.
  - vm_compute. discriminate.
  - vm_compute. reflexivity.
  - vm_compute. discriminate.
  - right. vm_compute. reflexivity.
  - discriminate.
  - vm_compute. reflexivity.
  - exists h'. split; [exact H1|]. split; [exact H2|].
    unfold header_at. rewrite !H4; [reflexivity|..]; vm_compute; first [reflexivity|discriminate].
Defined.


